(** * Image-quality metrics of fetal_brain_qc (metrics/utils.py)

    A shallow embedding of the metric functions of
    [src/fetal_brain_qc/metrics/utils.py] and of the NumPy primitives they
    call, written once over an abstract scalar type and interpreted twice:

    - [XReal]: exact real arithmetic extended with the IEEE special values
      (NaN, +inf, -inf).  Rounding is idealised away, the propagation of
      non-finite values and of Python exceptions is kept.  The general
      theorems are stated on this instance.
    - [B64]: IEEE binary64 through the primitive floats of the prover.  It
      runs, and is used to evaluate the code on concrete arrays. *)

From Stdlib Require Import Ascii String Reals RList.
From Stdlib Require Import List ZArith Bool Lia Lra Floats Permutation.
Import ListNotations.

Set Implicit Arguments.

(** ** Python exceptions and the result monad *)

Inductive exn : Type :=
| ValueError (msg : string)
| TypeError (msg : string)
| OverflowError (msg : string)
| ZeroDivisionError (msg : string)
| IndexError (msg : string).

Inductive result (A : Type) : Type :=
| Ok (a : A)
| Raise (e : exn).

Arguments Ok {A} a.
Arguments Raise {A} e.

Definition bind {A B : Type} (m : result A) (k : A -> result B) : result B :=
  match m with
  | Ok a => k a
  | Raise e => Raise e
  end.

Notation "x <- m ;; k" := (bind m (fun x => k))
  (at level 61, m at next level, right associativity).
Notation "' p <- m ;; k" := (bind m (fun p => k))
  (at level 61, p pattern, m at next level, right associativity).

Definition is_ok {A : Type} (m : result A) : bool :=
  match m with Ok _ => true | Raise _ => false end.

Definition is_value_error {A : Type} (m : result A) : bool :=
  match m with Raise (ValueError _) => true | _ => false end.

Definition is_index_error {A : Type} (m : result A) : bool :=
  match m with Raise (IndexError _) => true | _ => false end.

(** ** Scalars

    The operations the metrics need from a floating-point number.  [to_int]
    is Python's [int(v)]: truncation toward zero, [ValueError] on NaN and
    [OverflowError] on an infinity. *)

Class Scalar (F : Type) : Type := {
  fadd : F -> F -> F;
  fsub : F -> F -> F;
  fmul : F -> F -> F;
  fdiv : F -> F -> F;
  fneg : F -> F;
  fabs : F -> F;
  fsqrt : F -> F;
  feqb : F -> F -> bool;
  fltb : F -> F -> bool;
  fleb : F -> F -> bool;
  of_Z : Z -> F;
  to_int : F -> result Z;
  is_finite : F -> bool
}.

(** [np.log], kept apart: binary64 has no primitive logarithm. *)
Class ScalarLog (F : Type) : Type := {
  flog : F -> F
}.

(** A Python number as the entropy functions produce it: the built-in [sum]
    starts from the [int] 0 and becomes a NumPy float with the first term. *)
Inductive pynum (F : Type) : Type :=
| PyInt (z : Z)
| NpFloat (f : F).

Arguments PyInt {F} z.
Arguments NpFloat {F} f.

(** ** Arrays: a shape and the elements in row-major order *)

Record ndarray (F : Type) : Type := mk_array {
  shape : list nat;
  data : list F
}.

Definition prod_shape (s : list nat) : nat := fold_right Nat.mul 1%nat s.

Definition well_formed {F : Type} (a : ndarray F) : Prop :=
  length (data a) = prod_shape (shape a).

(** [x.size]; on a well-formed array it is the product of the shape. *)
Definition size {F : Type} (a : ndarray F) : nat := length (data a).

Definition ndim {F : Type} (a : ndarray F) : nat := length (shape a).

Definition shape_eqb (s t : list nat) : bool :=
  if list_eq_dec Nat.eq_dec s t then true else false.

(** The value of the built-in [sum] over an array: the [int] 0 when there is
    nothing to add, a NumPy scalar over a 1-d array, an array of one
    dimension less otherwise. *)
Inductive pyval (F : Type) : Type :=
| Num (n : pynum F)
| Arr (a : ndarray F).

Arguments Num {F} n.
Arguments Arr {F} a.

Section Lists.

Variable A : Type.

(** [k] consecutive chunks of [n] elements *)
Fixpoint chunks (n k : nat) (l : list A) : list (list A) :=
  match k with
  | O => []
  | S k' => firstn n l :: chunks n k' (skipn n l)
  end.

Fixpoint map2 (B C : Type) (f : A -> B -> C) (l : list A) (m : list B)
  : list C :=
  match l, m with
  | a :: l', b :: m' => f a b :: map2 f l' m'
  | _, _ => []
  end.

Definition count (p : A -> bool) (l : list A) : nat :=
  length (filter p l).

End Lists.

(** ** NumPy broadcasting of two shapes *)

Definition pad_shape (n : nat) (s : list nat) : list nat :=
  repeat 1%nat (n - length s) ++ s.

Fixpoint broadcast_shape (s t : list nat) : option (list nat) :=
  match s, t with
  | [], [] => Some []
  | d :: s', e :: t' =>
      match broadcast_shape s' t' with
      | None => None
      | Some r =>
          if (d =? e)%nat then Some (d :: r)
          else if (d =? 1)%nat then Some (e :: r)
          else if (e =? 1)%nat then Some (d :: r)
          else None
      end
  | _, _ => None
  end.

(** Elements of an array of shape [s] repeated to fill shape [t], where every
    dimension of [s] is the one of [t] or 1. *)
Fixpoint expand {A : Type} (s t : list nat) (l : list A) : list A :=
  match s, t with
  | d :: s', e :: t' =>
      let cs := map (expand s' t') (chunks (prod_shape s') d l) in
      if (d =? e)%nat then concat cs else concat (concat (repeat cs e))
  | _, _ => l
  end.

(** ** The NumPy and Python primitives used by the metrics *)

Section Numpy.

Context {F : Type} {SF : Scalar F}.

Definition fzero : F := of_Z 0.
Definition fone : F := of_Z 1.
Definition fhalf : F := fdiv (of_Z 1) (of_Z 2).

(** [np.nan] *)
Definition np_nan : F := fdiv fzero fzero.

(** The literal [1e-13] of [psnr]: 1 and 10^13 are exact in binary64 and
    the division is correctly rounded, which is how the literal is read. *)
Definition lit_1e_13 : F := fdiv (of_Z 1) (of_Z 10000000000000).

Definition is_nan (v : F) : bool := negb (feqb v v).

(** [p != 0] *)
Definition fneqb (a b : F) : bool := negb (feqb a b).

(** [np.maximum] and [np.minimum]: a NaN operand wins. *)
Definition np_maximum (a b : F) : F :=
  if is_nan a then a else if is_nan b then b
  else if fltb a b then b else a.

Definition np_minimum (a b : F) : F :=
  if is_nan a then a else if is_nan b then b
  else if fltb b a then b else a.

(** The built-in [min(a, b)] of Python: [b] when [b < a], else [a]. *)
Definition py_min (a b : F) : F := if fltb b a then b else a.

Definition no_identity (op : string) : exn :=
  ValueError ("zero-size array to reduction operation " ++ op
              ++ " which has no identity").

(** [np.amax(x)] and [np.amin(x)] *)
Definition np_amax (a : ndarray F) : result F :=
  match data a with
  | [] => Raise (no_identity "maximum")
  | v :: l => Ok (fold_left np_maximum l v)
  end.

Definition np_amin (a : ndarray F) : result F :=
  match data a with
  | [] => Raise (no_identity "minimum")
  | v :: l => Ok (fold_left np_minimum l v)
  end.

(** [np.sum] over all the elements.  The terms are added from left to
    right.  NumPy adds pairwise, in blocks, from 8 elements on: over the
    reals the sum is the same, in binary64 it can differ in the last
    place; the binary64 examples sum fewer than 8 elements, or ones. *)
Definition np_sum (l : list F) : F := fold_left fadd l fzero.

(** [x.mean()] *)
Definition np_mean (l : list F) : F :=
  fdiv (np_sum l) (of_Z (Z.of_nat (length l))).

(** [x.std(ddof=d)]: the squared deviations from the mean are summed and
    divided by [max(N - d, 0)]. *)
Definition np_std (ddof : nat) (l : list F) : F :=
  let m := np_mean l in
  let dev := map (fun v => fsub v m) l in
  let sq := map (fun v => fmul v v) dev in
  fsqrt (fdiv (np_sum sq) (of_Z (Z.of_nat (length l - ddof)))).

(** Element-wise binary operation, with broadcasting. *)
Definition elementwise (f : F -> F -> F) (a b : ndarray F)
  : result (ndarray F) :=
  if shape_eqb (shape a) (shape b) then
    Ok (mk_array (shape a) (map2 f (data a) (data b)))
  else
    let n := Nat.max (ndim a) (ndim b) in
    let sa := pad_shape n (shape a) in
    let sb := pad_shape n (shape b) in
    match broadcast_shape sa sb with
    | None =>
        Raise (ValueError "operands could not be broadcast together")
    | Some s =>
        Ok (mk_array s (map2 f (expand sa s (data a))
                               (expand sb s (data b))))
    end.

Definition array_map (f : F -> F) (a : ndarray F) : ndarray F :=
  mk_array (shape a) (map f (data a)).

(** The built-in [sum(a)] over an array: iteration is along the first
    axis, the items are added one after the other to the [int] 0. *)
Definition sum_step (acc : option (list F)) (row : list F)
  : option (list F) :=
  match acc with
  | None => Some (map (fadd fzero) row)
  | Some s => Some (map2 fadd s row)
  end.

Definition py_sum_array (a : ndarray F) : result (pyval F) :=
  match shape a with
  | [] => Raise (TypeError "iteration over a 0-d array")
  | d :: rest =>
      let rows := chunks (prod_shape rest) d (data a) in
      match fold_left sum_step rows None with
      | None => Ok (Num (PyInt 0))
      | Some s =>
          match rest with
          | [] => Ok (Num (NpFloat (hd fzero s)))
          | _ :: _ => Ok (Arr (mk_array rest s))
          end
      end
  end.

(** [if v < c:] for the value of a built-in [sum] and a float [c].  An
    array of several elements has no truth value; an empty one counts as
    false (NumPy 1.x, with a warning). *)
Definition py_lt_truth (v : pyval F) (c : F) : result bool :=
  match v with
  | Num (PyInt z) => Ok (fltb (of_Z z) c)
  | Num (NpFloat f) => Ok (fltb f c)
  | Arr a =>
      match data a with
      | [] => Ok false
      | [f] => Ok (fltb f c)
      | _ => Raise (ValueError
               "The truth value of an array with more than one element is ambiguous. Use a.any() or a.all()")
      end
  end.

(** [a[m > 0]]: boolean-mask indexing.  The mask covers the leading
    dimensions of [a]; each selected position contributes the block of
    elements below it. *)
Fixpoint is_prefix (s t : list nat) : bool :=
  match s, t with
  | [], _ => true
  | d :: s', e :: t' => (d =? e)%nat && is_prefix s' t'
  | _ :: _, [] => false
  end.

Definition select_blocks (sel : list bool) (blocks : list (list F))
  : list F :=
  concat (map snd (filter fst (combine sel blocks))).

Definition bool_index (a : ndarray F) (m : ndarray bool)
  : result (list F) :=
  if is_prefix (shape m) (shape a) then
    let inner := prod_shape (skipn (ndim m) (shape a)) in
    Ok (select_blocks (data m) (chunks inner (size m) (data a)))
  else Raise (IndexError "boolean index did not match indexed array").

(** ** Histograms *)

(** [_get_outer_edges]: the range of the data, (0, 1) for no data, widened
    by one half on each side when it is a single point. *)
Definition outer_edges (l : list F) : result (F * F) :=
  let '(lo, hi) :=
    match l with
    | [] => (fzero, fone)
    | v :: l' => (fold_left np_minimum l' v, fold_left np_maximum l' v)
    end in
  if negb (is_finite lo && is_finite hi) then
    Raise (ValueError "autodetected range is not finite")
  else if feqb lo hi then Ok (fsub lo fhalf, fadd hi fhalf)
  else Ok (lo, hi).

(** [np.linspace(lo, hi, n + 1)]: [n] steps, the last point is [hi]. *)
Definition linspace (lo hi : F) (n : nat) : list F :=
  let step := fdiv (fsub hi lo) (of_Z (Z.of_nat n)) in
  map (fun i => fadd (fmul (of_Z (Z.of_nat i)) step) lo) (seq 0 n)
  ++ [hi].

(** [np.searchsorted(edges, v, side='right')] on increasing edges: the
    number of edges not above [v]. *)
Definition searchsorted_right (edges : list F) (v : F) : nat :=
  count (fun e => fleb e v) edges.

(** The bin of [v] among [n] bins: [edges[i] <= v < edges[i+1]], the last
    bin closed on the right; [None] outside of the edges. *)
Definition bin_of (edges : list F) (n : nat) (v : F) : option nat :=
  let k := searchsorted_right edges v in
  let k := if feqb v (last edges fzero) then (k - 1)%nat else k in
  if (1 <=? k)%nat && (k <=? n)%nat then Some (k - 1)%nat else None.

Definition in_bin (edges : list F) (n i : nat) (v : F) : bool :=
  match bin_of edges n v with
  | Some j => (i =? j)%nat
  | None => false
  end.

Definition bad_bins : exn :=
  ValueError "`bins` must be positive, when an integer".

Definition bin_out_of_bounds : exn :=
  IndexError "index out of bounds for the bin edges".

(** The width [hi - lo] of the range divides the distance of every value
    to [lo].  It is a number other than zero, unless the subtraction
    overflows (a range from -1e308 to 1e308) or rounds to zero (the single
    value 1e17, whose range is widened by a half that is lost): then
    [w / w] is [inf / inf] or [0 / 0], a NaN. *)
Definition width_divides (lo hi : F) : bool :=
  let w := fsub hi lo in
  is_finite (fdiv w w).

(** [np.histogram(x, bins=bins)[0]]: the counts.  NumPy computes the bin
    of a value by arithmetic, [(v - lo) / (hi - lo) * bins] converted to an
    integer, and corrects it against the edges, which gives the bin of the
    edge search.  When the width does not divide, the arithmetic gives
    NaN for the largest value, and the conversion of NaN to an integer
    (the least one, on x86-64) is no index of the edges: [IndexError]. *)
Definition np_histogram (a : ndarray F) (bins : Z) : result (list Z) :=
  if (bins <? 1)%Z then Raise bad_bins
  else
    let n := Z.to_nat bins in
    '(lo, hi) <- outer_edges (data a) ;;
    if negb (width_divides lo hi) then Raise bin_out_of_bounds
    else
      let edges := linspace lo hi n in
      Ok (map (fun i => Z.of_nat (count (in_bin edges n i) (data a)))
              (seq 0 n)).

(** [np.histogram2d(x, y, bins=bins)[0]], flattened in row-major order *)
Definition np_histogram2d (x y : list F) (bins : Z) : result (list Z) :=
  if negb (length x =? length y)%nat then
    Raise (ValueError "x and y must have the same length.")
  else if (bins <? 1)%Z then Raise bad_bins
  else
    let n := Z.to_nat bins in
    '(xlo, xhi) <- outer_edges x ;;
    '(ylo, yhi) <- outer_edges y ;;
    let ex := linspace xlo xhi n in
    let ey := linspace ylo yhi n in
    Ok (flat_map
          (fun i =>
             map (fun j =>
                    Z.of_nat
                      (count (fun p => in_bin ex n i (fst p)
                                       && in_bin ey n j (snd p))
                             (combine x y)))
                 (seq 0 n))
          (seq 0 n)).

Definition sum_Z (l : list Z) : Z := fold_left Z.add l 0%Z.

(** [hist / float(np.sum(hist))] *)
Definition probabilities (hist : list Z) : list F :=
  let total := of_Z (sum_Z hist) in
  map (fun c => fdiv (of_Z c) total) hist.

(** Arithmetic of Python numbers: [+], [-], unary [-] and [/].  Only the
    division of two [int]s can raise. *)
Definition py_float (n : pynum F) : F :=
  match n with PyInt z => of_Z z | NpFloat f => f end.

Definition py_add (a b : pynum F) : pynum F :=
  match a, b with
  | PyInt x, PyInt y => PyInt (x + y)
  | _, _ => NpFloat (fadd (py_float a) (py_float b))
  end.

Definition py_sub (a b : pynum F) : pynum F :=
  match a, b with
  | PyInt x, PyInt y => PyInt (x - y)
  | _, _ => NpFloat (fsub (py_float a) (py_float b))
  end.

Definition py_neg (a : pynum F) : pynum F :=
  match a with
  | PyInt x => PyInt (- x)
  | NpFloat f => NpFloat (fneg f)
  end.

Definition py_div (a b : pynum F) : result (pynum F) :=
  match a, b with
  | PyInt x, PyInt y =>
      if (y =? 0)%Z then Raise (ZeroDivisionError "division by zero")
      else Ok (NpFloat (fdiv (of_Z x) (of_Z y)))
  | _, _ => Ok (NpFloat (fdiv (py_float a) (py_float b)))
  end.

(** The built-in [sum] of a list of NumPy floats *)
Definition py_sum (l : list F) : pynum F :=
  fold_left (fun acc v => py_add acc (NpFloat v)) l (PyInt 0).

End Numpy.

(** ** The metrics of [metrics/utils.py] *)

Section Metrics.

Context {F : Type} {SF : Scalar F}.

(** The routines of [skimage.metrics] are external: the metrics are
    parameterised by them.  [structural_similarity] is called with
    [full=True] and returns the mean SSIM and the SSIM map. *)
Variable peak_signal_noise_ratio : ndarray F -> ndarray F -> F -> result F.
Variable structural_similarity :
  ndarray F -> ndarray F -> F -> result (F * ndarray F).
Variable normalized_root_mse : ndarray F -> ndarray F -> result F.
Variable mean_squared_error : ndarray F -> ndarray F -> result F.

Definition normalized_cross_correlation (x x_ref : ndarray F) : result F :=
  if negb (shape_eqb (shape x) (shape x_ref)) then
    Raise (ValueError "Input data shapes do not match")
  else
    let xc := array_map (fun v => fsub v (np_mean (data x))) x in
    let rc := array_map (fun v => fsub v (np_mean (data x_ref))) x_ref in
    p <- elementwise fmul xc rc ;;
    let ncc := np_sum (data p) in
    Ok (fdiv ncc
          (fmul (fmul (of_Z (Z.of_nat (size x))) (np_std 1 (data x)))
                (np_std 1 (data x_ref)))).

(** [-sum([p * np.log(p) for p in prob.flatten() if p != 0])] *)
Definition entropy_of {LF : ScalarLog F} (prob : list F) : pynum F :=
  py_neg (py_sum (map (fun p => fmul p (flog p))
                      (filter (fun p => fneqb p fzero) prob))).

Definition shannon_entropy {LF : ScalarLog F} (x : ndarray F) (bins : Z)
  : result (pynum F) :=
  hist <- np_histogram x bins ;;
  Ok (entropy_of (probabilities hist)).

Definition joint_entropy {LF : ScalarLog F} (x x_ref : ndarray F) (bins : Z)
  : result (pynum F) :=
  hist <- np_histogram2d (data x) (data x_ref) bins ;;
  Ok (entropy_of (probabilities hist)).

Definition mutual_information {LF : ScalarLog F} (x x_ref : ndarray F)
  (bins : Z) : result (pynum F) :=
  mi <- shannon_entropy x bins ;;
  h <- shannon_entropy x_ref bins ;;
  let mi := py_add mi h in
  j <- joint_entropy x x_ref bins ;;
  Ok (py_sub mi j).

Definition normalized_mutual_information {LF : ScalarLog F}
  (x x_ref : ndarray F) (bins : Z) : result (pynum F) :=
  nmi <- shannon_entropy x bins ;;
  h <- shannon_entropy x_ref bins ;;
  let nmi := py_add nmi h in
  j <- joint_entropy x x_ref bins ;;
  py_div nmi j.

(** [int(np.amax(x_ref) - min(np.amin(x), np.amin(x_ref)))] *)
Definition inferred_datarange (x x_ref : ndarray F) : result F :=
  hi <- np_amax x_ref ;;
  lo <- np_amin x ;;
  lo_ref <- np_amin x_ref ;;
  z <- to_int (fsub hi (py_min lo lo_ref)) ;;
  Ok (of_Z z).

(** [if not datarange: datarange = int(...)]: [None] is falsy, and so is a
    number equal to zero. *)
Definition resolve_datarange (x x_ref : ndarray F) (datarange : option F)
  : result F :=
  match datarange with
  | None => inferred_datarange x x_ref
  | Some d => if feqb d fzero then inferred_datarange x x_ref else Ok d
  end.

Definition psnr (x x_ref : ndarray F) (datarange : option F) : result F :=
  dr <- resolve_datarange x x_ref datarange ;;
  d <- elementwise fsub x x_ref ;;
  s <- py_sum_array (array_map fabs d) ;;
  same <- py_lt_truth s lit_1e_13 ;;
  if same then Ok np_nan
  else peak_signal_noise_ratio x x_ref dr.

Definition nrmse (x x_ref : ndarray F) : result F :=
  normalized_root_mse x x_ref.

Definition rmse (x x_ref : ndarray F) : result F :=
  m <- mean_squared_error x x_ref ;;
  Ok (fsqrt m).

Definition mae (x x_ref : ndarray F) : result F :=
  d <- elementwise fsub x x_ref ;;
  Ok (np_mean (map fabs (data d))).

Definition nmae (x x_ref : ndarray F) : result F :=
  m <- mae x x_ref ;;
  Ok (fdiv m (np_mean (map fabs (data x_ref)))).

(** [mask > 0] *)
Definition positive (mask : ndarray F) : ndarray bool :=
  mk_array (shape mask) (map (fun v => fltb fzero v) (data mask)).

Definition pick_ssim (ssim : F * ndarray F) (mask : option (ndarray F))
  : result F :=
  match mask with
  | None => Ok (fst ssim)
  | Some m =>
      sel <- bool_index (snd ssim) (positive m) ;;
      Ok (np_mean sel)
  end.

Definition ssim (x x_ref : ndarray F) (mask : option (ndarray F))
  (datarange : option F) : result F :=
  dr <- resolve_datarange x x_ref datarange ;;
  s <- structural_similarity x_ref x dr ;;
  pick_ssim s mask.

End Metrics.

(** ** First interpretation: exact reals with the IEEE special values *)

Module XReal.

Local Open Scope R_scope.

Inductive xreal : Type :=
| Fin (r : R)
| PInf
| NInf
| NaN.

Definition Reqb (a b : R) : bool := if Req_dec_T a b then true else false.
Definition Rltb (a b : R) : bool := if Rlt_dec a b then true else false.
Definition Rleb (a b : R) : bool := if Rle_dec a b then true else false.

(** Sign of a value that is not NaN: -1, 0 or 1 *)
Definition sgn (a : xreal) : Z :=
  match a with
  | Fin r => if Rltb 0 r then 1%Z else if Rltb r 0 then (-1)%Z else 0%Z
  | PInf => 1%Z
  | NInf => (-1)%Z
  | NaN => 0%Z
  end.

(** The infinity of a sign; no sign (0 times infinity, 0 / 0) is NaN. *)
Definition inf_of_sign (s : Z) : xreal :=
  if (0 <? s)%Z then PInf else if (s <? 0)%Z then NInf else NaN.

Definition xneg (a : xreal) : xreal :=
  match a with
  | Fin r => Fin (- r)
  | PInf => NInf
  | NInf => PInf
  | NaN => NaN
  end.

Definition xadd (a b : xreal) : xreal :=
  match a, b with
  | Fin x, Fin y => Fin (x + y)
  | NaN, _ | _, NaN => NaN
  | PInf, NInf | NInf, PInf => NaN
  | PInf, _ | _, PInf => PInf
  | NInf, _ | _, NInf => NInf
  end.

Definition xsub (a b : xreal) : xreal := xadd a (xneg b).

Definition xmul (a b : xreal) : xreal :=
  match a, b with
  | Fin x, Fin y => Fin (x * y)
  | NaN, _ | _, NaN => NaN
  | _, _ => inf_of_sign (sgn a * sgn b)
  end.

(** A finite value divided by zero is an infinity of its sign (the sign of
    the zero is not tracked), and 0 / 0 is NaN. *)
Definition xdiv (a b : xreal) : xreal :=
  match a, b with
  | NaN, _ | _, NaN => NaN
  | Fin x, Fin y => if Reqb y 0 then inf_of_sign (sgn a) else Fin (x / y)
  | Fin _, _ => Fin 0
  | _, Fin y => inf_of_sign (sgn a * (if Rltb y 0 then -1 else 1))
  | _, _ => NaN
  end.

Definition xabs (a : xreal) : xreal :=
  match a with
  | Fin r => Fin (Rabs r)
  | PInf | NInf => PInf
  | NaN => NaN
  end.

Definition xsqrt (a : xreal) : xreal :=
  match a with
  | Fin r => if Rltb r 0 then NaN else Fin (R_sqrt.sqrt r)
  | PInf => PInf
  | NInf | NaN => NaN
  end.

Definition xlog (a : xreal) : xreal :=
  match a with
  | Fin r => if Rltb r 0 then NaN else if Reqb r 0 then NInf else Fin (ln r)
  | PInf => PInf
  | NInf | NaN => NaN
  end.

Definition xeqb (a b : xreal) : bool :=
  match a, b with
  | Fin x, Fin y => Reqb x y
  | PInf, PInf | NInf, NInf => true
  | _, _ => false
  end.

Definition xltb (a b : xreal) : bool :=
  match a, b with
  | Fin x, Fin y => Rltb x y
  | NInf, Fin _ | NInf, PInf | Fin _, PInf => true
  | _, _ => false
  end.

Definition xleb (a b : xreal) : bool :=
  match a, b with
  | Fin x, Fin y => Rleb x y
  | NInf, Fin _ | NInf, PInf | Fin _, PInf | PInf, PInf | NInf, NInf => true
  | _, _ => false
  end.

(** Truncation toward zero *)
Definition Rtrunc (r : R) : Z :=
  if Rleb 0 r then Zfloor r else Z.opp (Zfloor (- r)).

Definition xto_int (a : xreal) : result Z :=
  match a with
  | Fin r => Ok (Rtrunc r)
  | NaN => Raise (ValueError "cannot convert float NaN to integer")
  | PInf | NInf =>
      Raise (OverflowError "cannot convert float infinity to integer")
  end.

Definition xis_finite (a : xreal) : bool :=
  match a with Fin _ => true | _ => false end.

#[export] Instance xreal_scalar : Scalar xreal := {
  fadd := xadd; fsub := xsub; fmul := xmul; fdiv := xdiv;
  fneg := xneg; fabs := xabs; fsqrt := xsqrt;
  feqb := xeqb; fltb := xltb; fleb := xleb;
  of_Z := fun z => Fin (IZR z);
  to_int := xto_int;
  is_finite := xis_finite
}.

#[export] Instance xreal_log : ScalarLog xreal := { flog := xlog }.

(** An array of finite reals *)
Definition real_array (s : list nat) (l : list R) : ndarray xreal :=
  mk_array s (map Fin l).

(** Real-valued readings of the statistics of a list of finite values *)
Definition rsum (l : list R) : R := fold_right Rplus 0 l.
Definition rmean (l : list R) : R := rsum l / INR (length l).
Definition sq_dev (l : list R) : R :=
  rsum (map (fun v => (v - rmean l) * (v - rmean l)) l).
Definition cross_dev (l m : list R) : R :=
  rsum (map2 (fun a b => (a - rmean l) * (b - rmean m)) l m).

Definition non_constant (l : list R) : Prop :=
  exists a b, In a l /\ In b l /\ a <> b.

(** The outer edges of a histogram over finite values *)
Definition real_edges (l : list R) : R * R :=
  match l with
  | [] => (0, 1)
  | _ :: _ =>
      let lo := MinRlist l in
      let hi := MaxRlist l in
      if Req_dec_T lo hi then (lo - 1 / 2, hi + 1 / 2) else (lo, hi)
  end.

(** The data range in the words of the specification:
    [max(x_ref) - min(min(x), min(x_ref))], truncated to an integer *)
Definition range_of_words (x x_ref : list R) : Z :=
  Rtrunc (MaxRlist x_ref - Rmin (MinRlist x) (MinRlist x_ref)).

(** The probabilities of the bins, from their counts *)
Definition real_probabilities (h : list Z) : list R :=
  map (fun c => IZR c / IZR (sum_Z h)) h.

(** The entropy in the words of the specification: minus the sum of
    [p * ln p] over the bins, a bin of probability 0 contributing 0 *)
Definition entropy_of_words (ps : list R) : R :=
  - rsum (map (fun p => if Req_dec_T p 0 then 0 else p * ln p) ps).

(** The edges of [n] equal bins from [lo] to [hi] *)
Definition real_linspace (lo hi : R) (n : nat) : list R :=
  map (fun i => INR i * ((hi - lo) / INR n) + lo) (seq 0 n) ++ [hi].

(** The mean absolute difference and the mean absolute value of finite
    values *)
Definition mean_abs_diff (l m : list R) : R :=
  rmean (map2 (fun a b => Rabs (a - b)) l m).

Definition mean_abs (l : list R) : R := rmean (map Rabs l).

(** The sum of the absolute differences *)
Definition sum_abs_diff (l m : list R) : R :=
  rsum (map2 (fun a b => Rabs (a - b)) l m).

(** One term of the entropy: [p ln p], 0 for an empty bin *)
Definition plogp (p : R) : R := if Req_dec_T p 0 then 0 else p * ln p.

(** The edges of the [n] bins of a list of finite values *)
Definition bin_edges (l : list R) (n : nat) : list xreal :=
  map Fin (real_linspace (fst (real_edges l)) (snd (real_edges l)) n).

End XReal.

(** ** Second interpretation: IEEE binary64 *)

Module B64.

Local Open Scope float_scope.

(** [float(z)]: the integer rounded to the nearest binary64 number, ties
    to even.  From 2^1024 on the result here is an infinity, where Python
    raises [OverflowError]; the counts and the truncated ranges the metrics
    convert are below that. *)
Definition float_of_Z (z : Z) : float :=
  SF2Prim (binary_normalize prec emax z 0 false).

Definition float_to_int (f : float) : result Z :=
  match Prim2SF f with
  | S754_nan => Raise (ValueError "cannot convert float NaN to integer")
  | S754_infinity _ =>
      Raise (OverflowError "cannot convert float infinity to integer")
  | S754_zero _ => Ok 0%Z
  | S754_finite s m e =>
      let v := if (0 <=? e)%Z then (Zpos m * 2 ^ e)%Z
               else (Zpos m / 2 ^ (- e))%Z in
      Ok (if s then (- v)%Z else v)
  end.

#[export] Instance float_scalar : Scalar float := {
  fadd := PrimFloat.add; fsub := PrimFloat.sub;
  fmul := PrimFloat.mul; fdiv := PrimFloat.div;
  fneg := PrimFloat.opp; fabs := PrimFloat.abs; fsqrt := PrimFloat.sqrt;
  feqb := PrimFloat.eqb; fltb := PrimFloat.ltb; fleb := PrimFloat.leb;
  of_Z := float_of_Z;
  to_int := float_to_int;
  is_finite := PrimFloat.is_finite
}.

End B64.

(** ** The routines of scikit-image

    [psnr] and [ssim] call [skimage.metrics]; the theorems take the two
    routines as parameters.  Where an example needs a concrete routine:
    [sample_psnr] follows [peak_signal_noise_ratio] up to the logarithm,
    which binary64 lacks here, and returns the ratio [data_range^2 / mse];
    [structural_similarity_full] is
    [structural_similarity(im1, im2, data_range=R, full=True)] with its
    defaults: a uniform window of 7 elements along every axis and the
    sample covariance. *)

Section Samples.

Context {F : Type} {SF : Scalar F}.

Definition shape_check (a b : ndarray F) : result unit :=
  if shape_eqb (shape a) (shape b) then Ok tt
  else Raise (ValueError "Input images must have the same dimensions.").

Definition sample_psnr (a b : ndarray F) (data_range : F) : result F :=
  _ <- shape_check a b ;;
  let d := map2 fsub (data a) (data b) in
  let mse := np_mean (map (fun v => fmul v v) d) in
  Ok (fdiv (fmul data_range data_range) mse).

Definition win_size : nat := 7.

(** The radius of the window, [win_size // 2] and [(win_size - 1) // 2] *)
Definition pad : nat := 3.

Definition win : F := of_Z (Z.of_nat win_size).

(** A line extended by [pad] elements on each side in the mode [reflect],
    [c b a | a b c ... x y z | z y x].  The lines have [win_size] elements
    at least. *)
Definition reflect_line (l : list F) : list F :=
  rev (firstn pad l) ++ l ++ firstn pad (rev l).

(** The loop of [scipy.ndimage.uniform_filter1d]: each mean is the one
    before plus the difference of the element that enters the window and
    the element that leaves it, divided by the size of the window. *)
Fixpoint running_mean (tmp : F) (leaving entering : list F) : list F :=
  match leaving, entering with
  | o :: leaving', n :: entering' =>
      let tmp' := fadd tmp (fdiv (fsub n o) win) in
      tmp' :: running_mean tmp' leaving' entering'
  | _, _ => []
  end.

(** [uniform_filter1d(line, size=7)]: the first mean is the sum of the
    first seven elements of the extended line, divided by 7. *)
Definition uniform_filter1d (l : list F) : list F :=
  let e := reflect_line l in
  let tmp := fdiv (fold_left fadd (firstn win_size e) fzero) win in
  tmp :: running_mean tmp e (skipn win_size e).

(** The filter along the axis [k] of an array of shape [s], whose elements
    [d] are in row-major order: the element [j] of a line is [inner]
    places after the element [j - 1], where [inner] is the product of the
    dimensions after [k]. *)
Definition filter_axis (s : list nat) (k : nat) (d : list F) : list F :=
  let n := nth k s 0%nat in
  let inner := prod_shape (skipn (S k) s) in
  let line q :=
    map (fun j => nth (((q / inner) * n + j) * inner + q mod inner) d fzero)
        (seq 0 n) in
  let lines := map (fun q => uniform_filter1d (line q))
                   (seq 0 (length d / n)) in
  map (fun i => nth ((i / inner) mod n)
                    (nth ((i / (inner * n)) * inner + i mod inner) lines [])
                    fzero)
      (seq 0 (length d)).

(** [scipy.ndimage.uniform_filter(a, size=7)]: one axis after the other,
    from the first one. *)
Definition uniform_filter (s : list nat) (d : list F) : list F :=
  fold_left (fun acc k => filter_axis s k acc) (seq 0 (length s)) d.

(** [crop(S, pad)]: the elements [pad] places at least from both ends of
    every axis. *)
Definition interior (s : list nat) (i : nat) : bool :=
  forallb (fun k =>
             let n := nth k s 0%nat in
             let c := ((i / prod_shape (skipn (S k) s)) mod n)%nat in
             (pad <=? c)%nat && (c + pad <? n)%nat)
          (seq 0 (length s)).

Definition crop (s : list nat) (d : list F) : list F :=
  map (fun i => nth i d fzero) (filter (interior s) (seq 0 (length d))).

Definition K1 : F := fdiv (of_Z 1) (of_Z 100).
Definition K2 : F := fdiv (of_Z 3) (of_Z 100).

Definition square_of (v : F) : F := fmul v v.

(** The pair [(mssim, S)].  The shapes are compared first, then the sides
    with the window.  For an array without axes the window holds
    [7 ** 0 = 1] element and [NP / (NP - 1)] divides by zero. *)
Definition structural_similarity_full (im1 im2 : ndarray F) (data_range : F)
  : result (F * ndarray F) :=
  _ <- shape_check im1 im2 ;;
  let s := shape im1 in
  if existsb (fun n => (n <? win_size)%nat) s then
    Raise (ValueError "win_size exceeds image extent.")
  else
    let NP := (Z.of_nat win_size ^ Z.of_nat (length s))%Z in
    if (NP - 1 =? 0)%Z then Raise (ZeroDivisionError "division by zero")
    else
      let cov_norm := fdiv (of_Z NP) (of_Z (NP - 1)) in
      let x := data im1 in
      let y := data im2 in
      let ux := uniform_filter s x in
      let uy := uniform_filter s y in
      let uxx := uniform_filter s (map2 fmul x x) in
      let uyy := uniform_filter s (map2 fmul y y) in
      let uxy := uniform_filter s (map2 fmul x y) in
      let vx := map (fmul cov_norm) (map2 fsub uxx (map2 fmul ux ux)) in
      let vy := map (fmul cov_norm) (map2 fsub uyy (map2 fmul uy uy)) in
      let vxy := map (fmul cov_norm) (map2 fsub uxy (map2 fmul ux uy)) in
      let C1 := square_of (fmul K1 data_range) in
      let C2 := square_of (fmul K2 data_range) in
      let A1 := map (fun v => fadd v C1)
                    (map2 fmul (map (fmul (of_Z 2)) ux) uy) in
      let A2 := map (fun v => fadd (fmul (of_Z 2) v) C2) vxy in
      let B1 := map (fun v => fadd v C1)
                    (map2 fadd (map square_of ux) (map square_of uy)) in
      let B2 := map (fun v => fadd v C2) (map2 fadd vx vy) in
      let D := map2 fmul B1 B2 in
      let S := map2 fdiv (map2 fmul A1 A2) D in
      Ok (np_mean (crop s S), mk_array s S).

End Samples.

(** ** The formulas of the specification

    Written from the words of the specification, index by index, to be
    compared with what the code computes. *)

Section Formulas.

Context {F : Type} {SF : Scalar F}.

(** The sum of [f 0], ..., [f (n - 1)] *)
Definition sum_upto (n : nat) (f : nat -> F) : F :=
  fold_left fadd (map f (seq 0 n)) fzero.

Definition elem (l : list F) (i : nat) : F := nth i l fzero.

Definition count_of (l : list F) : F := of_Z (Z.of_nat (length l)).

Definition mean_of (l : list F) : F :=
  fdiv (sum_upto (length l) (elem l)) (count_of l).

Definition centered (l : list F) (i : nat) : F := fsub (elem l i) (mean_of l).

(** Sample standard deviation, with the unbiased denominator [N - 1] *)
Definition sample_std (l : list F) : F :=
  fsqrt (fdiv (sum_upto (length l)
                 (fun i => fmul (centered l i) (centered l i)))
              (of_Z (Z.of_nat (length l) - 1))).

(** The sum of the products of the mean-centered arrays, divided by the
    product of the element count and the two sample standard deviations *)
Definition ncc_formula (x x_ref : list F) : F :=
  fdiv (sum_upto (length x) (fun i => fmul (centered x i) (centered x_ref i)))
       (fmul (fmul (count_of x) (sample_std x)) (sample_std x_ref)).

(** The square table with the counts [h] on its diagonal and zero
    elsewhere, row by row: the joint histogram of an array with itself *)
Definition diagonal (h : list Z) : list Z :=
  flat_map (fun i => map (fun j => if (i =? j)%nat then nth i h 0%Z else 0%Z)
                         (seq 0 (length h)))
           (seq 0 (length h)).

(** The mean of the map [s] over the positions where the mask is above
    zero *)
Definition masked_mean (s mask : list F) : F :=
  let kept := filter (fun i => fltb fzero (elem mask i)) (seq 0 (length s)) in
  fdiv (fold_left fadd (map (elem s) kept) fzero)
       (of_Z (Z.of_nat (length kept))).

(** The count of the cell [(i, j)] of a joint histogram, and what it is
    for a value to fall in one of the [n] bins *)
Definition joint_count (ex ey : list F) (n i j : nat) (ps : list (F * F))
  : Z :=
  Z.of_nat (count (fun p => in_bin ex n i (fst p) && in_bin ey n j (snd p))
                  ps).

Definition has_bin (edges : list F) (n : nat) (v : F) : Prop :=
  exists j, bin_of edges n v = Some j /\ (j < n)%nat.

(** The same over the positions where the mask is not zero *)
Definition nonzero_masked_mean (s mask : list F) : F :=
  let kept := filter (fun i => fneqb (elem mask i) fzero) (seq 0 (length s)) in
  fdiv (fold_left fadd (map (elem s) kept) fzero)
       (of_Z (Z.of_nat (length kept))).

End Formulas.

(** ** Sample arrays *)

Module Data.

Import B64.
Local Open Scope float_scope.

Definition row4 : ndarray float := mk_array [4%nat] [1; 2; 3; 4].
Definition row4' : ndarray float := mk_array [4%nat] [1; 2; 3; 6].
Definition square : ndarray float := mk_array [2%nat; 2%nat] [1; 2; 3; 4].
Definition column : ndarray float := mk_array [2%nat; 1%nat] [1; 2].
Definition line : ndarray float := mk_array [1%nat; 2%nat] [10; 20].
Definition mask4 : ndarray float := mk_array [4%nat] [0; 1; 0; 1].
Definition signed_mask4 : ndarray float := mk_array [4%nat] [-1; 1; 0; 1].
Definition row8 : ndarray float :=
  mk_array [8%nat] [1; 2; 3; 4; 5; 6; 7; 8].
Definition row8' : ndarray float :=
  mk_array [8%nat] [1; 2; 3; 4; 5; 6; 7; 9].
Definition ones8 : ndarray float :=
  mk_array [8%nat] [1; 1; 1; 1; 1; 1; 1; 1].
Definition mask8 : ndarray float :=
  mk_array [8%nat] [0; 1; 0; 1; 1; 0; 0; 2].
Definition negative_mask8 : ndarray float :=
  mk_array [8%nat] [-1; 0; 0; -1; 0; 0; 0; -2].
Definition signed_mask8 : ndarray float :=
  mk_array [8%nat] [1; -1; 0; 0; 1; 0; 0; -1].

(** The binary64 numbers written 0.1 and 1e308 *)
Definition tenth : float := 0x1.999999999999ap-4.
Definition big : float := 0x1.1ccf385ebc8a0p+1023.

(** -1e308, 0 and 1e308: finite values whose range is wider than the
    largest binary64 number *)
Definition wide : ndarray float := mk_array [3%nat] [- big; 0; big].

End Data.

Module RealData.

Import XReal.
Local Open Scope R_scope.

Definition pair2 : ndarray xreal := real_array [2%nat] [1; 2].
Definition triple : ndarray xreal := real_array [3%nat] [1; 2; 3].
Definition col2 : ndarray xreal := real_array [2%nat; 1%nat] [1; 2].
Definition row2 : ndarray xreal := real_array [1%nat; 2%nat] [1; 2].
Definition ramp : ndarray xreal := real_array [4%nat] [1; 2; 3; 4].

End RealData.

(** ** Paths, and the scripts that prepare the files

    [run_docker.py] and [preprocess.py] compute file names with
    [os.path] and with slices.  A string is a list of characters here, so
    that a slice is [firstn] or [skipn]. *)

Module Posix.

Definition str : Type := list ascii.

Definition lit (s : string) : str := list_ascii_of_string s.

Definition sep : ascii := "/"%char.

Definition str_eqb (a b : str) : bool :=
  if list_eq_dec ascii_dec a b then true else false.

(** [s.startswith("/")], which is [os.path.isabs(s)] *)
Definition isabs (s : str) : bool :=
  match s with
  | c :: _ => Ascii.eqb c sep
  | [] => false
  end.

(** [s.endswith("/")] *)
Definition endswith_sep (s : str) : bool :=
  match rev s with
  | c :: _ => Ascii.eqb c sep
  | [] => false
  end.

(** [os.path.join(a, b)]: an absolute [b] replaces [a]; otherwise [b] is
    appended, after a separator unless [a] is empty or ends with one. *)
Definition join (a b : str) : str :=
  if isabs b then b
  else if match a with [] => true | _ :: _ => endswith_sep a end then a ++ b
  else a ++ sep :: b.

(** [s.rfind("/")], [None] standing for -1 *)
Fixpoint rfind_sep (s : str) : option nat :=
  match s with
  | [] => None
  | c :: r =>
      match rfind_sep r with
      | Some i => Some (S i)
      | None => if Ascii.eqb c sep then Some 0%nat else None
      end
  end.

(** [os.path.basename(p)]: [p[p.rfind("/") + 1:]] *)
Definition basename (p : str) : str :=
  skipn (match rfind_sep p with Some i => S i | None => 0%nat end) p.

(** The slices [s[:-n]] and [s[-n:]], for [n > 0] *)
Definition drop_last (n : nat) (s : str) : str := firstn (length s - n) s.
Definition take_last (n : nat) (s : str) : str := skipn (length s - n) s.

End Posix.

(** The file names of [preprocess.py] *)
Module Preprocess.

Import Posix.

(** [file_path[:-7] + "_bias" + file_path[-7:]] *)
Definition bias_path (file_path : str) : str :=
  drop_last 7 file_path ++ lit "_bias" ++ take_last 7 file_path.

(** The files [correct_bias_field] writes: the corrected image, the bias
    field and the mask.  [crop_input] names its two files as [output] and
    [output_mask]. *)
Definition output (dir_output file_path : str) : str :=
  join dir_output (basename file_path).

Definition output_bias (dir_output file_path : str) : str :=
  join dir_output (basename (bias_path file_path)).

Definition output_mask (dir_output mask_path : str) : str :=
  join dir_output (basename mask_path).

End Preprocess.

(** The checks of [run_docker.py] *)
Module RunDocker.

Import Posix.

(** What a check raises *)
Inductive raised : Type :=
| ValueError (msg : str)
| KeyError (key : str).

Definition newline : ascii := ascii_of_nat 10.

(** A [dict] with string keys, in insertion order *)
Definition dict (V : Type) : Type := list (str * V).

Fixpoint lookup {V : Type} (k : str) (d : dict V) : option V :=
  match d with
  | [] => None
  | (k', v) :: rest => if str_eqb k k' then Some v else lookup k rest
  end.

(** [v != d] on values that are a string or [None] *)
Definition differs (v d : option str) : bool :=
  match v, d with
  | None, None => false
  | Some a, Some b => negb (str_eqb a b)
  | _, _ => true
  end.

Section FixedArgs.

(** [definitions.BRAIN_CKPT], the path of the default checkpoint *)
Variable BRAIN_CKPT : option str.

Definition defaults_dict : dict (option str) :=
  [(lit "ckpt_path", BRAIN_CKPT); (lit "custom_model", None)].

(** Only the first line of the message is an f-string: the braces of the
    second one are printed as they are. *)
Definition fixed_message (k : str) : str :=
  lit "Argument " ++ k
  ++ lit " cannot be changed yet using the run_docker script. "
  ++ [newline]
  ++ lit "It is fixed to {defaults_dict[k]}, but was passed as {v}.".

(** [None] when the function returns, the exception otherwise *)
Fixpoint check_fixed_args (fixed_args : dict (option str)) : option raised :=
  match fixed_args with
  | [] => None
  | (k, v) :: rest =>
      match lookup k defaults_dict with
      | None => Some (KeyError k)
      | Some d =>
          if differs v d then Some (ValueError (fixed_message k))
          else check_fixed_args rest
      end
  end.

End FixedArgs.

Definition path_message (k path : str) : str :=
  lit "Output paths should be relative to the out_dir, but the argument "
  ++ k ++ lit " was set to " ++ path ++ lit ".".

Fixpoint check_paths (out_dict : dict str) : option raised :=
  match out_dict with
  | [] => None
  | (k, path) :: rest =>
      if isabs path then Some (ValueError (path_message k path))
      else check_paths rest
  end.

(** [out_docker] and the paths [run_reports] and [run_inference] hand to
    the container: [os.path.join(out_docker, path)] *)
Definition out_docker : str := lit "/data/out".

Definition docker_path (path : str) : str := join out_docker path.

End RunDocker.

(** * Properties *)

(** ** The default data range *)

Section DataRange.

Context {F : Type} {SF : Scalar F}.
Variable peak_signal_noise_ratio : ndarray F -> ndarray F -> F -> result F.
Variable structural_similarity :
  ndarray F -> ndarray F -> F -> result (F * ndarray F).




End DataRange.

(** ** Lists by index *)

Section ListFacts.

Variables A B C : Type.

Lemma map_by_index (g : A -> B) (d : A) (l : list A) :
  map g l = map (fun i => g (nth i l d)) (seq 0 (length l)).
Proof.
  induction l as [|a l IH]; [reflexivity|].
  cbn [length seq map nth]. f_equal.
  rewrite <- seq_shift, map_map. exact IH.
Qed.

Lemma map2_by_index (f : A -> B -> C) (da : A) (db : B) (l : list A) :
  forall m : list B, length l = length m ->
  map2 f l m = map (fun i => f (nth i l da) (nth i m db)) (seq 0 (length l)).
Proof.
  induction l as [|a l IH]; intros [|b m] Hlen; try discriminate.
  - reflexivity.
  - cbn [length seq map nth map2]. f_equal.
    rewrite <- seq_shift, map_map. apply IH. now injection Hlen.
Qed.

Lemma shape_eqb_eq (s t : list nat) : shape_eqb s t = true <-> s = t.
Proof.
  unfold shape_eqb. destruct (list_eq_dec Nat.eq_dec s t); split; congruence.
Qed.

End ListFacts.

(** ** The correlation formula, for any scalar *)

Section NccFormula.

Context {F : Type} {SF : Scalar F}.

Lemma np_sum_by_index (l : list F) : np_sum l = sum_upto (length l) (elem l).
Proof.
  unfold np_sum, sum_upto, elem.
  rewrite <- (map_by_index (fun v => v) fzero l), map_id. reflexivity.
Qed.

Lemma np_mean_by_index (l : list F) : np_mean l = mean_of l.
Proof. unfold np_mean, mean_of, count_of. now rewrite np_sum_by_index. Qed.

Lemma np_std_sample (l : list F) :
  l <> [] -> np_std 1 l = sample_std l.
Proof.
  intros Hl. unfold np_std, sample_std.
  rewrite map_map, np_mean_by_index.
  replace (Z.of_nat (length l - 1)) with (Z.of_nat (length l) - 1)%Z
    by (destruct l; [congruence | cbn [length]; lia]).
  do 2 f_equal. unfold np_sum, sum_upto.
  now rewrite (map_by_index _ fzero l).
Qed.

Lemma centered_products (x y : list F) :
  length x = length y ->
  np_sum (map2 fmul (map (fun v => fsub v (np_mean x)) x)
                    (map (fun v => fsub v (np_mean y)) y))
  = sum_upto (length x) (fun i => fmul (centered x i) (centered y i)).
Proof.
  intros Hlen. unfold np_sum, sum_upto.
  rewrite (map2_by_index fmul fzero fzero) by (now rewrite !length_map).
  rewrite length_map. f_equal. apply map_ext_in. intros i Hi.
  apply in_seq in Hi. unfold centered, elem. rewrite !np_mean_by_index.
  rewrite (nth_indep _ fzero (fsub fzero (mean_of x)))
    by (rewrite length_map; lia).
  rewrite (nth_indep (map _ y) fzero (fsub fzero (mean_of y)))
    by (rewrite length_map; lia).
  now rewrite !(map_nth (fun v => fsub v _)).
Qed.

Lemma ncc_is_formula_nonempty (x x_ref : ndarray F) :
  shape x = shape x_ref ->
  length (data x) = length (data x_ref) ->
  data x <> [] ->
  normalized_cross_correlation x x_ref
  = Ok (ncc_formula (data x) (data x_ref)).
Proof.
  intros Hs Hlen Hne.
  assert (Hne' : data x_ref <> [])
    by (destruct (data x_ref); [destruct (data x); [congruence|discriminate]
                               | discriminate]).
  unfold normalized_cross_correlation, elementwise, array_map.
  cbn [shape data]. rewrite Hs.
  replace (shape_eqb (shape x_ref) (shape x_ref)) with true
    by (symmetry; now apply shape_eqb_eq).
  cbn [negb bind data]. unfold ncc_formula, size, count_of.
  now rewrite centered_products, !np_std_sample.
Qed.

End NccFormula.

(** ** The correlation of finite values *)

Module XRealFacts.

Import XReal.
Local Open Scope R_scope.

Ltac case_reals :=
  repeat match goal with
    | |- context [Req_dec_T ?a ?b] => destruct (Req_dec_T a b)
    | |- context [Rlt_dec ?a ?b] => destruct (Rlt_dec a b)
    | |- context [Rle_dec ?a ?b] => destruct (Rle_dec a b)
    end.

Lemma well_formed_same_length (x y : ndarray xreal) :
  well_formed x -> well_formed y -> shape x = shape y ->
  length (data x) = length (data y).
Proof. unfold well_formed. intros Hx Hy Hs. now rewrite Hx, Hy, Hs. Qed.

Lemma Reqb_true (a b : R) : a = b -> Reqb a b = true.
Proof. intros H. unfold Reqb. now destruct (Req_dec_T a b). Qed.

Lemma Reqb_false (a b : R) : a <> b -> Reqb a b = false.
Proof. intros H. unfold Reqb. now destruct (Req_dec_T a b). Qed.

Lemma Rltb_true (a b : R) : a < b -> Rltb a b = true.
Proof. intros H. unfold Rltb. now destruct (Rlt_dec a b). Qed.

Lemma Rltb_false (a b : R) : ~ a < b -> Rltb a b = false.
Proof. intros H. unfold Rltb. now destruct (Rlt_dec a b). Qed.

Lemma Rleb_true (a b : R) : a <= b -> Rleb a b = true.
Proof. intros H. unfold Rleb. now destruct (Rle_dec a b). Qed.

Lemma Rleb_false (a b : R) : ~ a <= b -> Rleb a b = false.
Proof. intros H. unfold Rleb. now destruct (Rle_dec a b). Qed.

Lemma xdiv_fin (a b : R) : b <> 0 -> xdiv (Fin a) (Fin b) = Fin (a / b).
Proof. intros H. cbn. now rewrite Reqb_false. Qed.

Lemma xsqrt_fin (a : R) : 0 <= a -> xsqrt (Fin a) = Fin (R_sqrt.sqrt a).
Proof. intros H. cbn. rewrite Rltb_false; [reflexivity | lra]. Qed.

Lemma fold_xadd_fin (l : list R) :
  forall a, fold_left xadd (map Fin l) (Fin a) = Fin (a + rsum l).
Proof.
  induction l as [|v l IH]; intros a.
  - cbn. f_equal. lra.
  - cbn [map fold_left xadd]. rewrite IH.
    change (rsum (v :: l)) with (v + rsum l). f_equal. lra.
Qed.

Lemma np_sum_fin (l : list R) : np_sum (map Fin l) = Fin (rsum l).
Proof.
  unfold np_sum, fzero. cbn [of_Z xreal_scalar fadd].
  rewrite fold_xadd_fin. f_equal. lra.
Qed.

Lemma count_fin (n : nat) : @of_Z xreal _ (Z.of_nat n) = Fin (INR n).
Proof. cbn. now rewrite INR_IZR_INZ. Qed.

Lemma np_mean_fin (l : list R) :
  l <> [] -> np_mean (map Fin l) = Fin (rmean l).
Proof.
  intros Hl. unfold np_mean. rewrite np_sum_fin, length_map, count_fin.
  cbn [fdiv xreal_scalar]. apply xdiv_fin.
  apply not_0_INR. destruct l; [congruence | discriminate].
Qed.

Lemma rsum_nonneg (l : list R) : Forall (fun v => 0 <= v) l -> 0 <= rsum l.
Proof.
  induction 1 as [|v l Hv _ IH]; [cbn; lra|].
  change (rsum (v :: l)) with (v + rsum l). lra.
Qed.

Lemma sq_dev_nonneg (l : list R) : 0 <= sq_dev l.
Proof.
  unfold sq_dev. apply rsum_nonneg. apply Forall_forall.
  intros v Hv. apply in_map_iff in Hv. destruct Hv as [w [<- _]].
  apply (Rle_0_sqr (w - rmean l)).
Qed.

Lemma np_std_fin (l : list R) :
  (2 <= length l)%nat ->
  np_std 1 (map Fin l)
  = Fin (R_sqrt.sqrt (sq_dev l / INR (length l - 1))).
Proof.
  intros Hl. unfold np_std.
  rewrite np_mean_fin by (destruct l; [cbn in Hl; lia | discriminate]).
  rewrite !map_map. cbn [fsub fmul xreal_scalar xsub xneg xadd xmul].
  rewrite <- (map_map (fun v => (v + - rmean l) * (v + - rmean l)) Fin).
  rewrite np_sum_fin, length_map, count_fin.
  assert (HN : 0 < INR (length l - 1)) by (apply lt_0_INR; lia).
  cbn [fdiv fsqrt xreal_scalar]. rewrite xdiv_fin by lra.
  assert (Hsq : rsum (map (fun v => (v + - rmean l) * (v + - rmean l)) l)
                = sq_dev l).
  { unfold sq_dev. f_equal. }
  rewrite Hsq. apply xsqrt_fin.
  apply Rmult_le_pos; [apply sq_dev_nonneg | left; now apply Rinv_0_lt_compat].
Qed.

Lemma centered_products_fin (c d : R) (l : list R) :
  forall m,
  map2 xmul (map (fun v => xsub v (Fin c)) (map Fin l))
            (map (fun v => xsub v (Fin d)) (map Fin m))
  = map Fin (map2 (fun a b => (a - c) * (b - d)) l m).
Proof.
  induction l as [|a l IH]; intros [|b m]; try reflexivity.
  cbn [map map2]. rewrite IH. reflexivity.
Qed.

Lemma ncc_fin (s : list nat) (l m : list R) :
  length l = length m -> (2 <= length l)%nat ->
  normalized_cross_correlation (real_array s l) (real_array s m)
  = Ok (xdiv (Fin (cross_dev l m))
          (Fin (INR (length l)
                * R_sqrt.sqrt (sq_dev l / INR (length l - 1))
                * R_sqrt.sqrt (sq_dev m / INR (length m - 1))))).
Proof.
  intros Hlen Hl.
  assert (Hl0 : l <> []) by (destruct l; [cbn in Hl; lia | discriminate]).
  assert (Hm0 : m <> []) by (destruct m; [cbn in Hlen; lia | discriminate]).
  unfold normalized_cross_correlation, elementwise, array_map, real_array.
  cbn [shape data size].
  replace (shape_eqb s s) with true by (symmetry; now apply shape_eqb_eq).
  cbn [negb bind data].
  rewrite !np_mean_fin by assumption.
  cbn [fsub fmul xreal_scalar].
  rewrite centered_products_fin, np_sum_fin.
  rewrite !np_std_fin by lia.
  unfold size. cbn [data]. rewrite length_map, count_fin. reflexivity.
Qed.

Lemma rsum_zero (l : list R) :
  Forall (fun v => 0 <= v) l -> rsum l = 0 -> Forall (fun v => v = 0) l.
Proof.
  induction 1 as [|v l Hv Hl IH]; intros Hs; [constructor|].
  change (rsum (v :: l)) with (v + rsum l) in Hs.
  pose proof (rsum_nonneg Hl).
  constructor; [lra | apply IH; lra].
Qed.

Lemma sq_dev_zero (l : list R) (a : R) :
  sq_dev l = 0 -> In a l -> a = rmean l.
Proof.
  intros Hs Ha. unfold sq_dev in Hs. apply rsum_zero in Hs.
  - rewrite Forall_forall in Hs.
    specialize (Hs ((a - rmean l) * (a - rmean l))).
    assert (Hz : (a - rmean l) * (a - rmean l) = 0).
    { apply Hs. apply in_map_iff. now exists a. }
    apply Rmult_integral in Hz. lra.
  - apply Forall_forall. intros v Hv. apply in_map_iff in Hv.
    destruct Hv as [w [<- _]]. apply (Rle_0_sqr (w - rmean l)).
Qed.

Lemma non_constant_sq_dev (l : list R) : non_constant l -> 0 < sq_dev l.
Proof.
  intros (a & b & Ha & Hb & Hab).
  destruct (Rle_lt_or_eq_dec _ _ (sq_dev_nonneg l)) as [H | H]; [exact H|].
  exfalso. apply Hab.
  now rewrite (sq_dev_zero l a), (sq_dev_zero l b).
Qed.

Lemma non_constant_length (l : list R) : non_constant l -> (2 <= length l)%nat.
Proof.
  intros (a & b & Ha & Hb & Hab).
  destruct l as [|v [|w l]]; cbn in *; try lia; try tauto.
  destruct Ha as [<- | []], Hb as [<- | []]. congruence.
Qed.

Lemma cross_dev_self (l : list R) : cross_dev l l = sq_dev l.
Proof.
  unfold cross_dev, sq_dev. f_equal. generalize (rmean l). intros c.
  induction l as [|a l IH]; [reflexivity|]. cbn [map map2]. now rewrite IH.
Qed.

Lemma rsum_opp (l : list R) : rsum (map Ropp l) = - rsum l.
Proof.
  induction l as [|a l IH]; [cbn; lra|].
  cbn [map]. change (rsum (?x :: ?y)) with (x + rsum y). lra.
Qed.

Lemma rmean_opp (l : list R) : rmean (map Ropp l) = - rmean l.
Proof. unfold rmean. rewrite rsum_opp, length_map. unfold Rdiv. lra. Qed.

Lemma sq_dev_opp (l : list R) : sq_dev (map Ropp l) = sq_dev l.
Proof.
  unfold sq_dev. rewrite rmean_opp, map_map. f_equal.
  apply map_ext. intros a. lra.
Qed.

Lemma cross_dev_opp (l : list R) : cross_dev l (map Ropp l) = - sq_dev l.
Proof.
  unfold cross_dev, sq_dev. rewrite rmean_opp. generalize (rmean l).
  intros c. induction l as [|a l IH]; [cbn; lra|].
  cbn [map map2]. change (rsum (?x :: ?y)) with (x + rsum y).
  rewrite IH. lra.
Qed.

Lemma ncc_ratio (n q : R) :
  1 < n -> 0 < q ->
  q / (n * R_sqrt.sqrt (q / (n - 1)) * R_sqrt.sqrt (q / (n - 1)))
  = (n - 1) / n.
Proof.
  intros Hn Hq.
  assert (Hpos : 0 < q / (n - 1)) by (apply Rdiv_lt_0_compat; lra).
  rewrite Rmult_assoc, sqrt_sqrt by lra. field. lra.
Qed.

(** C3, as the code has it: the correlation of a non-constant array of [N]
    finite values with itself is [(N - 1) / N], and with its negation
    [- (N - 1) / N]: the sum of squared deviations is divided by [N] times
    the unbiased variance. *)
Theorem ncc_self_correlation (s : list nat) (l : list R) :
  non_constant l ->
  let n := INR (length l) in
  normalized_cross_correlation (real_array s l) (real_array s l)
  = Ok (Fin ((n - 1) / n))
  /\ normalized_cross_correlation (real_array s l)
       (array_map fneg (real_array s l))
     = Ok (Fin (- ((n - 1) / n))).
Proof.
  intros Hnc n.
  pose proof (non_constant_length Hnc) as Hlen.
  pose proof (non_constant_sq_dev Hnc) as Hq.
  assert (Hn : 1 < n) by (unfold n; apply (lt_INR 1); lia).
  assert (Hn1 : INR (length l - 1) = n - 1)
    by (unfold n; rewrite minus_INR by lia; reflexivity).
  assert (Hden : n * R_sqrt.sqrt (sq_dev l / (n - 1))
                 * R_sqrt.sqrt (sq_dev l / (n - 1)) <> 0).
  { assert (Hpos : 0 < sq_dev l / (n - 1)) by (apply Rdiv_lt_0_compat; lra).
    rewrite Rmult_assoc, sqrt_sqrt by lra. nra. }
  split.
  - rewrite ncc_fin by (reflexivity || lia).
    rewrite Hn1, cross_dev_self. fold n.
    rewrite xdiv_fin by exact Hden. now rewrite ncc_ratio.
  - unfold array_map, real_array. cbn [shape data fneg xreal_scalar].
    rewrite map_map. cbn [xneg]. rewrite <- (map_map Ropp Fin).
    change (mk_array s (map Fin ?x)) with (real_array s x).
    rewrite ncc_fin by (rewrite ?length_map; reflexivity || lia).
    rewrite length_map, sq_dev_opp, Hn1, cross_dev_opp. fold n.
    rewrite xdiv_fin by exact Hden.
    f_equal. f_equal. rewrite <- (ncc_ratio Hn Hq). field.
    split; [| lra].
    intros Hz. apply Hden. rewrite Rmult_assoc, Hz. lra.
Qed.

(** C1: on equal-shaped arrays the code returns the sum of the products of
    the mean-centered arrays divided by the product of the element count and
    the two sample standard deviations (denominator [N - 1]). *)
Theorem ncc_matches_formula (x x_ref : ndarray xreal) :
  well_formed x -> well_formed x_ref -> shape x = shape x_ref ->
  normalized_cross_correlation x x_ref
  = Ok (ncc_formula (data x) (data x_ref)).
Proof.
  intros Hx Hr Hs.
  pose proof (well_formed_same_length Hx Hr Hs) as Hlen.
  destruct (data x) as [|v l] eqn:Hd.
  - destruct (data x_ref) as [|w m] eqn:Hd'; [|discriminate].
    unfold normalized_cross_correlation, elementwise, array_map, size.
    cbn [shape data]. rewrite Hs.
    replace (shape_eqb (shape x_ref) (shape x_ref)) with true
      by (symmetry; now apply shape_eqb_eq).
    rewrite Hd, Hd'.
    cbv -[Rplus Rmult Rinv Ropp IZR R_sqrt.sqrt Req_dec_T Rlt_dec Rle_dec].
    case_reals; try lra; reflexivity.
  - rewrite <- Hd. apply ncc_is_formula_nonempty; try assumption.
    + now rewrite Hd.
    + rewrite Hd. discriminate.
Qed.

End XRealFacts.

(** ** Arrays of different shapes *)

Section ShapeMismatch.

Context {F : Type} {SF : Scalar F} {LF : ScalarLog F}.
Variable structural_similarity :
  ndarray F -> ndarray F -> F -> result (F * ndarray F).

Lemma shape_eqb_neq (s t : list nat) : s <> t -> shape_eqb s t = false.
Proof.
  intros H. unfold shape_eqb. now destruct (list_eq_dec Nat.eq_dec s t).
Qed.

Lemma ncc_shape_mismatch (x x_ref : ndarray F) :
  shape x <> shape x_ref ->
  normalized_cross_correlation x x_ref
  = Raise (ValueError "Input data shapes do not match").
Proof.
  intros H. unfold normalized_cross_correlation.
  now rewrite (shape_eqb_neq H).
Qed.

Lemma histogram2d_length_mismatch (x y : list F) (bins : Z) :
  length x <> length y ->
  np_histogram2d x y bins
  = Raise (ValueError "x and y must have the same length.").
Proof.
  intros H. unfold np_histogram2d.
  now apply Nat.eqb_neq in H as ->.
Qed.

Lemma outer_edges_value_error (l : list F) :
  is_ok (outer_edges l) = true \/ is_value_error (outer_edges l) = true.
Proof.
  unfold outer_edges.
  destruct l as [|v l];
    match goal with
    | |- context [negb ?b] => destruct b
    end; cbn [negb];
    try (now right);
    match goal with
    | |- context [feqb ?a ?b] => destruct (feqb a b)
    end; now left.
Qed.

(** [shannon_entropy] fails with a [ValueError] (the number of bins, a
    range that is not finite) or with the [IndexError] of a range whose
    width overflows or rounds to zero. *)
Lemma shannon_entropy_failures (x : ndarray F) (bins : Z) :
  is_ok (shannon_entropy x bins) = true
  \/ is_value_error (shannon_entropy x bins) = true
  \/ is_index_error (shannon_entropy x bins) = true.
Proof.
  unfold shannon_entropy, np_histogram.
  destruct (bins <? 1)%Z; [right; now left|].
  destruct (outer_edges_value_error (data x)) as [H | H];
    destruct (outer_edges (data x)) as [[lo hi]|e]; try discriminate.
  - cbn [bind]. destruct (width_divides lo hi); cbn [negb bind];
      [now left | right; now right].
  - right. now left.
Qed.

Lemma joint_entropy_length_mismatch (x x_ref : ndarray F) (bins : Z) :
  size x <> size x_ref ->
  joint_entropy x x_ref bins
  = Raise (ValueError "x and y must have the same length.").
Proof.
  intros H. unfold joint_entropy.
  now rewrite histogram2d_length_mismatch.
Qed.

(** With different numbers of elements the two measures built on the
    entropies never return: the joint entropy raises when it is reached,
    and it is reached when both entropies have returned. *)
Lemma mutual_information_length_mismatch (x x_ref : ndarray F) (bins : Z) :
  size x <> size x_ref ->
  is_ok (mutual_information x x_ref bins) = false
  /\ is_ok (normalized_mutual_information x x_ref bins) = false
  /\ (is_ok (shannon_entropy x bins) = true ->
      is_ok (shannon_entropy x_ref bins) = true ->
      mutual_information x x_ref bins
      = Raise (ValueError "x and y must have the same length.")
      /\ normalized_mutual_information x x_ref bins
         = Raise (ValueError "x and y must have the same length."))
  /\ is_value_error (mutual_information x x_ref bins)
     || is_index_error (mutual_information x x_ref bins) = true
  /\ is_value_error (normalized_mutual_information x x_ref bins)
     || is_index_error (normalized_mutual_information x x_ref bins) = true.
Proof.
  intros H. unfold mutual_information, normalized_mutual_information.
  rewrite (joint_entropy_length_mismatch x x_ref bins H).
  destruct (shannon_entropy_failures x bins) as [Hx | [Hx | Hx]];
    destruct (shannon_entropy x bins) as [hx|[]]; try discriminate;
    cbn [bind]; try (repeat split; (reflexivity || discriminate)).
  destruct (shannon_entropy_failures x_ref bins) as [Hr | [Hr | Hr]];
    destruct (shannon_entropy x_ref bins) as [hr|[]]; try discriminate;
    cbn [bind]; repeat split; (reflexivity || discriminate).
Qed.

Lemma ssim_shape_mismatch (x x_ref : ndarray F) (mask : option (ndarray F))
  (datarange : option F) :
  (forall a b d, shape a <> shape b ->
                 is_ok (structural_similarity a b d) = false) ->
  shape x <> shape x_ref ->
  is_ok (ssim structural_similarity x x_ref mask datarange) = false.
Proof.
  intros Hsk Hs. unfold ssim.
  destruct (resolve_datarange x x_ref datarange) as [dr|e]; [|reflexivity].
  cbn [bind]. specialize (Hsk x_ref x dr).
  destruct (structural_similarity x_ref x dr); [|reflexivity].
  discriminate Hsk. congruence.
Qed.

(** C2, as the code has it: only [normalized_cross_correlation] checks the
    shapes itself.  [ssim] fails through the check of the routine it calls.
    The entropy metrics flatten their arguments: when the numbers of
    elements differ, [joint_entropy] raises [ValueError], and
    [mutual_information] and [normalized_mutual_information] never return:
    they raise that [ValueError] once both entropies have returned, and
    otherwise the error of the entropy that failed, a [ValueError] or the
    [IndexError] of a range whose width overflows or rounds to zero. *)
Theorem shape_mismatch_policy (x x_ref : ndarray F) (bins : Z)
  (mask : option (ndarray F)) (datarange : option F) :
  (forall a b d, shape a <> shape b ->
                 is_ok (structural_similarity a b d) = false) ->
  shape x <> shape x_ref ->
  normalized_cross_correlation x x_ref
  = Raise (ValueError "Input data shapes do not match")
  /\ is_ok (ssim structural_similarity x x_ref mask datarange) = false
  /\ (size x <> size x_ref ->
      joint_entropy x x_ref bins
      = Raise (ValueError "x and y must have the same length.")
      /\ is_ok (mutual_information x x_ref bins) = false
      /\ is_ok (normalized_mutual_information x x_ref bins) = false
      /\ (is_ok (shannon_entropy x bins) = true ->
          is_ok (shannon_entropy x_ref bins) = true ->
          mutual_information x x_ref bins
          = Raise (ValueError "x and y must have the same length.")
          /\ normalized_mutual_information x x_ref bins
             = Raise (ValueError "x and y must have the same length."))
      /\ is_value_error (mutual_information x x_ref bins)
         || is_index_error (mutual_information x x_ref bins) = true
      /\ is_value_error (normalized_mutual_information x x_ref bins)
         || is_index_error (normalized_mutual_information x x_ref bins)
         = true).
Proof.
  intros Hsk Hs. split; [now apply ncc_shape_mismatch|].
  split; [now apply ssim_shape_mismatch|].
  intros Hn. split; [now apply joint_entropy_length_mismatch|].
  now apply mutual_information_length_mismatch.
Qed.

End ShapeMismatch.

(** ** Minimum, maximum and outer edges of finite values *)

Module XRealRange.

Import XReal XRealFacts.
Local Open Scope R_scope.

Lemma np_minimum_fin (a b : R) : np_minimum (Fin a) (Fin b) = Fin (Rmin b a).
Proof.
  unfold np_minimum, is_nan. cbn [feqb fltb xreal_scalar xeqb xltb].
  rewrite !Reqb_true by reflexivity. cbn [negb].
  unfold Rltb, Rmin. destruct (Rlt_dec b a), (Rle_dec b a);
    try reflexivity; try lra. f_equal. lra.
Qed.

Lemma np_maximum_fin (a b : R) : np_maximum (Fin a) (Fin b) = Fin (Rmax a b).
Proof.
  unfold np_maximum, is_nan. cbn [feqb fltb xreal_scalar xeqb xltb].
  rewrite !Reqb_true by reflexivity. cbn [negb].
  unfold Rltb, Rmax. destruct (Rlt_dec a b), (Rle_dec a b);
    try reflexivity; try lra. f_equal. lra.
Qed.

Lemma MinRlist_cons (a b : R) (l : list R) :
  MinRlist (a :: b :: l) = Rmin a (MinRlist (b :: l)).
Proof. reflexivity. Qed.

Lemma MaxRlist_cons (a b : R) (l : list R) :
  MaxRlist (a :: b :: l) = Rmax a (MaxRlist (b :: l)).
Proof. reflexivity. Qed.

Lemma fold_minimum_fin (l : list R) :
  forall a, fold_left np_minimum (map Fin l) (Fin a)
            = Fin (MinRlist (a :: l)).
Proof.
  induction l as [|b l IH]; intros a; [reflexivity|].
  cbn [map fold_left]. rewrite np_minimum_fin, IH, MinRlist_cons.
  f_equal. destruct l as [|c l].
  - cbn. apply Rmin_comm.
  - rewrite !MinRlist_cons, (Rmin_comm b a). symmetry. apply Rmin_assoc.
Qed.

Lemma fold_maximum_fin (l : list R) :
  forall a, fold_left np_maximum (map Fin l) (Fin a)
            = Fin (MaxRlist (a :: l)).
Proof.
  induction l as [|b l IH]; intros a; [reflexivity|].
  cbn [map fold_left]. rewrite np_maximum_fin, IH, MaxRlist_cons.
  f_equal. destruct l as [|c l].
  - reflexivity.
  - rewrite !MaxRlist_cons. symmetry. apply Rmax_assoc.
Qed.

Lemma np_amin_fin (s : list nat) (l : list R) :
  l <> [] -> np_amin (real_array s l) = Ok (Fin (MinRlist l)).
Proof.
  destruct l as [|a l]; [congruence|]. intros _.
  unfold np_amin, real_array. cbn [data map].
  now rewrite fold_minimum_fin.
Qed.

Lemma np_amax_fin (s : list nat) (l : list R) :
  l <> [] -> np_amax (real_array s l) = Ok (Fin (MaxRlist l)).
Proof.
  destruct l as [|a l]; [congruence|]. intros _.
  unfold np_amax, real_array. cbn [data map].
  now rewrite fold_maximum_fin.
Qed.

Lemma fhalf_fin : @fhalf xreal _ = Fin (1 / 2).
Proof. unfold fhalf. cbn. rewrite Reqb_false by lra. reflexivity. Qed.

Lemma outer_edges_fin (l : list R) :
  outer_edges (map Fin l) = Ok (Fin (fst (real_edges l)),
                                Fin (snd (real_edges l))).
Proof.
  unfold outer_edges, real_edges. destruct l as [|a l].
  - cbn [map]. unfold fzero, fone.
    cbn [of_Z is_finite feqb xreal_scalar xis_finite xeqb andb negb].
    rewrite Reqb_false by lra. reflexivity.
  - cbn [map]. rewrite fold_minimum_fin, fold_maximum_fin.
    cbn [is_finite feqb xreal_scalar xis_finite xeqb andb negb].
    unfold Reqb.
    destruct (Req_dec_T (MinRlist (a :: l)) (MaxRlist (a :: l))) as [E|E].
    + rewrite fhalf_fin. cbn [fst snd]. reflexivity.
    + reflexivity.
Qed.

(** The edges the code returns are finite, and so is their distance: over
    the reals no width overflows. *)
Lemma outer_edges_finite (l : list xreal) (lo hi : xreal) :
  outer_edges l = Ok (lo, hi) ->
  exists a b, lo = Fin a /\ hi = Fin b /\ a <> b.
Proof.
  unfold outer_edges.
  destruct (match l with
            | [] => (fzero, fone)
            | v :: l' => (fold_left np_minimum l' v, fold_left np_maximum l' v)
            end) as [u w].
  destruct u as [a | | |], w as [b | | |]; try discriminate.
  change (is_finite (Fin a) && is_finite (Fin b)) with true. cbn [negb].
  rewrite fhalf_fin.
  change (feqb (Fin a) (Fin b)) with (Reqb a b). unfold Reqb.
  destruct (Req_dec_T a b) as [E|E]; intros H; inversion H; subst.
  - cbn [fsub fadd xreal_scalar xsub xneg xadd].
    do 2 eexists. split; [reflexivity|]. split; [reflexivity | lra].
  - eauto.
Qed.

Lemma width_finite (l : list xreal) (lo hi : xreal) :
  outer_edges l = Ok (lo, hi) -> width_divides lo hi = true.
Proof.
  intros H. destruct (outer_edges_finite _ H) as (a & b & -> & -> & Hab).
  unfold width_divides. cbn [fsub xreal_scalar xsub xneg xadd].
  cbn [fdiv]. rewrite xdiv_fin by lra. reflexivity.
Qed.

Lemma real_edges_lt (l : list R) : fst (real_edges l) < snd (real_edges l).
Proof.
  unfold real_edges. destruct l as [|a l]; [cbn; lra|].
  destruct (Req_dec_T _ _) as [E|E]; cbn [fst snd]; [lra|].
  pose proof (MinRlist_P1 (a :: l) a (or_introl eq_refl)).
  pose proof (MaxRlist_P1 (a :: l) a (or_introl eq_refl)). lra.
Qed.

Lemma real_edges_bound (l : list R) (v : R) :
  In v l -> fst (real_edges l) <= v <= snd (real_edges l).
Proof.
  intros Hv. unfold real_edges. destruct l as [|a l]; [destruct Hv|].
  pose proof (MinRlist_P1 (a :: l) v Hv).
  pose proof (MaxRlist_P1 (a :: l) v Hv).
  destruct (Req_dec_T _ _) as [E|E]; cbn [fst snd]; lra.
Qed.

Lemma histogram2d_ok (x y : list R) (bins : Z) :
  length x = length y -> (1 <= bins)%Z ->
  is_ok (np_histogram2d (map Fin x) (map Fin y) bins) = true.
Proof.
  intros Hlen Hb. unfold np_histogram2d.
  rewrite !length_map. apply Nat.eqb_eq in Hlen as ->. cbn [negb].
  apply Z.ltb_ge in Hb as ->.
  rewrite !outer_edges_fin. reflexivity.
Qed.

Lemma joint_entropy_ok (s t : list nat) (x y : list R) (bins : Z) :
  length x = length y -> (1 <= bins)%Z ->
  is_ok (joint_entropy (real_array s x) (real_array t y) bins) = true.
Proof.
  intros Hlen Hb. unfold joint_entropy, real_array. cbn [data].
  pose proof (histogram2d_ok x y Hlen Hb) as H.
  now destruct (np_histogram2d (map Fin x) (map Fin y) bins).
Qed.

End XRealRange.

(** ** The value [ssim] returns *)

Section SsimSelection.

Context {F : Type} {SF : Scalar F}.
Variable structural_similarity :
  ndarray F -> ndarray F -> F -> result (F * ndarray F).

Lemma is_prefix_refl (s : list nat) : is_prefix s s = true.
Proof.
  induction s as [|d s IH]; [reflexivity|].
  cbn [is_prefix]. now rewrite Nat.eqb_refl.
Qed.

Lemma skipn_length_nil (A : Type) (l : list A) : skipn (length l) l = [].
Proof. apply skipn_all. Qed.

Lemma chunks_of_one (l : list F) :
  chunks 1 (length l) l = map (fun v => [v]) l.
Proof.
  induction l as [|v l IH]; [reflexivity|].
  cbn [length chunks map firstn skipn]. now rewrite IH.
Qed.

Lemma filter_seq_shift (p : nat -> bool) (start len : nat) :
  filter p (seq (S start) len)
  = map S (filter (fun i => p (S i)) (seq start len)).
Proof.
  rewrite <- seq_shift. induction (seq start len) as [|i l IH];
    [reflexivity|].
  cbn [map filter]. destruct (p (S i)); cbn [map]; now rewrite IH.
Qed.

Lemma select_singletons (sel : list bool) :
  forall l : list F, length sel = length l ->
  select_blocks sel (map (fun v => [v]) l)
  = map (elem l) (filter (fun i => nth i sel false) (seq 0 (length l))).
Proof.
  unfold select_blocks.
  induction sel as [|b sel IH]; intros [|v l] Hlen; try discriminate;
    [reflexivity|].
  cbn [length seq map combine filter fst nth]. injection Hlen as Hlen.
  rewrite filter_seq_shift. cbn [nth].
  destruct b; cbn [map snd concat app];
    rewrite IH by assumption; rewrite map_map; reflexivity.
Qed.

Lemma positive_by_index (m : list F) (n : nat) :
  length m = n ->
  filter (fun i => nth i (map (fun v => fltb fzero v) m) false) (seq 0 n)
  = filter (fun i => fltb fzero (elem m i)) (seq 0 n).
Proof.
  intros Hn. apply filter_ext_in. intros i Hi. apply in_seq in Hi.
  unfold elem.
  rewrite (nth_indep _ false (fltb fzero fzero)) by (rewrite length_map; lia).
  apply (map_nth (fun v => fltb fzero v)).
Qed.

Lemma bool_index_same_shape (s m : ndarray F) :
  well_formed s -> well_formed m -> shape m = shape s ->
  bool_index s (positive m)
  = Ok (map (elem (data s))
          (filter (fun i => fltb fzero (elem (data m) i))
                  (seq 0 (length (data s))))).
Proof.
  intros Hs Hm Hshape.
  assert (Hlen : length (data m) = length (data s))
    by (unfold well_formed in *; now rewrite Hs, Hm, Hshape).
  unfold bool_index, positive, ndim, size. cbn [shape data].
  rewrite Hshape, is_prefix_refl, skipn_length_nil. cbn [prod_shape fold_right].
  rewrite length_map, Hlen, chunks_of_one.
  rewrite select_singletons by (now rewrite length_map).
  now rewrite positive_by_index.
Qed.

(** C5, as the code has it: without a mask [ssim] returns the global mean
    SSIM of the routine; with a mask of the shape of the SSIM map it returns
    the mean of the map over the positions where the mask is greater than
    zero, and the global mean plays no part. *)
Theorem ssim_selection_policy (x x_ref m : ndarray F) (datarange : option F)
  (dr mssim : F) (smap : ndarray F) :
  resolve_datarange x x_ref datarange = Ok dr ->
  structural_similarity x_ref x dr = Ok (mssim, smap) ->
  well_formed smap -> well_formed m -> shape m = shape smap ->
  ssim structural_similarity x x_ref None datarange = Ok mssim
  /\ ssim structural_similarity x x_ref (Some m) datarange
     = Ok (masked_mean (data smap) (data m)).
Proof.
  intros Hdr Hsk Hs Hm Hshape. unfold ssim. rewrite Hdr. cbn [bind].
  rewrite Hsk. cbn [bind pick_ssim fst snd]. split; [reflexivity|].
  rewrite (bool_index_same_shape Hs Hm Hshape). cbn [bind].
  unfold np_mean, np_sum, masked_mean. now rewrite length_map.
Qed.

End SsimSelection.

(** ** The inferred data range *)

Module XRealDataRange.

Import XReal XRealFacts XRealRange.
Local Open Scope R_scope.

Lemma py_min_fin (a b : R) : py_min (Fin a) (Fin b) = Fin (Rmin a b).
Proof.
  unfold py_min. cbn [fltb xreal_scalar xltb]. unfold Rltb, Rmin.
  destruct (Rlt_dec b a), (Rle_dec a b); try reflexivity; lra.
Qed.

Lemma inferred_datarange_fin (s t : list nat) (x x_ref : list R) :
  x <> [] -> x_ref <> [] ->
  inferred_datarange (real_array s x) (real_array t x_ref)
  = Ok (Fin (IZR (range_of_words x x_ref))).
Proof.
  intros Hx Hr. unfold inferred_datarange.
  rewrite (np_amax_fin t Hr), (np_amin_fin s Hx), (np_amin_fin t Hr).
  cbn [bind]. rewrite py_min_fin. reflexivity.
Qed.

Section Routines.

Variable peak_signal_noise_ratio :
  ndarray xreal -> ndarray xreal -> xreal -> result xreal.
Variable structural_similarity :
  ndarray xreal -> ndarray xreal -> xreal -> result (xreal * ndarray xreal).

Lemma resolve_inferred (x x_ref : ndarray xreal) (d : xreal) :
  inferred_datarange x x_ref = Ok d ->
  resolve_datarange x x_ref (Some d) = Ok d.
Proof.
  intros H. unfold resolve_datarange. now destruct (feqb d fzero).
Qed.

(** C9: with no [datarange], [psnr] and [ssim] work with
    [max(x_ref) - min(min(x), min(x_ref))] truncated to an integer: they
    behave as when that number is passed. *)
Theorem default_datarange_is_reference_biased
  (s t : list nat) (x x_ref : list R) (mask : option (ndarray xreal)) :
  x <> [] -> x_ref <> [] ->
  let dr := Fin (IZR (range_of_words x x_ref)) in
  resolve_datarange (real_array s x) (real_array t x_ref) None = Ok dr
  /\ psnr peak_signal_noise_ratio (real_array s x) (real_array t x_ref) None
     = psnr peak_signal_noise_ratio (real_array s x) (real_array t x_ref)
         (Some dr)
  /\ ssim structural_similarity (real_array s x) (real_array t x_ref) mask
       None
     = ssim structural_similarity (real_array s x) (real_array t x_ref) mask
         (Some dr).
Proof.
  intros Hx Hr dr.
  pose proof (inferred_datarange_fin s t Hx Hr) as Hinf. fold dr in Hinf.
  assert (Hnone : resolve_datarange (real_array s x) (real_array t x_ref) None
                  = Ok dr) by exact Hinf.
  pose proof (resolve_inferred _ _ Hinf) as Hsome.
  unfold psnr, ssim. rewrite Hnone, Hsome. repeat split.
Qed.

End Routines.

End XRealDataRange.

(** ** Counting into bins *)

Section Counting.

Variable A : Type.

Lemma count_cons (p : A -> bool) (v : A) (l : list A) :
  count p (v :: l) = ((if p v then 1 else 0) + count p l)%nat.
Proof. unfold count. cbn [filter]. now destruct (p v). Qed.

Lemma count_ext (p q : A -> bool) (l : list A) :
  (forall v, In v l -> p v = q v) -> count p l = count q l.
Proof. intros H. unfold count. f_equal. now apply filter_ext_in. Qed.

Lemma count_le_length (p : A -> bool) (l : list A) :
  (count p l <= length l)%nat.
Proof. apply filter_length_le. Qed.

Lemma count_all (p : A -> bool) (l : list A) :
  (forall v, In v l -> p v = true) -> count p l = length l.
Proof.
  intros H. induction l as [|v l IH]; [reflexivity|].
  rewrite count_cons, H by now left.
  cbn [length]. rewrite IH; [reflexivity|]. intros w Hw. apply H. now right.
Qed.

Lemma count_app (p : A -> bool) (l m : list A) :
  count p (l ++ m) = (count p l + count p m)%nat.
Proof. unfold count. rewrite filter_app, length_app. reflexivity. Qed.

Lemma count_diagonal (p q : A -> bool) (l : list A) :
  count (fun c => p (fst c) && q (snd c)) (combine l l)
  = count (fun v => p v && q v) l.
Proof.
  unfold count. induction l as [|v l IH]; [reflexivity|].
  cbn [combine filter fst snd].
  destruct (p v), (q v); cbn [andb length]; now rewrite IH.
Qed.

End Counting.

Lemma count_map (A B : Type) (f : B -> A) (p : A -> bool) (l : list B) :
  count p (map f l) = count (fun b => p (f b)) l.
Proof.
  induction l as [|b l IH]; [reflexivity|].
  cbn [map]. rewrite !count_cons, IH. reflexivity.
Qed.

(** ** Sums of counts *)

Section SumZ.

Lemma sum_Z_from (l : list Z) :
  forall a, fold_left Z.add l a = (a + fold_right Z.add 0 l)%Z.
Proof.
  induction l as [|c l IH]; intros a; cbn [fold_left fold_right]; [lia|].
  rewrite IH. lia.
Qed.

Lemma sum_Z_cons (c : Z) (l : list Z) : sum_Z (c :: l) = (c + sum_Z l)%Z.
Proof. unfold sum_Z. cbn [fold_left]. rewrite !sum_Z_from. lia. Qed.

Lemma sum_Z_app (l m : list Z) : sum_Z (l ++ m) = (sum_Z l + sum_Z m)%Z.
Proof.
  induction l as [|c l IH]; [reflexivity|].
  cbn [app]. rewrite !sum_Z_cons, IH. lia.
Qed.

Lemma sum_Z_nonneg (l : list Z) :
  Forall (fun c => 0 <= c)%Z l -> (0 <= sum_Z l)%Z.
Proof.
  induction 1 as [|c l Hc _ IH]; [reflexivity|]. rewrite sum_Z_cons. lia.
Qed.

Lemma sum_Z_zero (l : list Z) :
  Forall (fun c => 0 <= c)%Z l -> sum_Z l = 0%Z ->
  Forall (fun c => c = 0%Z) l.
Proof.
  induction 1 as [|c l Hc Hl IH]; intros Hs; [constructor|].
  rewrite sum_Z_cons in Hs. pose proof (sum_Z_nonneg Hl).
  constructor; [lia | apply IH; lia].
Qed.

Lemma sum_Z_map_add (A : Type) (f g : A -> Z) (l : list A) :
  sum_Z (map (fun i => f i + g i)%Z l)
  = (sum_Z (map f l) + sum_Z (map g l))%Z.
Proof.
  induction l as [|a l IH]; [reflexivity|].
  cbn [map]. rewrite !sum_Z_cons, IH. lia.
Qed.

Lemma sum_Z_flat_map (A : Type) (f : A -> list Z) (l : list A) :
  sum_Z (flat_map f l) = sum_Z (map (fun a => sum_Z (f a)) l).
Proof.
  induction l as [|a l IH]; [reflexivity|].
  cbn [flat_map map]. now rewrite sum_Z_app, sum_Z_cons, IH.
Qed.

(** One bin of a row holds [a], the others 0. *)
Lemma sum_Z_single (a : Z) (i len : nat) :
  forall start,
  sum_Z (map (fun j => if (i =? j)%nat then a else 0%Z) (seq start len))
  = if ((start <=? i) && (i <? start + len))%nat then a else 0%Z.
Proof.
  induction len as [|len IH]; intros start.
  - cbn [seq map]. replace (i <? start + 0)%nat with (i <? start)%nat
      by (f_equal; lia).
    destruct (start <=? i)%nat eqn:E1, (i <? start)%nat eqn:E2;
      try reflexivity.
    apply Nat.leb_le in E1. apply Nat.ltb_lt in E2. lia.
  - cbn [seq map]. rewrite sum_Z_cons, IH.
    destruct (i =? start)%nat eqn:E.
    + apply Nat.eqb_eq in E. subst.
      replace (S start <=? start)%nat with false
        by (symmetry; apply Nat.leb_gt; lia).
      rewrite Nat.leb_refl.
      replace (start <? start + S len)%nat with true
        by (symmetry; apply Nat.ltb_lt; lia).
      cbn [andb]. lia.
    + apply Nat.eqb_neq in E.
      replace (i <? S start + len)%nat with (i <? start + S len)%nat
        by (f_equal; lia).
      destruct (i <? start + S len)%nat; rewrite ?andb_false_r; [|lia].
      rewrite !andb_true_r.
      destruct (S start <=? i)%nat eqn:E1, (start <=? i)%nat eqn:E2;
        try lia.
      * apply Nat.leb_le in E1. apply Nat.leb_gt in E2. lia.
      * apply Nat.leb_gt in E1. apply Nat.leb_le in E2. lia.
Qed.

Lemma nth_seq_list (A : Type) (d : A) (l : list A) :
  map (fun i => nth i l d) (seq 0 (length l)) = l.
Proof.
  induction l as [|a l IH]; [reflexivity|].
  cbn [length seq map nth]. f_equal.
  rewrite <- seq_shift, map_map. exact IH.
Qed.

Lemma sum_Z_diagonal (h : list Z) : sum_Z (diagonal h) = sum_Z h.
Proof.
  unfold diagonal. rewrite sum_Z_flat_map.
  transitivity (sum_Z (map (fun i => nth i h 0%Z) (seq 0 (length h))));
    [|now rewrite nth_seq_list].
  f_equal. apply map_ext_in. intros i Hi. apply in_seq in Hi.
  rewrite sum_Z_single.
  replace (0 <=? i)%nat with true by (symmetry; now apply Nat.leb_le).
  replace (i <? 0 + length h)%nat with true
    by (symmetry; apply Nat.ltb_lt; lia).
  reflexivity.
Qed.

End SumZ.

(** ** Histograms, for any scalar *)

Section Histograms.

Context {F : Type} {SF : Scalar F}.

Lemma in_bin_unique (edges : list F) (n i j : nat) (v : F) :
  in_bin edges n i v && in_bin edges n j v
  = if (i =? j)%nat then in_bin edges n i v else false.
Proof.
  unfold in_bin. destruct (bin_of edges n v) as [k|].
  - destruct (i =? j)%nat eqn:E.
    + apply Nat.eqb_eq in E. subst. apply andb_diag.
    + destruct (i =? k)%nat eqn:E1, (j =? k)%nat eqn:E2; try reflexivity.
      apply Nat.eqb_eq in E1, E2. apply Nat.eqb_neq in E. congruence.
  - now destruct (i =? j)%nat.
Qed.

Lemma count_never (A : Type) (l : list A) : count (fun _ => false) l = 0%nat.
Proof. induction l as [|a l IH]; [reflexivity | exact IH]. Qed.

Lemma joint_counts_self (edges : list F) (n i j : nat) (x : list F) :
  count (fun p => in_bin edges n i (fst p) && in_bin edges n j (snd p))
        (combine x x)
  = if (i =? j)%nat then count (in_bin edges n i) x else 0%nat.
Proof.
  rewrite count_diagonal.
  rewrite (count_ext _ (fun v => if (i =? j)%nat then in_bin edges n i v
                                 else false))
    by (intros v _; apply in_bin_unique).
  destruct (i =? j)%nat; [reflexivity | apply count_never].
Qed.

Lemma flat_map_ext_in (A B : Type) (f g : A -> list B) (l : list A) :
  (forall a, In a l -> f a = g a) -> flat_map f l = flat_map g l.
Proof.
  intros H. rewrite !flat_map_concat_map. f_equal. now apply map_ext_in.
Qed.

Lemma histogram_rows (g : nat -> Z) (n : nat) :
  flat_map (fun i => map (fun j => if (i =? j)%nat then g i else 0%Z)
                         (seq 0 n)) (seq 0 n)
  = diagonal (map g (seq 0 n)).
Proof.
  unfold diagonal. rewrite length_map, length_seq.
  apply flat_map_ext_in. intros i Hi. apply map_ext_in. intros j Hj.
  destruct (i =? j)%nat; [|reflexivity].
  apply in_seq in Hi.
  rewrite (nth_indep _ 0%Z (g 0%nat)) by (rewrite length_map, length_seq; lia).
  rewrite map_nth, seq_nth by lia. reflexivity.
Qed.

(** The joint histogram of an array with itself is the diagonal table of
    its histogram, and fails as the histogram does, when the width of the
    range is finite. *)
Lemma histogram2d_self (s : list nat) (x : list F) (bins : Z) :
  (forall lo hi, outer_edges x = Ok (lo, hi) ->
                 width_divides lo hi = true) ->
  np_histogram2d x x bins
  = (h <- np_histogram (mk_array s x) bins ;; Ok (diagonal h)).
Proof.
  intros Hw. unfold np_histogram2d, np_histogram. cbn [data].
  rewrite Nat.eqb_refl. cbn [negb].
  destruct (bins <? 1)%Z; [reflexivity|].
  destruct (outer_edges x) as [[lo hi]|e]; [|reflexivity].
  cbn [bind]. rewrite (Hw lo hi eq_refl). cbn [negb bind].
  f_equal. rewrite <- histogram_rows.
  apply flat_map_ext_in. intros i _. apply map_ext_in. intros j _.
  rewrite joint_counts_self. now destruct (i =? j)%nat.
Qed.

Lemma sum_Z_indicator (j n : nat) :
  (j < n)%nat ->
  sum_Z (map (fun i => Z.of_nat (if (i =? j)%nat then 1 else 0)) (seq 0 n))
  = 1%Z.
Proof.
  intros Hj.
  rewrite (map_ext _ (fun i => if (j =? i)%nat then 1%Z else 0%Z))
    by (intros i; rewrite (Nat.eqb_sym i j); now destruct (j =? i)%nat).
  rewrite sum_Z_single.
  replace (j <? 0 + n)%nat with true by (symmetry; now apply Nat.ltb_lt).
  reflexivity.
Qed.

(** Every element that has a bin is counted once. *)
Lemma counts_partition (edges : list F) (n : nat) (l : list F) :
  (forall v, In v l -> exists j, bin_of edges n v = Some j /\ (j < n)%nat) ->
  sum_Z (map (fun i => Z.of_nat (count (in_bin edges n i) l)) (seq 0 n))
  = Z.of_nat (length l).
Proof.
  induction l as [|v l IH]; intros Hbin.
  - cbn [count filter length]. induction (seq 0 n) as [|i rest IHs];
      [reflexivity|]. cbn [map]. rewrite sum_Z_cons, IHs. reflexivity.
  - rewrite (map_ext _ (fun i => Z.of_nat (if in_bin edges n i v then 1 else 0)
                                 + Z.of_nat (count (in_bin edges n i) l))%Z)
      by (intros i; rewrite count_cons; lia).
    rewrite sum_Z_map_add, IH by (intros w Hw; apply Hbin; now right).
    destruct (Hbin v (or_introl eq_refl)) as (j & Hj & Hlt).
    unfold in_bin. rewrite Hj, (sum_Z_indicator Hlt).
    cbn [length]. lia.
Qed.

Lemma filter_single_row (B : Type) (f : Z -> B) (P : B -> bool) (a : Z)
  (i len : nat) :
  P (f 0%Z) = false ->
  forall start,
  filter P (map f (map (fun j => if (i =? j)%nat then a else 0%Z)
                       (seq start len)))
  = if ((start <=? i) && (i <? start + len))%nat then filter P [f a] else [].
Proof.
  intros H0. induction len as [|len IH]; intros start.
  - cbn [seq map filter]. replace (i <? start + 0)%nat with (i <? start)%nat
      by (f_equal; lia).
    destruct (start <=? i)%nat eqn:E1, (i <? start)%nat eqn:E2;
      try reflexivity.
    apply Nat.leb_le in E1. apply Nat.ltb_lt in E2. lia.
  - cbn [seq map filter]. rewrite IH.
    replace (i <? S start + len)%nat with (i <? start + S len)%nat
      by (f_equal; lia).
    destruct (i =? start)%nat eqn:E.
    + apply Nat.eqb_eq in E. subst.
      replace (S start <=? start)%nat with false
        by (symmetry; apply Nat.leb_gt; lia).
      rewrite Nat.leb_refl.
      replace (start <? start + S len)%nat with true
        by (symmetry; apply Nat.ltb_lt; lia).
      cbn [andb filter]. destruct (P (f a)); reflexivity.
    + apply Nat.eqb_neq in E. rewrite H0.
      destruct (i <? start + S len)%nat; rewrite ?andb_false_r;
        [|reflexivity].
      rewrite !andb_true_r.
      destruct (S start <=? i)%nat eqn:E1, (start <=? i)%nat eqn:E2;
        try reflexivity.
      * apply Nat.leb_le in E1. apply Nat.leb_gt in E2. lia.
      * apply Nat.leb_gt in E1. apply Nat.leb_le in E2. lia.
Qed.

Lemma filter_map_flat_map (A B C : Type) (f : B -> C) (P : C -> bool)
  (r : A -> list B) (l : list A) :
  filter P (map f (flat_map r l))
  = flat_map (fun i => filter P (map f (r i))) l.
Proof.
  induction l as [|a l IH]; [reflexivity|].
  cbn [flat_map]. now rewrite map_app, filter_app, IH.
Qed.

Lemma flat_map_filter_single (A C : Type) (g : A -> C) (P : C -> bool)
  (l : list A) :
  flat_map (fun i => filter P [g i]) l = filter P (map g l).
Proof.
  induction l as [|a l IH]; [reflexivity|].
  cbn [flat_map map]. rewrite IH. cbn [filter app].
  now destruct (P (g a)).
Qed.

(** A filter that drops the image of 0 sees the same values in the
    diagonal table as in the list, in the same order. *)
Lemma filter_diagonal (B : Type) (f : Z -> B) (P : B -> bool) (h : list Z) :
  P (f 0%Z) = false ->
  filter P (map f (diagonal h)) = filter P (map f h).
Proof.
  intros H0. unfold diagonal. rewrite filter_map_flat_map.
  rewrite (flat_map_ext_in _
             (fun i => filter P [f (nth i h 0%Z)])).
  - rewrite (flat_map_filter_single (fun i => f (nth i h 0%Z))).
    now rewrite <- (map_map (fun i => nth i h 0%Z) f), nth_seq_list.
  - intros i Hi. apply in_seq in Hi.
    rewrite (filter_single_row f P (nth i h 0%Z) i (length h) H0 0).
    replace (0 <=? i)%nat with true by (symmetry; apply Nat.leb_le; lia).
    replace (i <? 0 + length h)%nat with true
      by (symmetry; apply Nat.ltb_lt; lia).
    reflexivity.
Qed.

Lemma histogram_counts (a : ndarray F) (bins : Z) (h : list Z) :
  np_histogram a bins = Ok h ->
  (1 <= bins)%Z /\ length h = Z.to_nat bins
  /\ Forall (fun c => 0 <= c)%Z h.
Proof.
  unfold np_histogram. destruct (bins <? 1)%Z eqn:Hb; [discriminate|].
  apply Z.ltb_ge in Hb.
  destruct (outer_edges (data a)) as [[lo hi]|e]; [|discriminate].
  cbn [bind]. destruct (width_divides lo hi); [|discriminate].
  cbn [negb]. intros [= <-]. split; [exact Hb|].
  split; [now rewrite length_map, length_seq|].
  apply Forall_forall. intros c Hc. apply in_map_iff in Hc.
  destruct Hc as (i & <- & _). lia.
Qed.

Lemma histogram2d_counts (x y : list F) (bins : Z) (hh : list Z) :
  np_histogram2d x y bins = Ok hh ->
  (1 <= bins)%Z /\ hh <> [] /\ Forall (fun c => 0 <= c)%Z hh
  /\ is_ok (outer_edges x) = true
  /\ is_ok (outer_edges y) = true.
Proof.
  unfold np_histogram2d. cbn [data].
  destruct (negb (length x =? length y)%nat); [discriminate|].
  destruct (bins <? 1)%Z eqn:Hb; [discriminate|].
  apply Z.ltb_ge in Hb.
  destruct (outer_edges x) as [[xlo xhi]|e]; [|discriminate].
  destruct (outer_edges y) as [[ylo yhi]|e]; [|discriminate].
  cbn [bind]. intros [= <-]. split; [exact Hb|].
  split; [|split; [|split; reflexivity]].
  - destruct (Z.to_nat bins) as [|n] eqn:En; [lia|]. discriminate.
  - apply Forall_forall. intros c Hc. apply in_flat_map in Hc.
    destruct Hc as (i & _ & Hc). apply in_map_iff in Hc.
    destruct Hc as (j & <- & _). lia.
Qed.

End Histograms.

(** ** Entropies over the extended reals *)

Module XRealEntropy.

Import XReal XRealFacts XRealRange.
Local Open Scope R_scope.

Lemma sum_Z_zeros (h : list Z) :
  Forall (fun c => c = 0%Z) h -> sum_Z h = 0%Z.
Proof.
  induction 1 as [|c h Hc _ IH]; [reflexivity|].
  rewrite sum_Z_cons. lia.
Qed.

Lemma probabilities_fin (h : list Z) :
  sum_Z h <> 0%Z -> probabilities h = map Fin (real_probabilities h).
Proof.
  intros HS. unfold probabilities, real_probabilities. rewrite map_map.
  apply map_ext. intros c. cbn [fdiv of_Z xreal_scalar].
  apply xdiv_fin. now apply not_0_IZR.
Qed.

Lemma probabilities_nan (h : list Z) :
  Forall (fun c => c = 0%Z) h -> probabilities h = map (fun _ => NaN) h.
Proof.
  intros Hz. unfold probabilities. rewrite (sum_Z_zeros Hz).
  apply map_ext_in. intros c Hc. rewrite Forall_forall in Hz.
  rewrite (Hz c Hc). cbn. rewrite Reqb_true by reflexivity.
  unfold Rltb. destruct (Rlt_dec 0 0); [lra | reflexivity].
Qed.

Lemma fold_py_add_nan (k : nat) :
  fold_left (fun acc v => py_add acc (NpFloat v)) (repeat NaN k)
            (NpFloat NaN)
  = NpFloat NaN.
Proof. induction k as [|k IH]; [reflexivity | exact IH]. Qed.

Lemma entropy_nan (A : Type) (l : list A) :
  l <> [] -> entropy_of (map (fun _ => NaN) l) = NpFloat NaN.
Proof.
  intros Hl. rewrite map_const.
  destruct l as [|a l]; [congruence|]. cbn [length repeat].
  unfold entropy_of.
  assert (Hf : forall k, filter (fun p : xreal => fneqb p fzero) (repeat NaN k)
                         = repeat NaN k).
  { induction k as [|k IH]; [reflexivity|]. cbn [repeat filter].
    cbn. f_equal. exact IH. }
  change (NaN :: repeat NaN (length l)) with (repeat NaN (S (length l))).
  rewrite Hf, map_repeat. cbn [repeat]. unfold py_sum. cbn [fold_left].
  cbn [py_add py_float fmul flog xreal_scalar xreal_log xmul xlog].
  change (fadd (of_Z 0) NaN) with NaN.
  now rewrite fold_py_add_nan.
Qed.

Lemma fold_py_add_fin (l : list R) :
  forall a,
  fold_left (fun acc v => py_add acc (NpFloat v)) (map Fin l)
            (NpFloat (Fin a))
  = NpFloat (Fin (a + rsum l)).
Proof.
  induction l as [|t l IH]; intros a.
  - cbn. do 2 f_equal. lra.
  - cbn [map fold_left py_add py_float fadd xreal_scalar xadd].
    rewrite IH. change (rsum (t :: l)) with (t + rsum l). do 2 f_equal. lra.
Qed.

Lemma py_sum_fin (l : list R) :
  l <> [] -> py_sum (map Fin l) = NpFloat (Fin (rsum l)).
Proof.
  destruct l as [|t l]; [congruence|]. intros _.
  unfold py_sum. cbn [map fold_left py_add py_float of_Z fadd xreal_scalar xadd].
  rewrite fold_py_add_fin. change (rsum (t :: l)) with (t + rsum l).
  do 2 f_equal. lra.
Qed.

Lemma filter_nonzero_fin (ps : list R) :
  filter (fun p : xreal => fneqb p fzero) (map Fin ps)
  = map Fin (filter (fun p => negb (Reqb p 0)) ps).
Proof.
  induction ps as [|p ps IH]; [reflexivity|].
  cbn [map filter]. rewrite IH.
  change (fneqb (Fin p) fzero) with (negb (Reqb p 0)).
  now destruct (negb (Reqb p 0)).
Qed.

Lemma plogp_fin (qs : list R) :
  Forall (fun q => 0 < q) qs ->
  map (fun p : xreal => fmul p (flog p)) (map Fin qs)
  = map Fin (map (fun q => q * ln q) qs).
Proof.
  induction 1 as [|q qs Hq _ IH]; [reflexivity|].
  cbn [map]. rewrite IH. f_equal.
  cbn [fmul flog xreal_scalar xreal_log xlog].
  rewrite Rltb_false, Reqb_false by lra. reflexivity.
Qed.

Lemma rsum_filter_nonzero (ps : list R) :
  rsum (map (fun q => q * ln q) (filter (fun p => negb (Reqb p 0)) ps))
  = rsum (map (fun p => if Req_dec_T p 0 then 0 else p * ln p) ps).
Proof.
  induction ps as [|p ps IH]; [reflexivity|].
  cbn [filter map]. unfold Reqb at 1.
  destruct (Req_dec_T p 0) as [E|E]; cbn [negb map];
    change (rsum (?a :: ?l)) with (a + rsum l); rewrite IH; lra.
Qed.

Lemma entropy_fin (ps : list R) :
  Forall (fun p => 0 <= p) ps -> (exists p, In p ps /\ p <> 0) ->
  entropy_of (map Fin ps) = NpFloat (Fin (entropy_of_words ps)).
Proof.
  intros Hpos (p & Hin & Hp). unfold entropy_of.
  rewrite filter_nonzero_fin, plogp_fin.
  - rewrite py_sum_fin.
    + cbn [py_neg fneg xreal_scalar xneg]. unfold entropy_of_words.
      now rewrite rsum_filter_nonzero.
    + intros Hnil. apply map_eq_nil in Hnil.
      assert (Hf : In p (filter (fun p => negb (Reqb p 0)) ps)).
      { apply filter_In. split; [exact Hin|]. now rewrite Reqb_false. }
      rewrite Hnil in Hf. destruct Hf.
  - apply Forall_forall. intros q Hq. apply filter_In in Hq.
    destruct Hq as [Hq Hnz]. rewrite Forall_forall in Hpos.
    specialize (Hpos q Hq). unfold Reqb in Hnz.
    destruct (Req_dec_T q 0); [discriminate | lra].
Qed.

Lemma real_probabilities_nonneg (h : list Z) :
  Forall (fun c => 0 <= c)%Z h -> (0 < sum_Z h)%Z ->
  Forall (fun p => 0 <= p) (real_probabilities h).
Proof.
  intros Hh HS. apply Forall_forall. intros p Hp.
  apply in_map_iff in Hp. destruct Hp as (c & <- & Hc).
  rewrite Forall_forall in Hh. specialize (Hh c Hc).
  apply Rmult_le_pos; [now apply IZR_le|].
  left. apply Rinv_0_lt_compat. now apply IZR_lt.
Qed.

Lemma real_probabilities_some (h : list Z) :
  Forall (fun c => 0 <= c)%Z h -> (0 < sum_Z h)%Z ->
  exists p, In p (real_probabilities h) /\ p <> 0.
Proof.
  intros Hh HS.
  assert (Hex : exists c, In c h /\ c <> 0%Z).
  { destruct (Forall_Exists_dec (fun c => c = 0%Z)
                (fun c => Z.eq_dec c 0) h) as [Hz | Hnz].
    - rewrite (sum_Z_zeros Hz) in HS. lia.
    - apply Exists_exists in Hnz. exact Hnz. }
  destruct Hex as (c & Hc & Hc0).
  exists (IZR c / IZR (sum_Z h)). split.
  - apply in_map_iff. now exists c.
  - rewrite Forall_forall in Hh. specialize (Hh c Hc).
    assert (0 < IZR c) by (apply IZR_lt; lia).
    assert (0 < IZR (sum_Z h)) by (now apply IZR_lt).
    assert (0 < IZR c / IZR (sum_Z h)) by (now apply Rdiv_lt_0_compat).
    lra.
Qed.

(** The entropy of a histogram is a NumPy float: a real, or NaN when the
    histogram is empty of counts. *)
Lemma entropy_of_histogram (h : list Z) :
  h <> [] -> Forall (fun c => 0 <= c)%Z h ->
  (sum_Z h = 0%Z /\ entropy_of (probabilities h) = NpFloat NaN)
  \/ ((0 < sum_Z h)%Z
      /\ entropy_of (probabilities h)
         = NpFloat (Fin (entropy_of_words (real_probabilities h)))).
Proof.
  intros Hne Hh. pose proof (sum_Z_nonneg Hh) as HS.
  destruct (Z.eq_dec (sum_Z h) 0) as [E|E].
  - left. split; [exact E|].
    rewrite (probabilities_nan (sum_Z_zero Hh E)). now apply entropy_nan.
  - right. assert (HS' : (0 < sum_Z h)%Z) by lia. split; [exact HS'|].
    rewrite probabilities_fin by exact E.
    apply entropy_fin;
      [now apply real_probabilities_nonneg | now apply real_probabilities_some].
Qed.

Lemma diagonal_nonneg (h : list Z) :
  Forall (fun c => 0 <= c)%Z h -> Forall (fun c => 0 <= c)%Z (diagonal h).
Proof.
  intros Hh. apply Forall_forall. intros c Hc. unfold diagonal in Hc.
  apply in_flat_map in Hc. destruct Hc as (i & Hi & Hc).
  apply in_map_iff in Hc. destruct Hc as (j & <- & _).
  destruct (i =? j)%nat; [|lia].
  apply in_seq in Hi. rewrite Forall_forall in Hh. apply Hh, nth_In. lia.
Qed.

Lemma diagonal_nonempty (h : list Z) : h <> [] -> diagonal h <> [].
Proof. destruct h as [|c h]; [congruence | discriminate]. Qed.

(** The joint histogram of an array with itself has the entropy of its
    histogram. *)
Lemma entropy_diagonal (h : list Z) :
  h <> [] -> Forall (fun c => 0 <= c)%Z h ->
  entropy_of (probabilities (diagonal h)) = entropy_of (probabilities h).
Proof.
  intros Hne Hh.
  destruct (Z.eq_dec (sum_Z h) 0) as [E|E].
  - rewrite (probabilities_nan (sum_Z_zero Hh E)).
    assert (E' : sum_Z (diagonal h) = 0%Z) by (now rewrite sum_Z_diagonal).
    rewrite (probabilities_nan (sum_Z_zero (diagonal_nonneg Hh) E')).
    rewrite !entropy_nan; auto using diagonal_nonempty.
  - unfold entropy_of, probabilities. rewrite sum_Z_diagonal.
    rewrite (filter_diagonal
               (fun c => fdiv (of_Z c) (of_Z (sum_Z h)))
               (fun p : xreal => fneqb p fzero)); [reflexivity|].
    cbn [fdiv of_Z xreal_scalar]. rewrite xdiv_fin by (now apply not_0_IZR).
    change (fneqb (Fin ?a) fzero) with (negb (Reqb a 0)).
    rewrite Reqb_true; [reflexivity|]. unfold Rdiv. lra.
Qed.

Lemma entropy_twice_minus_once (e : pynum xreal) :
  e = NpFloat NaN \/ (exists r, e = NpFloat (Fin r)) ->
  py_sub (py_add e e) e = e.
Proof.
  intros [-> | [r ->]]; [reflexivity|].
  cbn. do 2 f_equal. lra.
Qed.

(** C7: the mutual information of an array with itself is its Shannon
    entropy.  The joint histogram of (x, x) has the counts of the histogram
    of x on its diagonal and nothing elsewhere, the filter [p != 0] leaves
    the same terms in the same order, and [H + H - H] is [H].  Both sides
    fail alike when the histogram cannot be built. *)
Theorem mutual_information_self (x : ndarray xreal) (bins : Z) :
  mutual_information x x bins = shannon_entropy x bins.
Proof.
  unfold mutual_information, joint_entropy, shannon_entropy.
  rewrite (histogram2d_self (shape x) (data x) bins)
    by (intros lo hi; apply XRealRange.width_finite).
  replace (mk_array (shape x) (data x)) with x by (now destruct x).
  destruct (np_histogram x bins) as [h|e] eqn:Hh; [|reflexivity].
  cbn [bind]. destruct (histogram_counts _ _ Hh) as (Hb & Hlen & Hpos).
  assert (Hne : h <> []) by (destruct h; [cbn in Hlen; lia | discriminate]).
  rewrite (entropy_diagonal Hne Hpos). f_equal.
  apply entropy_twice_minus_once.
  destruct (entropy_of_histogram Hne Hpos) as [[_ ->] | [_ ->]];
    [now left | right; eauto].
Qed.



Lemma entropy_is_np_float (h : list Z) :
  h <> [] -> Forall (fun c => 0 <= c)%Z h ->
  exists e, entropy_of (probabilities h) = NpFloat e.
Proof.
  intros Hne Hh.
  destruct (entropy_of_histogram Hne Hh) as [[_ ->] | [_ ->]]; eauto.
Qed.




End XRealEntropy.

(** ** Binning finite values *)

Module XRealBins.

Import XReal XRealFacts XRealRange XRealEntropy.
Local Open Scope R_scope.

Lemma linspace_fin (lo hi : R) (n : nat) :
  (1 <= n)%nat ->
  linspace (Fin lo) (Fin hi) n = map Fin (real_linspace lo hi n).
Proof.
  intros Hn. unfold linspace, real_linspace.
  rewrite map_app, map_map. cbn [map]. f_equal.
  apply map_ext. intros i. rewrite !count_fin.
  cbn [fsub fdiv fmul fadd xreal_scalar xsub xneg xadd].
  rewrite xdiv_fin by (apply not_0_INR; lia). reflexivity.
Qed.

Lemma searchsorted_fin (es : list R) (v : R) :
  searchsorted_right (map Fin es) (Fin v) = count (fun e => Rleb e v) es.
Proof. unfold searchsorted_right. now rewrite count_map. Qed.

Lemma edge_below_last (lo hi : R) (n i : nat) :
  lo < hi -> (i < n)%nat -> INR i * ((hi - lo) / INR n) + lo <= hi.
Proof.
  intros Hlt Hi.
  assert (Hn : 0 < INR n) by (apply lt_0_INR; lia).
  assert (Hin : INR i <= INR n) by (apply le_INR; lia).
  assert (Hd : 0 <= (hi - lo) / INR n).
  { apply Rmult_le_pos; [lra | left; now apply Rinv_0_lt_compat]. }
  assert (Hmul : INR i * ((hi - lo) / INR n) <= INR n * ((hi - lo) / INR n))
    by (now apply Rmult_le_compat_r).
  replace (INR n * ((hi - lo) / INR n)) with (hi - lo) in Hmul
    by (field; lra).
  lra.
Qed.

(** A value within the outer edges has a bin. *)
Lemma bin_of_fin (lo hi v : R) (n : nat) :
  lo < hi -> lo <= v <= hi -> (1 <= n)%nat ->
  exists j, bin_of (map Fin (real_linspace lo hi n)) n (Fin v) = Some j
            /\ (j < n)%nat.
Proof.
  intros Hlt [Hlo Hhi] Hn. unfold bin_of.
  assert (Hlast : last (map Fin (real_linspace lo hi n)) fzero = Fin hi).
  { unfold real_linspace. rewrite map_app. cbn [map]. apply last_last. }
  rewrite searchsorted_fin, Hlast. unfold real_linspace.
  rewrite count_app. cbn [feqb xreal_scalar xeqb].
  set (inner := map (fun i => INR i * ((hi - lo) / INR n) + lo) (seq 0 n)).
  assert (Hlen : length inner = n)
    by (unfold inner; now rewrite length_map, length_seq).
  assert (Hc : count (fun e => Rleb e v) [hi]
               = if Rleb hi v then 1%nat else 0%nat).
  { unfold count. cbn [filter]. now destruct (Rleb hi v). }
  rewrite Hc.
  destruct (Req_dec_T v hi) as [E | E].
  - subst v. rewrite Reqb_true, Rleb_true by lra.
    rewrite count_all.
    + rewrite Hlen. exists (n - 1)%nat.
      replace (n + 1 - 1)%nat with n by lia.
      replace (1 <=? n)%nat with true by (symmetry; now apply Nat.leb_le).
      rewrite Nat.leb_refl. cbn [andb]. split; [reflexivity | lia].
    + intros e He. apply in_map_iff in He. destruct He as (i & <- & Hi).
      apply in_seq in Hi. apply Rleb_true, edge_below_last; [exact Hlt | lia].
  - rewrite Reqb_false, Rleb_false by lra.
    rewrite Nat.add_0_r.
    assert (Hc1 : (1 <= count (fun e => Rleb e v) inner)%nat).
    { unfold inner. destruct n as [|n]; [lia|].
      cbn [seq map]. rewrite count_cons.
      rewrite Rleb_true; [lia|]. cbn [INR]. lra. }
    pose proof (count_le_length (fun e => Rleb e v) inner) as Hc2.
    rewrite Hlen in Hc2.
    exists (count (fun e => Rleb e v) inner - 1)%nat.
    replace (1 <=? count (fun e => Rleb e v) inner)%nat with true
      by (symmetry; now apply Nat.leb_le).
    replace (count (fun e => Rleb e v) inner <=? n)%nat with true
      by (symmetry; now apply Nat.leb_le).
    cbn [andb]. split; [reflexivity | lia].
Qed.

(** The histogram of finite values counts each of them once. *)
Lemma np_histogram_fin (s : list nat) (l : list R) (bins : Z) :
  (1 <= bins)%Z ->
  exists h, np_histogram (real_array s l) bins = Ok h
            /\ length h = Z.to_nat bins
            /\ Forall (fun c => 0 <= c)%Z h
            /\ sum_Z h = Z.of_nat (length l).
Proof.
  intros Hb.
  destruct (np_histogram (real_array s l) bins) as [h|e] eqn:Hh.
  - exists h. destruct (histogram_counts _ _ Hh) as (_ & Hlen & Hpos).
    repeat split; try assumption.
    revert Hh. unfold np_histogram, real_array. cbn [data].
    rewrite (proj2 (Z.ltb_ge bins 1) Hb). rewrite outer_edges_fin. cbn [bind].
    rewrite (width_finite _ (outer_edges_fin l)). cbn [negb].
    intros [= <-]. rewrite linspace_fin by lia.
    rewrite counts_partition; [now rewrite length_map|].
    intros v Hv. apply in_map_iff in Hv. destruct Hv as (r & <- & Hr).
    apply bin_of_fin; [apply real_edges_lt | now apply real_edges_bound | lia].
  - exfalso. revert Hh. unfold np_histogram, real_array. cbn [data].
    rewrite (proj2 (Z.ltb_ge bins 1) Hb). rewrite outer_edges_fin.
    cbn [bind]. now rewrite (width_finite _ (outer_edges_fin l)).
Qed.

(** ** The bounds of the entropy *)

Lemma ln_below_line (z : R) : 0 < z -> ln z <= z - 1.
Proof.
  intros Hz. pose proof (exp_ineq1_le (ln z)) as H.
  rewrite exp_ln in H by exact Hz. lra.
Qed.

Lemma rsum_le (A : Type) (f g : A -> R) (l : list A) :
  (forall a, In a l -> f a <= g a) -> rsum (map f l) <= rsum (map g l).
Proof.
  induction l as [|a l IH]; intros H; [cbn; lra|].
  cbn [map]. change (rsum (?x :: ?y)) with (x + rsum y).
  pose proof (H a (or_introl eq_refl)).
  assert (rsum (map f l) <= rsum (map g l))
    by (apply IH; intros b Hb; apply H; now right).
  lra.
Qed.

Lemma rsum_affine (a b : R) (l : list R) :
  rsum (map (fun p => p * a + b) l) = rsum l * a + INR (length l) * b.
Proof.
  induction l as [|p l IH]; [cbn; lra|].
  cbn [map]. change (rsum (?x :: ?y)) with (x + rsum y).
  rewrite IH. change (length (p :: l)) with (S (length l)).
  rewrite S_INR. lra.
Qed.

Lemma rsum_opp_map (A : Type) (f : A -> R) (l : list A) :
  rsum (map (fun a => - f a) l) = - rsum (map f l).
Proof.
  induction l as [|a l IH]; [cbn; lra|].
  cbn [map]. change (rsum (?x :: ?y)) with (x + rsum y). rewrite IH. lra.
Qed.

Lemma element_le_rsum (l : list R) (p : R) :
  Forall (fun q => 0 <= q) l -> In p l -> p <= rsum l.
Proof.
  induction 1 as [|q l Hq Hl IH]; intros Hin; [destruct Hin|].
  change (rsum (q :: l)) with (q + rsum l).
  pose proof (rsum_nonneg Hl).
  destruct Hin as [<- | Hin]; [lra|]. specialize (IH Hin). lra.
Qed.

Lemma plogp_nonpos (p : R) :
  0 <= p <= 1 -> (if Req_dec_T p 0 then 0 else p * ln p) <= 0.
Proof.
  intros [H0 H1]. destruct (Req_dec_T p 0) as [E|E]; [lra|].
  assert (Hln : ln p <= 0).
  { destruct (Req_dec_T p 1) as [-> | E1]; [rewrite ln_1; lra|].
    rewrite <- ln_1. left. apply ln_increasing; lra. }
  assert (0 < p) by lra. nra.
Qed.

Lemma plogp_above (p n : R) :
  0 <= p -> 0 < n ->
  - (if Req_dec_T p 0 then 0 else p * ln p) <= p * (ln n - 1) + 1 / n.
Proof.
  intros Hp Hn. destruct (Req_dec_T p 0) as [E|E].
  - subst p. assert (0 < 1 / n) by (apply Rdiv_lt_0_compat; lra). lra.
  - assert (Hp' : 0 < p) by lra.
    assert (Hz : 0 < / (n * p))
      by (apply Rinv_0_lt_compat; now apply Rmult_lt_0_compat).
    pose proof (ln_below_line Hz) as Hl.
    rewrite ln_Rinv, ln_mult in Hl
      by (assumption || now apply Rmult_lt_0_compat).
    assert (Hm : p * (- (ln n + ln p)) <= p * (/ (n * p) - 1))
      by (apply Rmult_le_compat_l; lra).
    replace (p * (/ (n * p) - 1)) with (1 / n - p) in Hm by (field; lra).
    lra.
Qed.

Lemma entropy_bounds (ps : list R) :
  Forall (fun p => 0 <= p) ps -> rsum ps = 1 ->
  0 <= entropy_of_words ps <= ln (INR (length ps)).
Proof.
  intros Hpos Hsum.
  assert (Hlen : 0 < INR (length ps)).
  { apply lt_0_INR. destruct ps; [cbn in Hsum; lra | cbn; lia]. }
  unfold entropy_of_words. split.
  - assert (H : rsum (map (fun p => if Req_dec_T p 0 then 0 else p * ln p) ps)
                <= rsum (map (fun _ => 0) ps)).
    { apply rsum_le. intros p Hp. apply plogp_nonpos.
      split; [exact (proj1 (Forall_forall _ _) Hpos p Hp)|].
      rewrite <- Hsum. now apply element_le_rsum. }
    assert (Hz : rsum (map (fun _ : R => 0) ps) = 0).
    { clear. induction ps as [|p ps IH]; [reflexivity|].
      cbn [map]. change (rsum (?x :: ?y)) with (x + rsum y). lra. }
    lra.
  - rewrite <- rsum_opp_map.
    set (n := INR (length ps)) in *.
    assert (H : rsum (map (fun p => - (if Req_dec_T p 0 then 0 else p * ln p))
                          ps)
                <= rsum (map (fun p => p * (ln n - 1) + 1 / n) ps)).
    { apply rsum_le. intros p Hp. apply plogp_above; [|exact Hlen].
      exact (proj1 (Forall_forall _ _) Hpos p Hp). }
    rewrite rsum_affine, Hsum in H. fold n in H.
    replace (n * (1 / n)) with 1 in H by (field; lra). lra.
Qed.

Lemma rsum_real_probabilities (h : list Z) :
  sum_Z h <> 0%Z -> rsum (real_probabilities h) = 1.
Proof.
  intros HS. unfold real_probabilities.
  assert (H : forall l d, rsum (map (fun c => IZR c / d) l)
                          = IZR (sum_Z l) / d).
  { intros l d. induction l as [|c l IH]; [cbn; lra|].
    cbn [map]. change (rsum (?x :: ?y)) with (x + rsum y).
    rewrite IH, sum_Z_cons, plus_IZR. lra. }
  rewrite H. field. now apply not_0_IZR.
Qed.

(** C6, in exact arithmetic: the Shannon entropy of a non-empty array of
    finite values over a positive number of bins is minus the sum of
    [p * ln p] over the bins, a bin of probability zero contributing 0; it
    lies between 0 and [ln bins].  Over the reals the width of the range
    of finite values is a number other than zero, so that the histogram is
    always built; binary64 rounds the logarithms and the sums, and raises
    [IndexError] when the width overflows. *)
Theorem shannon_entropy_bounds (s : list nat) (l : list R) (bins : Z) :
  l <> [] -> (1 <= bins)%Z ->
  exists h,
    np_histogram (real_array s l) bins = Ok h
    /\ shannon_entropy (real_array s l) bins
       = Ok (NpFloat (Fin (entropy_of_words (real_probabilities h))))
    /\ 0 <= entropy_of_words (real_probabilities h) <= ln (IZR bins).
Proof.
  intros Hl Hb.
  destruct (np_histogram_fin s l Hb) as (h & Hh & Hlen & Hpos & Hsum).
  exists h. split; [exact Hh|].
  assert (HS : (0 < sum_Z h)%Z).
  { rewrite Hsum. destruct l; [congruence | cbn [length]; lia]. }
  assert (Hne : h <> []) by (destruct h; [cbn in Hlen; lia | discriminate]).
  split.
  - unfold shannon_entropy. rewrite Hh. cbn [bind]. f_equal.
    destruct (entropy_of_histogram Hne Hpos) as [[E _] | [_ E]];
      [lia | exact E].
  - pose proof (entropy_bounds (real_probabilities_nonneg Hpos HS)
                  (rsum_real_probabilities h ltac:(lia))) as Hbound.
    unfold real_probabilities in Hbound at 3.
    rewrite length_map, Hlen, INR_IZR_INZ, Z2Nat.id in Hbound by lia.
    exact Hbound.
Qed.

End XRealBins.

(** ** The guard of [psnr] against identical inputs *)

Section PsnrGuard.

Context {F : Type} {SF : Scalar F}.
Variable peak_signal_noise_ratio : ndarray F -> ndarray F -> F -> result F.

Lemma map2_length (A B C : Type) (f : A -> B -> C) (l : list A) :
  forall m, length (map2 f l m) = Nat.min (length l) (length m).
Proof.
  induction l as [|a l IH]; intros [|b m]; try reflexivity.
  cbn [map2 length Nat.min]. now rewrite IH.
Qed.

Lemma chunks_lengths (A : Type) (n k : nat) :
  forall l : list A, length l = (k * n)%nat ->
  Forall (fun row => length row = n) (chunks n k l).
Proof.
  induction k as [|k IH]; intros l Hl; [constructor|].
  cbn [chunks]. constructor.
  - rewrite length_firstn. cbn in Hl. lia.
  - apply IH. rewrite length_skipn. cbn in Hl. lia.
Qed.

Lemma chunks_count (A : Type) (n k : nat) (l : list A) :
  length (chunks n k l) = k.
Proof.
  revert l. induction k as [|k IH]; intros l; [reflexivity|].
  cbn [chunks length]. now rewrite IH.
Qed.

Lemma fold_rows_some (c : nat) (rows : list (list F)) :
  Forall (fun row => length row = c) rows ->
  forall s, length s = c ->
  exists t, fold_left sum_step rows (Some s) = Some t /\ length t = c.
Proof.
  induction 1 as [|row rows Hrow _ IH]; intros s Hs.
  - exists s. now split.
  - cbn [fold_left sum_step]. apply IH.
    rewrite map2_length, Hs, Hrow. apply Nat.min_id.
Qed.

Lemma fold_rows_none (c : nat) (rows : list (list F)) :
  Forall (fun row => length row = c) rows -> rows <> [] ->
  exists t, fold_left sum_step rows None = Some t /\ length t = c.
Proof.
  intros Hrows Hne. destruct Hrows as [|row rows Hrow Hrows]; [congruence|].
  cbn [fold_left sum_step]. apply (fold_rows_some Hrows).
  now rewrite length_map.
Qed.

(** On a matrix with two columns or more the guard has no truth value:
    [psnr] raises whatever the two arrays hold. *)
Lemma psnr_matrix_raises (x x_ref : ndarray F) (datarange : option F)
  (dr : F) (r c : nat) :
  shape x = [r; c] -> shape x_ref = [r; c] ->
  well_formed x -> well_formed x_ref ->
  (1 <= r)%nat -> (2 <= c)%nat ->
  resolve_datarange x x_ref datarange = Ok dr ->
  psnr peak_signal_noise_ratio x x_ref datarange
  = Raise (ValueError
      "The truth value of an array with more than one element is ambiguous. Use a.any() or a.all()").
Proof.
  intros Hx Hr Wx Wr Hrows Hcols Hdr. unfold psnr. rewrite Hdr.
  cbn [bind]. unfold elementwise. rewrite Hx, Hr.
  replace (shape_eqb [r; c] [r; c]) with true
    by (symmetry; now apply shape_eqb_eq).
  cbn [bind]. unfold py_sum_array, array_map. cbn [shape data].
  set (d := map fabs (map2 fsub (data x) (data x_ref))).
  assert (Hd : length d = (r * c)%nat).
  { unfold d. rewrite length_map, map2_length.
    unfold well_formed in Wx, Wr. rewrite Wx, Wr, Hx, Hr.
    cbn [prod_shape fold_right]. lia. }
  cbn [prod_shape fold_right]. rewrite Nat.mul_1_r.
  destruct (@fold_rows_none c (chunks c r d)) as (t & -> & Ht).
  - now apply chunks_lengths.
  - intros E. apply (f_equal (@length _)) in E.
    rewrite chunks_count in E. cbn in E. lia.
  - cbn [bind py_lt_truth data].
    destruct t as [|a [|b t]]; cbn [length] in Ht; try lia. reflexivity.
Qed.

Lemma fold_singletons (l : list F) :
  forall a,
  fold_left sum_step (map (fun v => [v]) l) (Some [a])
  = Some [fold_left fadd l a].
Proof.
  induction l as [|v l IH]; intros a; [reflexivity|].
  cbn [map fold_left sum_step map2]. apply IH.
Qed.

(** On vectors the guard is the comparison of the sum of the absolute
    differences with 1e-13, and [psnr] returns NaN when it holds. *)
Lemma psnr_vector (x x_ref : ndarray F) (datarange : option F) (n : nat) :
  shape x = [n] -> shape x_ref = [n] ->
  well_formed x -> well_formed x_ref ->
  psnr peak_signal_noise_ratio x x_ref datarange
  = (dr <- resolve_datarange x x_ref datarange ;;
     if fltb (np_sum (map fabs (map2 fsub (data x) (data x_ref))))
             lit_1e_13
     then Ok np_nan
     else peak_signal_noise_ratio x x_ref dr).
Proof.
  intros Hx Hr Wx Wr. unfold psnr.
  destruct (resolve_datarange x x_ref datarange) as [dr|e]; [|reflexivity].
  cbn [bind]. unfold elementwise. rewrite Hx, Hr.
  replace (shape_eqb [n] [n]) with true by (symmetry; now apply shape_eqb_eq).
  cbn [bind]. unfold py_sum_array, array_map. cbn [shape data].
  set (d := map fabs (map2 fsub (data x) (data x_ref))).
  assert (Hd : length d = n).
  { unfold d. rewrite length_map, map2_length.
    unfold well_formed in Wx, Wr. rewrite Wx, Wr, Hx, Hr.
    cbn [prod_shape fold_right]. lia. }
  cbn [prod_shape fold_right]. rewrite <- Hd, chunks_of_one.
  unfold np_sum. destruct d as [|v d]; [reflexivity|].
  cbn [map fold_left sum_step]. rewrite fold_singletons. reflexivity.
Qed.

End PsnrGuard.

(** ** The absolute errors [mae] and [nmae] *)

Module XRealErrors.

Import XReal XRealFacts.
Local Open Scope R_scope.

Lemma elementwise_fin (f : xreal -> xreal -> xreal) (s : list nat)
  (l m : list R) :
  elementwise f (real_array s l) (real_array s m)
  = Ok (mk_array s (map2 f (map Fin l) (map Fin m))).
Proof.
  unfold elementwise, real_array. cbn [shape data].
  now replace (shape_eqb s s) with true by (symmetry; now apply shape_eqb_eq).
Qed.

Lemma abs_diff_fin (l : list R) :
  forall m,
  map fabs (map2 fsub (map Fin l) (map Fin m))
  = map Fin (map2 (fun a b => Rabs (a - b)) l m).
Proof.
  induction l as [|a l IH]; intros [|b m]; try reflexivity.
  cbn [map map2]. now rewrite IH.
Qed.

Lemma map2_nonempty (A B C : Type) (f : A -> B -> C) (l : list A)
  (m : list B) :
  length l = length m -> l <> [] -> map2 f l m <> [].
Proof.
  destruct l as [|a l], m as [|b m]; try discriminate; congruence.
Qed.

Lemma mae_fin (s : list nat) (l m : list R) :
  length l = length m -> l <> [] ->
  mae (real_array s l) (real_array s m) = Ok (Fin (mean_abs_diff l m)).
Proof.
  intros Hlen Hne. unfold mae. rewrite elementwise_fin. cbn [bind data].
  rewrite abs_diff_fin, np_mean_fin by (now apply map2_nonempty).
  reflexivity.
Qed.

Lemma map2_swap (f : R -> R -> R) (l : list R) :
  (forall a b, f a b = f b a) ->
  forall m, map2 f l m = map2 f m l.
Proof.
  intros Hf. induction l as [|a l IH]; intros [|b m]; try reflexivity.
  cbn [map2]. now rewrite Hf, IH.
Qed.

Lemma mean_abs_diff_sym (l m : list R) :
  mean_abs_diff l m = mean_abs_diff m l.
Proof.
  unfold mean_abs_diff. f_equal. apply map2_swap.
  intros a b. apply Rabs_minus_sym.
Qed.

Lemma abs_diff_nonneg (l m : list R) :
  Forall (fun v => 0 <= v) (map2 (fun a b => Rabs (a - b)) l m).
Proof.
  revert m. induction l as [|a l IH]; intros [|b m]; try constructor.
  - apply Rabs_pos.
  - apply IH.
Qed.

Lemma rmean_nonneg (l : list R) :
  Forall (fun v => 0 <= v) l -> 0 <= rmean l.
Proof.
  intros H. unfold rmean. destruct l as [|a l].
  - cbn. unfold Rdiv. rewrite Rinv_0. lra.
  - apply Rmult_le_pos; [now apply rsum_nonneg|].
    left. apply Rinv_0_lt_compat, lt_0_INR. cbn. lia.
Qed.

Lemma rmean_zero (l : list R) :
  l <> [] -> Forall (fun v => 0 <= v) l ->
  rmean l = 0 -> Forall (fun v => v = 0) l.
Proof.
  intros Hne Hpos Hz. apply rsum_zero; [exact Hpos|].
  unfold rmean in Hz.
  assert (HN : 0 < INR (length l))
    by (apply lt_0_INR; destruct l; [congruence | cbn; lia]).
  apply Rmult_integral in Hz. destruct Hz as [Hz | Hz]; [exact Hz|].
  pose proof (Rinv_0_lt_compat _ HN). lra.
Qed.

Lemma abs_diff_zero (l : list R) :
  forall m, length l = length m ->
  Forall (fun v => v = 0) (map2 (fun a b => Rabs (a - b)) l m) -> l = m.
Proof.
  induction l as [|a l IH]; intros [|b m] Hlen Hz; try discriminate;
    [reflexivity|].
  cbn [map2] in Hz. inversion Hz as [|? ? Hab Hrest]. subst.
  f_equal.
  - destruct (Req_dec_T a b) as [E|E]; [exact E|].
    apply Rminus_eq_contra in E. apply Rabs_no_R0 in E. contradiction.
  - apply IH; [now injection Hlen | exact Hrest].
Qed.

Lemma mean_abs_diff_self (l : list R) : mean_abs_diff l l = 0.
Proof.
  unfold mean_abs_diff, rmean.
  assert (H : rsum (map2 (fun a b => Rabs (a - b)) l l) = 0).
  { induction l as [|a l IH]; [reflexivity|].
    cbn [map2]. change (rsum (?x :: ?y)) with (x + rsum y).
    rewrite IH. unfold Rminus. rewrite Rplus_opp_r, Rabs_R0. lra. }
  rewrite H. unfold Rdiv. lra.
Qed.

Lemma mean_abs_diff_zero_iff (l m : list R) :
  length l = length m -> l <> [] ->
  0 <= mean_abs_diff l m /\ (mean_abs_diff l m = 0 <-> l = m).
Proof.
  intros Hlen Hne.
  split; [apply rmean_nonneg, abs_diff_nonneg|].
  split.
  - intros Hz. apply (abs_diff_zero l m Hlen).
    apply rmean_zero;
      [now apply map2_nonempty | apply abs_diff_nonneg | exact Hz].
  - intros <-. apply mean_abs_diff_self.
Qed.

(** X1. [mae] on arrays of finite values of one shape is a distance: it is
    not negative, it does not depend on the order of its arguments, and it
    is 0 exactly when the two arrays are equal. *)
Theorem mae_is_distance (s : list nat) (l m : list R) :
  length l = length m -> l <> [] ->
  mae (real_array s l) (real_array s m) = Ok (Fin (mean_abs_diff l m))
  /\ mae (real_array s m) (real_array s l) = Ok (Fin (mean_abs_diff l m))
  /\ 0 <= mean_abs_diff l m
  /\ (mean_abs_diff l m = 0 <-> l = m).
Proof.
  intros Hlen Hne.
  assert (Hne' : m <> []) by (destruct l, m; try discriminate; congruence).
  split; [now apply mae_fin|].
  split; [rewrite mean_abs_diff_sym; now apply mae_fin|].
  now apply mean_abs_diff_zero_iff.
Qed.

Lemma rsum_map2_triangle (l : list R) :
  forall m k, length l = length m -> length m = length k ->
  rsum (map2 (fun a b => Rabs (a - b)) l k)
  <= rsum (map2 (fun a b => Rabs (a - b)) l m)
     + rsum (map2 (fun a b => Rabs (a - b)) m k).
Proof.
  induction l as [|a l IH]; intros [|b m] [|c k] H1 H2; try discriminate;
    [cbn; lra|].
  cbn [map2]. change (rsum (?x :: ?y)) with (x + rsum y).
  specialize (IH m k ltac:(now injection H1) ltac:(now injection H2)).
  pose proof (Rabs_triang (a - b) (b - c)) as Ht.
  replace (a - b + (b - c)) with (a - c) in Ht by lra. lra.
Qed.

Lemma map2_length_same (A B C : Type) (f : A -> B -> C) (l : list A) :
  forall m, length l = length m -> length (map2 f l m) = length l.
Proof.
  induction l as [|a l IH]; intros [|b m] H; try discriminate;
    [reflexivity|].
  cbn [map2 length]. f_equal. apply IH. now injection H.
Qed.

(** X2. [mae] satisfies the triangle inequality. *)
Theorem mae_triangle (s : list nat) (l m k : list R) :
  length l = length m -> length m = length k -> l <> [] ->
  exists d1 d2 d3,
    mae (real_array s l) (real_array s k) = Ok (Fin d1)
    /\ mae (real_array s l) (real_array s m) = Ok (Fin d2)
    /\ mae (real_array s m) (real_array s k) = Ok (Fin d3)
    /\ d1 <= d2 + d3.
Proof.
  intros H1 H2 Hne.
  assert (Hm : m <> []) by (destruct l, m; try discriminate; congruence).
  exists (mean_abs_diff l k), (mean_abs_diff l m), (mean_abs_diff m k).
  rewrite !mae_fin by (congruence || assumption).
  repeat split.
  unfold mean_abs_diff, rmean.
  rewrite !map2_length_same by congruence. rewrite <- H1.
  assert (HN : 0 < / INR (length l)).
  { apply Rinv_0_lt_compat, lt_0_INR. destruct l; [congruence | cbn; lia]. }
  pose proof (rsum_map2_triangle l m k H1 H2) as Ht.
  unfold Rdiv. rewrite <- Rmult_plus_distr_r.
  apply Rmult_le_compat_r; lra.
Qed.

(** On arrays without elements [mae] is NaN: the mean divides 0 by 0. *)
Lemma mae_empty (s : list nat) :
  mae (real_array s []) (real_array s []) = Ok NaN.
Proof.
  unfold mae. rewrite elementwise_fin. cbn [bind data map map2].
  unfold np_mean, np_sum. cbn. rewrite Reqb_true by reflexivity.
  unfold Rltb. destruct (Rlt_dec 0 0); [lra | reflexivity].
Qed.

Lemma abs_fin (l : list R) : map fabs (map Fin l) = map Fin (map Rabs l).
Proof. now rewrite !map_map. Qed.

Lemma nmae_fin (s : list nat) (l m : list R) :
  length l = length m -> l <> [] ->
  nmae (real_array s l) (real_array s m)
  = Ok (xdiv (Fin (mean_abs_diff l m)) (Fin (mean_abs m))).
Proof.
  intros Hlen Hne.
  assert (Hm : m <> []) by (destruct l, m; try discriminate; congruence).
  unfold nmae. rewrite mae_fin by assumption. cbn [bind].
  unfold real_array at 1. cbn [data].
  rewrite abs_fin, np_mean_fin by (destruct m; [congruence | discriminate]).
  reflexivity.
Qed.

Lemma mean_abs_zero (m : list R) :
  m <> [] -> (mean_abs m = 0 <-> Forall (fun v => v = 0) m).
Proof.
  intros Hne. unfold mean_abs. split.
  - intros Hz. apply rmean_zero in Hz.
    + rewrite Forall_forall in *. intros v Hv.
      specialize (Hz (Rabs v) (in_map Rabs m v Hv)).
      destruct (Req_dec_T v 0) as [E|E]; [exact E|].
      apply Rabs_no_R0 in E. contradiction.
    + destruct m; [congruence | discriminate].
    + apply Forall_forall. intros v Hv. apply in_map_iff in Hv.
      destruct Hv as (w & <- & _). apply Rabs_pos.
  - intros Hz. unfold rmean.
    assert (H : rsum (map Rabs m) = 0).
    { clear Hne. induction Hz as [|v m Hv _ IH]; [reflexivity|].
      cbn [map]. change (rsum (?x :: ?y)) with (x + rsum y).
      subst v. rewrite Rabs_R0, IH. lra. }
    rewrite H. unfold Rdiv. lra.
Qed.

(** X3, in exact arithmetic.  On two non-empty arrays of as many finite
    values, with a reference that is zero everywhere, [nmae] divides by
    zero: the result is NaN when the other array is zero too and +inf
    otherwise, and nothing is raised.  (In binary64 a mean absolute
    difference that underflows to zero gives NaN as well.) *)
Theorem nmae_zero_reference (s : list nat) (l m : list R) :
  length l = length m -> l <> [] -> Forall (fun v => v = 0) m ->
  (l = m -> nmae (real_array s l) (real_array s m) = Ok NaN)
  /\ (l <> m -> nmae (real_array s l) (real_array s m) = Ok PInf).
Proof.
  intros Hlen Hne Hz.
  assert (Hm : m <> []) by (destruct l, m; try discriminate; congruence).
  rewrite nmae_fin by assumption.
  rewrite (proj2 (mean_abs_zero Hm) Hz).
  destruct (@mean_abs_diff_zero_iff l m Hlen Hne) as (Hpos & Hiff).
  cbn [xdiv]. rewrite Reqb_true by reflexivity. cbn [sgn]. split.
  - intros E. rewrite (proj2 Hiff E).
    rewrite !Rltb_false by lra. reflexivity.
  - intros E. rewrite Rltb_true; [reflexivity|].
    destruct (Rle_lt_or_eq_dec _ _ Hpos) as [H | H]; [exact H|].
    exfalso. apply E, Hiff. now symmetry.
Qed.

Lemma rsum_scale (a : R) (l : list R) :
  rsum (map (Rmult a) l) = a * rsum l.
Proof.
  induction l as [|v l IH]; [cbn; lra|].
  cbn [map]. change (rsum (?x :: ?y)) with (x + rsum y). rewrite IH. lra.
Qed.

Lemma abs_diff_scale (a : R) (l : list R) :
  forall m,
  map2 (fun x y => Rabs (x - y)) (map (Rmult a) l) (map (Rmult a) m)
  = map (Rmult (Rabs a)) (map2 (fun x y => Rabs (x - y)) l m).
Proof.
  induction l as [|v l IH]; intros [|w m]; try reflexivity.
  cbn [map map2]. rewrite IH. f_equal.
  rewrite <- Rabs_mult. f_equal. lra.
Qed.

Lemma mean_abs_diff_scale (a : R) (l m : list R) :
  mean_abs_diff (map (Rmult a) l) (map (Rmult a) m)
  = Rabs a * mean_abs_diff l m.
Proof.
  unfold mean_abs_diff, rmean.
  rewrite abs_diff_scale, rsum_scale, length_map. unfold Rdiv. lra.
Qed.

Lemma mean_abs_scale (a : R) (m : list R) :
  mean_abs (map (Rmult a) m) = Rabs a * mean_abs m.
Proof.
  unfold mean_abs, rmean. rewrite !length_map, map_map.
  rewrite (map_ext (fun v => Rabs (a * v)) (fun v => Rabs a * Rabs v))
    by (intros v; apply Rabs_mult).
  rewrite <- (map_map Rabs (Rmult (Rabs a))), rsum_scale.
  unfold Rdiv. lra.
Qed.

(** X4, in exact arithmetic.  On two non-empty arrays of as many finite
    values, the reference not zero everywhere, [nmae] is the mean absolute
    difference divided by the mean absolute value of the reference, and it
    does not change when both arrays are multiplied by the same non-zero
    factor.  (In binary64 the two results agree up to rounding.) *)
Theorem nmae_scale_invariant (s : list nat) (l m : list R) (a : R) :
  length l = length m -> l <> [] -> a <> 0 ->
  ~ Forall (fun v => v = 0) m ->
  nmae (real_array s l) (real_array s m)
  = Ok (Fin (mean_abs_diff l m / mean_abs m))
  /\ nmae (real_array s (map (Rmult a) l)) (real_array s (map (Rmult a) m))
     = Ok (Fin (mean_abs_diff l m / mean_abs m)).
Proof.
  intros Hlen Hne Ha Hnz.
  assert (Hm : m <> []) by (destruct l, m; try discriminate; congruence).
  assert (Hq : mean_abs m <> 0)
    by (intros E; apply Hnz; now apply mean_abs_zero).
  assert (Habs : Rabs a <> 0) by (now apply Rabs_no_R0).
  split.
  - rewrite nmae_fin by assumption. f_equal. now apply xdiv_fin.
  - rewrite nmae_fin
      by first [ rewrite !length_map; assumption
               | destruct l; [congruence | discriminate] ].
    rewrite mean_abs_diff_scale, mean_abs_scale.
    rewrite xdiv_fin by (apply Rmult_integral_contrapositive_currified;
                         assumption).
    do 2 f_equal. field. split; assumption.
Qed.

End XRealErrors.

(** ** More on the normalized cross correlation *)

Module XRealCorrelation.

Import XReal XRealFacts.
Local Open Scope R_scope.

Lemma cross_dev_sym (l m : list R) : cross_dev l m = cross_dev m l.
Proof.
  unfold cross_dev. generalize (rmean l) (rmean m). intros c d. f_equal.
  revert m. induction l as [|a l IH]; intros [|b m]; try reflexivity.
  cbn [map2]. rewrite IH. f_equal. lra.
Qed.

Lemma xdiv_nan_r (a : xreal) : xdiv a NaN = NaN.
Proof. now destruct a. Qed.

Lemma xmul_nan_r (a : xreal) : xmul a NaN = NaN.
Proof. now destruct a. Qed.

(** With the divisor [N - 1] the standard deviation of a single value is
    0 / 0. *)
Lemma np_std_single (a : R) : np_std 1 [Fin a] = NaN.
Proof.
  unfold np_std. change [Fin a] with (map Fin [a]).
  rewrite np_mean_fin by discriminate.
  cbn [map length Nat.sub fsub fmul xreal_scalar xsub xneg xadd xmul].
  change [Fin ?x] with (map Fin [x]). rewrite np_sum_fin.
  cbn [Z.of_nat of_Z fdiv fsqrt xreal_scalar xdiv].
  rewrite Reqb_true by reflexivity.
  assert (E : rsum [(a + - rmean [a]) * (a + - rmean [a])] = 0).
  { unfold rmean. cbn [rsum fold_right length INR]. field. }
  rewrite E. cbn [sgn]. rewrite !Rltb_false by lra. reflexivity.
Qed.

(** Arrays with fewer than two elements have no correlation: the result is
    NaN. *)
Lemma ncc_short (s : list nat) (l m : list R) :
  length l = length m -> (length l < 2)%nat ->
  normalized_cross_correlation (real_array s l) (real_array s m) = Ok NaN.
Proof.
  intros Hlen Hshort.
  unfold normalized_cross_correlation, elementwise, array_map, real_array.
  cbn [shape data size].
  replace (shape_eqb s s) with true by (symmetry; now apply shape_eqb_eq).
  cbn [negb bind data].
  destruct l as [|a [|a' l]], m as [|b [|b' m]]; try discriminate;
    cbn [length] in Hshort; try lia.
  - cbn [map map2 length]. unfold np_std, np_mean, np_sum.
    cbn [map length fold_left Nat.sub Z.of_nat of_Z fdiv fsqrt fmul fzero
         xreal_scalar xdiv xsqrt xmul].
    rewrite !Reqb_true by reflexivity. cbn [sgn].
    rewrite !Rltb_false by lra. reflexivity.
  - cbn [map]. rewrite !np_std_single.
    cbn [fmul fdiv xreal_scalar]. now rewrite xmul_nan_r, xdiv_nan_r.
Qed.

Lemma ncc_swap (s : list nat) (l m : list R) :
  length l = length m ->
  normalized_cross_correlation (real_array s l) (real_array s m)
  = normalized_cross_correlation (real_array s m) (real_array s l).
Proof.
  intros Hlen.
  destruct (Nat.lt_ge_cases (length l) 2) as [Hshort | Hlong].
  - rewrite !ncc_short by lia. reflexivity.
  - rewrite !ncc_fin by lia. rewrite cross_dev_sym, <- Hlen.
    do 3 f_equal. rewrite Hlen. ring.
Qed.

(** X5, in exact arithmetic.  On arrays of as many finite values the
    correlation does not depend on the order of its arguments: with equal
    shapes the two values are equal, with different shapes both calls raise
    the same error.  (In binary64 the products are formed in the order of
    the arguments and the two values agree up to rounding.) *)
Theorem ncc_symmetric (s t : list nat) (l m : list R) :
  length l = length m ->
  normalized_cross_correlation (real_array s l) (real_array t m)
  = normalized_cross_correlation (real_array t m) (real_array s l).
Proof.
  intros Hlen.
  destruct (list_eq_dec Nat.eq_dec s t) as [<- | Hst].
  - now apply ncc_swap.
  - unfold normalized_cross_correlation, real_array. cbn [shape].
    rewrite (shape_eqb_neq Hst).
    now rewrite (shape_eqb_neq (fun E => Hst (eq_sym E))).
Qed.

(** Cauchy-Schwarz, for the sums of products the correlation is made of *)
Lemma rsum_squares_nonneg (l : list R) :
  0 <= rsum (map (fun v => v * v) l).
Proof.
  apply rsum_nonneg, Forall_forall. intros v Hv.
  apply in_map_iff in Hv. destruct Hv as (w & <- & _). apply (Rle_0_sqr w).
Qed.

Lemma cauchy_schwarz (l : list R) :
  forall m,
  rsum (map2 Rmult l m) * rsum (map2 Rmult l m)
  <= rsum (map (fun v => v * v) l) * rsum (map (fun v => v * v) m).
Proof.
  induction l as [|a l IH]; intros [|b m].
  - cbn. lra.
  - cbn [map2 map]. pose proof (rsum_squares_nonneg (b :: m)). cbn in *. lra.
  - cbn [map2 map]. pose proof (rsum_squares_nonneg (a :: l)). cbn in *. lra.
  - cbn [map2 map]. change (rsum (?x :: ?y)) with (x + rsum y).
    specialize (IH m).
    pose proof (rsum_squares_nonneg l) as HA.
    pose proof (rsum_squares_nonneg m) as HB.
    set (S := rsum (map2 Rmult l m)) in *.
    set (A := rsum (map (fun v => v * v) l)) in *.
    set (B := rsum (map (fun v => v * v) m)) in *.
    assert (H : 2 * (a * b * S) <= a * a * B + A * (b * b)).
    { destruct (Rle_lt_or_eq_dec _ _ HA) as [Apos | Azero].
      - pose proof (Rle_0_sqr (A * b - a * S)) as H1. unfold Rsqr in H1.
        assert (H2 : 0 <= a * a * (A * B - S * S))
          by (apply Rmult_le_pos; [apply (Rle_0_sqr a) | lra]).
        assert (H3 : 0 <= A * (a * a * B + A * (b * b) - 2 * (a * b * S)))
          by nra.
        nra.
      - rewrite <- Azero in *.
        assert (HS : S = 0) by nra. rewrite HS.
        pose proof (Rle_0_sqr a) as Ha. unfold Rsqr in Ha. nra. }
    nra.
Qed.

Lemma cross_dev_products (l m : list R) :
  cross_dev l m
  = rsum (map2 Rmult (map (fun v => v - rmean l) l)
                     (map (fun v => v - rmean m) m)).
Proof.
  unfold cross_dev. generalize (rmean l) (rmean m). intros c d. f_equal.
  revert m. induction l as [|a l IH]; intros [|b m]; try reflexivity.
  cbn [map map2]. now rewrite IH.
Qed.

Lemma sq_dev_squares (l : list R) :
  sq_dev l = rsum (map (fun v => v * v) (map (fun v => v - rmean l) l)).
Proof. unfold sq_dev. now rewrite map_map. Qed.

Lemma cross_dev_bound (l m : list R) :
  cross_dev l m * cross_dev l m <= sq_dev l * sq_dev m.
Proof.
  rewrite cross_dev_products, !sq_dev_squares. apply cauchy_schwarz.
Qed.

(** X6. The docstring's "scalar value between -1 and 1": for two non-constant
    arrays of [N] finite values the correlation is a real number of absolute
    value at most [(N - 1) / N]. *)
Theorem ncc_bounded (s : list nat) (l m : list R) :
  length l = length m -> non_constant l -> non_constant m ->
  let n := INR (length l) in
  exists r,
    normalized_cross_correlation (real_array s l) (real_array s m)
    = Ok (Fin r)
    /\ - ((n - 1) / n) <= r <= (n - 1) / n
    /\ -1 < r < 1.
Proof.
  intros Hlen Hl Hm n.
  pose proof (non_constant_length Hl) as Hlong.
  pose proof (non_constant_sq_dev Hl) as Hql.
  pose proof (non_constant_sq_dev Hm) as Hqm.
  assert (Hn : 1 < n) by (unfold n; apply (lt_INR 1); lia).
  assert (Hn1 : INR (length l - 1) = n - 1)
    by (unfold n; rewrite minus_INR by lia; reflexivity).
  rewrite ncc_fin by lia. rewrite <- Hlen, Hn1. fold n.
  set (sl := R_sqrt.sqrt (sq_dev l / (n - 1))).
  set (sm := R_sqrt.sqrt (sq_dev m / (n - 1))).
  assert (Hsl : 0 < sl) by (apply sqrt_lt_R0, Rdiv_lt_0_compat; lra).
  assert (Hsm : 0 < sm) by (apply sqrt_lt_R0, Rdiv_lt_0_compat; lra).
  assert (Hsl2 : sl * sl = sq_dev l / (n - 1))
    by (apply sqrt_sqrt; left; apply Rdiv_lt_0_compat; lra).
  assert (Hsm2 : sm * sm = sq_dev m / (n - 1))
    by (apply sqrt_sqrt; left; apply Rdiv_lt_0_compat; lra).
  assert (HP : 0 < sl * sm) by (now apply Rmult_lt_0_compat).
  assert (HD : 0 < n * sl * sm) by (rewrite Rmult_assoc; apply Rmult_lt_0_compat; lra).
  rewrite xdiv_fin by lra.
  exists (cross_dev l m / (n * sl * sm)). split; [reflexivity|].
  set (C := cross_dev l m).
  assert (HC : C * C <= ((n - 1) * (sl * sm)) * ((n - 1) * (sl * sm))).
  { replace (((n - 1) * (sl * sm)) * ((n - 1) * (sl * sm)))
      with ((n - 1) * (n - 1) * ((sl * sl) * (sm * sm))) by ring.
    rewrite Hsl2, Hsm2.
    replace ((n - 1) * (n - 1) * (sq_dev l / (n - 1) * (sq_dev m / (n - 1))))
      with (sq_dev l * sq_dev m) by (field; lra).
    apply cross_dev_bound. }
  assert (HK : 0 <= (n - 1) * (sl * sm)) by (apply Rmult_le_pos; lra).
  assert (Habs : - ((n - 1) * (sl * sm)) <= C <= (n - 1) * (sl * sm)).
  { split; nra. }
  assert (Hr : - ((n - 1) / n) <= C / (n * sl * sm) <= (n - 1) / n).
  { replace ((n - 1) / n) with (((n - 1) * (sl * sm)) / (n * sl * sm))
      by (field; lra).
    assert (Hinv : 0 < / (n * sl * sm)) by (now apply Rinv_0_lt_compat).
    split.
    - replace (- ((n - 1) * (sl * sm) / (n * sl * sm)))
        with (- ((n - 1) * (sl * sm)) * / (n * sl * sm))
        by (unfold Rdiv; ring).
      unfold Rdiv. apply Rmult_le_compat_r; lra.
    - unfold Rdiv. apply Rmult_le_compat_r; lra. }
  split; [exact Hr|].
  assert (Hlt : (n - 1) / n < 1).
  { apply Rmult_lt_reg_r with n; [lra|]. unfold Rdiv.
    rewrite Rmult_assoc, Rinv_l by lra. lra. }
  lra.
Qed.

Lemma rmean_constant (c : R) (l : list R) :
  l <> [] -> Forall (fun v => v = c) l -> rmean l = c.
Proof.
  intros Hne Hc. unfold rmean.
  assert (H : rsum l = INR (length l) * c).
  { clear Hne. induction Hc as [|v l Hv _ IH]; [cbn; lra|].
    change (rsum (v :: l)) with (v + rsum l).
    change (length (v :: l)) with (S (length l)).
    rewrite S_INR, IH, Hv. lra. }
  rewrite H. field. apply not_0_INR. destruct l; [congruence | discriminate].
Qed.

Lemma sq_dev_constant (c : R) (l : list R) :
  l <> [] -> Forall (fun v => v = c) l -> sq_dev l = 0.
Proof.
  intros Hne Hc. unfold sq_dev. rewrite (rmean_constant Hne Hc).
  clear Hne. induction Hc as [|v l Hv _ IH]; [reflexivity|].
  cbn [map]. change (rsum (?x :: ?y)) with (x + rsum y).
  rewrite IH, Hv. lra.
Qed.

Lemma cross_dev_constant (c : R) (l m : list R) :
  l <> [] -> Forall (fun v => v = c) l -> cross_dev l m = 0.
Proof.
  intros Hne Hc. unfold cross_dev. rewrite (rmean_constant Hne Hc).
  generalize (rmean m). intros d. clear Hne. revert m.
  induction Hc as [|v l Hv _ IH]; intros [|b m]; try reflexivity.
  cbn [map2]. change (rsum (?x :: ?y)) with (x + rsum y).
  rewrite IH, Hv. lra.
Qed.

(** X7, in exact arithmetic.  Zero variance: when one array of finite
    values is constant, its correlation with any array of the same shape
    and of as many finite values is 0 / 0, NaN, in either order, and
    nothing is raised.  (In binary64 the mean of a constant array can
    differ from its elements by rounding; the deviations are then not
    zero and the result is a number.) *)
Theorem ncc_constant (s : list nat) (c : R) (l m : list R) :
  length l = length m -> Forall (fun v => v = c) l ->
  normalized_cross_correlation (real_array s l) (real_array s m) = Ok NaN
  /\ normalized_cross_correlation (real_array s m) (real_array s l) = Ok NaN.
Proof.
  intros Hlen Hc.
  assert (H : normalized_cross_correlation (real_array s l) (real_array s m)
              = Ok NaN).
  { destruct (Nat.lt_ge_cases (length l) 2) as [Hshort | Hlong];
      [now apply ncc_short|].
    assert (Hne : l <> []) by (destruct l; [cbn in Hlong; lia | discriminate]).
    rewrite ncc_fin by lia.
    rewrite (cross_dev_constant m Hne Hc), (sq_dev_constant Hne Hc).
    unfold Rdiv at 1. rewrite Rmult_0_l, sqrt_0, Rmult_0_r, Rmult_0_l.
    cbn [xdiv]. rewrite Reqb_true by reflexivity. cbn [sgn].
    rewrite !Rltb_false by lra. reflexivity. }
  split; [exact H|]. now rewrite <- (@ncc_swap s l m Hlen).
Qed.

Lemma rsum_affine_map (a b : R) (l : list R) :
  rsum (map (fun v => a * v + b) l) = a * rsum l + INR (length l) * b.
Proof.
  induction l as [|v l IH]; [cbn; lra|].
  cbn [map]. change (rsum (?x :: ?y)) with (x + rsum y).
  change (length (v :: l)) with (S (length l)). rewrite S_INR, IH. lra.
Qed.

Lemma rmean_affine (a b : R) (l : list R) :
  l <> [] -> rmean (map (fun v => a * v + b) l) = a * rmean l + b.
Proof.
  intros Hne. unfold rmean. rewrite rsum_affine_map, length_map.
  field. apply not_0_INR. destruct l; [congruence | discriminate].
Qed.

Lemma sq_dev_affine (a b : R) (l : list R) :
  l <> [] -> sq_dev (map (fun v => a * v + b) l) = a * a * sq_dev l.
Proof.
  intros Hne. unfold sq_dev. rewrite (rmean_affine a b Hne), map_map.
  generalize (rmean l). intros c. clear Hne.
  induction l as [|v l IH]; [cbn; lra|].
  cbn [map]. change (rsum (?x :: ?y)) with (x + rsum y). rewrite IH. ring.
Qed.

Lemma cross_dev_affine (a b : R) (l m : list R) :
  l <> [] ->
  cross_dev (map (fun v => a * v + b) l) m = a * cross_dev l m.
Proof.
  intros Hne. unfold cross_dev. rewrite (rmean_affine a b Hne).
  generalize (rmean l) (rmean m). intros c d. clear Hne. revert m.
  induction l as [|v l IH]; intros [|w m]; try (cbn; lra).
  cbn [map map2]. change (rsum (?x :: ?y)) with (x + rsum y).
  rewrite IH. ring.
Qed.

Lemma xdiv_scale (a x y : R) :
  0 < a -> xdiv (Fin (a * x)) (Fin (a * y)) = xdiv (Fin x) (Fin y).
Proof.
  intros Ha. cbn [xdiv]. unfold Reqb.
  destruct (Req_dec_T y 0) as [E | E].
  - subst y. destruct (Req_dec_T (a * 0) 0) as [_ | E']; [|lra].
    cbn [sgn]. unfold Rltb.
    destruct (Rlt_dec 0 (a * x)), (Rlt_dec 0 x), (Rlt_dec (a * x) 0),
      (Rlt_dec x 0); try reflexivity; nra.
  - destruct (Req_dec_T (a * y) 0) as [E' | _]; [nra|].
    f_equal. field. split; lra.
Qed.

(** X8. The correlation is unchanged when one array is rescaled by a positive
    factor and shifted: [ncc(a * x + b, y) = ncc(x, y)] for [a > 0]. *)
Theorem ncc_affine_invariant (s : list nat) (l m : list R) (a b : R) :
  length l = length m -> 0 < a ->
  normalized_cross_correlation
    (real_array s (map (fun v => a * v + b) l)) (real_array s m)
  = normalized_cross_correlation (real_array s l) (real_array s m).
Proof.
  intros Hlen Ha.
  destruct (Nat.lt_ge_cases (length l) 2) as [Hshort | Hlong].
  - rewrite !ncc_short by (rewrite ?length_map; lia). reflexivity.
  - assert (Hne : l <> [])
      by (destruct l; [cbn in Hlong; lia | discriminate]).
    rewrite !ncc_fin by (rewrite ?length_map; lia).
    rewrite length_map, (cross_dev_affine a b m Hne), (sq_dev_affine a b Hne).
    assert (Hk : 0 < INR (length l - 1)) by (apply lt_0_INR; lia).
    assert (Hq : 0 <= sq_dev l / INR (length l - 1)).
    { apply Rmult_le_pos; [apply sq_dev_nonneg|].
      left. now apply Rinv_0_lt_compat. }
    replace (a * a * sq_dev l / INR (length l - 1))
      with ((a * a) * (sq_dev l / INR (length l - 1)))
      by (unfold Rdiv; ring).
    rewrite sqrt_mult by (nra || assumption).
    rewrite sqrt_square by lra.
    rewrite <- (xdiv_scale (cross_dev l m) _ Ha). do 3 f_equal. ring.
Qed.

End XRealCorrelation.

(** ** Marginal counts of a joint histogram *)

Section Marginals.

Context {F : Type} {SF : Scalar F}.
Variable A : Type.

Lemma sum_Z_zeros_map (B : Type) (l : list B) :
  sum_Z (map (fun _ => 0%Z) l) = 0%Z.
Proof.
  induction l as [|b l IH]; [reflexivity|].
  cbn [map]. now rewrite sum_Z_cons, IH.
Qed.

(** Summing the counts of a condition over the bins of a key gives the
    count of the condition, when every key has a bin. *)
Lemma marginal_counts (P : A -> bool) (key : A -> F) (edges : list F)
  (n : nat) (ps : list A) :
  (forall p, In p ps ->
             exists j, bin_of edges n (key p) = Some j /\ (j < n)%nat) ->
  sum_Z (map (fun j => Z.of_nat (count (fun p => P p
                                           && in_bin edges n j (key p)) ps))
             (seq 0 n))
  = Z.of_nat (count P ps).
Proof.
  induction ps as [|v ps IH]; intros Hbin.
  - cbn [count filter length]. apply sum_Z_zeros_map.
  - rewrite (map_ext _
      (fun j => Z.of_nat (if P v && in_bin edges n j (key v) then 1 else 0)
                + Z.of_nat (count (fun p => P p && in_bin edges n j (key p))
                                  ps))%Z)
      by (intros j; rewrite count_cons; lia).
    rewrite sum_Z_map_add, IH by (intros w Hw; apply Hbin; now right).
    rewrite count_cons.
    destruct (Hbin v (or_introl eq_refl)) as (j & Hj & Hlt).
    unfold in_bin at 1. rewrite Hj.
    destruct (P v); cbn [andb].
    + rewrite (sum_Z_indicator Hlt). lia.
    + rewrite sum_Z_zeros_map. lia.
Qed.

End Marginals.

Section JointTotals.

Context {F : Type} {SF : Scalar F}.

(** Row sums: the counts of a row add up to the count of its bin. *)
Lemma joint_row_sum (ex ey : list F) (n i : nat) (ps : list (F * F)) :
  (forall p, In p ps -> has_bin ey n (snd p)) ->
  sum_Z (map (fun j => joint_count ex ey n i j ps) (seq 0 n))
  = Z.of_nat (count (fun p => in_bin ex n i (fst p)) ps).
Proof.
  intros Hy. unfold joint_count.
  apply (marginal_counts (fun p => in_bin ex n i (fst p)) snd ey ps Hy).
Qed.

(** Column sums *)
Lemma joint_column_sum (ex ey : list F) (n j : nat) (ps : list (F * F)) :
  (forall p, In p ps -> has_bin ex n (fst p)) ->
  sum_Z (map (fun i => joint_count ex ey n i j ps) (seq 0 n))
  = Z.of_nat (count (fun p => in_bin ey n j (snd p)) ps).
Proof.
  intros Hx. unfold joint_count.
  rewrite <- (marginal_counts (fun p => in_bin ey n j (snd p)) fst ex ps Hx).
  f_equal. apply map_ext. intros i. f_equal. apply count_ext.
  intros p _. apply andb_comm.
Qed.

Lemma count_true (A : Type) (l : list A) :
  count (fun _ => true) l = length l.
Proof. apply count_all. reflexivity. Qed.

(** Every pair whose two values have bins is counted once. *)
Lemma joint_total (ex ey : list F) (n : nat) (ps : list (F * F)) :
  (forall p, In p ps -> has_bin ex n (fst p)) ->
  (forall p, In p ps -> has_bin ey n (snd p)) ->
  sum_Z (flat_map (fun i => map (fun j => joint_count ex ey n i j ps)
                                (seq 0 n)) (seq 0 n))
  = Z.of_nat (length ps).
Proof.
  intros Hx Hy. rewrite sum_Z_flat_map.
  rewrite (map_ext _ (fun i => Z.of_nat (count (fun p => in_bin ex n i (fst p))
                                               ps)))
    by (intros i; now apply joint_row_sum).
  rewrite <- (count_true ps).
  rewrite <- (marginal_counts (fun _ => true) fst ex ps Hx).
  f_equal.
Qed.

Lemma count_fst_combine (p : F -> bool) (x : list F) :
  forall y, length x = length y ->
  count (fun c : F * F => p (fst c)) (combine x y) = count p x.
Proof.
  unfold count. induction x as [|a x IH]; intros [|b y] H; try discriminate;
    [reflexivity|].
  cbn [combine filter fst]. injection H as H.
  destruct (p a); cbn [length]; now rewrite IH.
Qed.

Lemma count_snd_combine (p : F -> bool) (x : list F) :
  forall y, length x = length y ->
  count (fun c : F * F => p (snd c)) (combine x y) = count p y.
Proof.
  unfold count. induction x as [|a x IH]; intros [|b y] H; try discriminate;
    [reflexivity|].
  cbn [combine filter snd]. injection H as H.
  destruct (p b); cbn [length]; now rewrite IH.
Qed.

Lemma in_combine_both (x : list F) :
  forall (y : list F) (p : F * F),
  In p (combine x y) -> In (fst p) x /\ In (snd p) y.
Proof.
  intros y [a b] H. split;
    [eapply in_combine_l | eapply in_combine_r]; exact H.
Qed.

End JointTotals.

(** ** Entropies of degenerate and of identical inputs *)

Module XRealDegenerate.

Import XReal XRealFacts XRealRange XRealEntropy XRealBins.
Local Open Scope R_scope.

Lemma np_histogram_explicit (s : list nat) (l : list R) (bins : Z) :
  (1 <= bins)%Z ->
  np_histogram (real_array s l) bins
  = Ok (map (fun i => Z.of_nat (count (in_bin (bin_edges l (Z.to_nat bins))
                                              (Z.to_nat bins) i)
                                      (map Fin l)))
            (seq 0 (Z.to_nat bins))).
Proof.
  intros Hb. unfold np_histogram, real_array. cbn [data].
  rewrite (proj2 (Z.ltb_ge bins 1) Hb), outer_edges_fin. cbn [bind].
  rewrite (width_finite _ (outer_edges_fin l)). cbn [negb].
  now rewrite linspace_fin by lia.
Qed.

Lemma np_histogram2d_explicit (x y : list R) (bins : Z) :
  length x = length y -> (1 <= bins)%Z ->
  let n := Z.to_nat bins in
  np_histogram2d (map Fin x) (map Fin y) bins
  = Ok (flat_map
          (fun i =>
             map (fun j =>
                    Z.of_nat
                      (count (fun p => in_bin (bin_edges x n) n i (fst p)
                                       && in_bin (bin_edges y n) n j (snd p))
                             (combine (map Fin x) (map Fin y))))
                 (seq 0 n))
          (seq 0 n)).
Proof.
  intros Hlen Hb n. unfold np_histogram2d.
  rewrite !length_map. rewrite (proj2 (Nat.eqb_eq _ _) Hlen). cbn [negb].
  rewrite (proj2 (Z.ltb_ge bins 1) Hb), !outer_edges_fin. cbn [bind].
  now rewrite !linspace_fin by lia.
Qed.

Lemma count_constant (A : Type) (p : A -> bool) (v : A) (l : list A) :
  Forall (fun w => w = v) l ->
  count p l = if p v then length l else 0%nat.
Proof.
  induction 1 as [|w l Hw _ IH]; [now destruct (p v)|].
  rewrite count_cons, IH, Hw. destruct (p v); reflexivity.
Qed.

Lemma plogp_zero_one (ps : list R) :
  Forall (fun p => p = 0 \/ p = 1) ps -> entropy_of_words ps = 0.
Proof.
  intros H. unfold entropy_of_words.
  assert (Hz : rsum (map (fun p => if Req_dec_T p 0 then 0 else p * ln p) ps)
               = 0).
  { induction H as [|p ps Hp _ IH]; [reflexivity|].
    cbn [map]. change (rsum (?x :: ?y)) with (x + rsum y). rewrite IH.
    destruct (Req_dec_T p 0) as [E|E]; [lra|].
    destruct Hp as [Hp | Hp]; [contradiction|]. subst p. rewrite ln_1. lra. }
  rewrite Hz. lra.
Qed.

Lemma probabilities_zero_one (h : list Z) :
  (0 < sum_Z h)%Z -> Forall (fun c => c = 0%Z \/ c = sum_Z h) h ->
  Forall (fun p => p = 0 \/ p = 1) (real_probabilities h).
Proof.
  intros HS Hh. unfold real_probabilities. apply Forall_forall.
  intros p Hp. apply in_map_iff in Hp. destruct Hp as (c & <- & Hc).
  rewrite Forall_forall in Hh. destruct (Hh c Hc) as [-> | ->].
  - left. unfold Rdiv. lra.
  - right. field. apply not_0_IZR. lia.
Qed.

Lemma entropy_single_bin (h : list Z) :
  h <> [] -> Forall (fun c => 0 <= c)%Z h -> (0 < sum_Z h)%Z ->
  Forall (fun c => c = 0%Z \/ c = sum_Z h) h ->
  entropy_of (probabilities h) = NpFloat (Fin 0).
Proof.
  intros Hne Hpos HS Hh.
  destruct (entropy_of_histogram Hne Hpos) as [[E _] | [_ ->]]; [lia|].
  now rewrite (plogp_zero_one (probabilities_zero_one HS Hh)).
Qed.

Lemma constant_map (c : R) (l : list R) :
  Forall (fun v => v = c) l -> Forall (fun w => w = Fin c) (map Fin l).
Proof.
  intros H. apply Forall_forall. intros w Hw. apply in_map_iff in Hw.
  destruct Hw as (v & <- & Hv). rewrite Forall_forall in H.
  now rewrite (H v Hv).
Qed.

(** The histogram of a constant array has all its counts in one bin. *)
Lemma histogram_constant (s : list nat) (c : R) (l : list R) (bins : Z) :
  l <> [] -> Forall (fun v => v = c) l -> (1 <= bins)%Z ->
  exists h, np_histogram (real_array s l) bins = Ok h
            /\ h <> [] /\ Forall (fun c => 0 <= c)%Z h
            /\ (0 < sum_Z h)%Z
            /\ Forall (fun c => c = 0%Z \/ c = sum_Z h) h.
Proof.
  intros Hne Hc Hb.
  destruct (np_histogram_fin s l Hb) as (h & Hh & Hlen & Hpos & Hsum).
  exists h. split; [exact Hh|].
  split; [destruct h; [cbn in Hlen; lia | discriminate]|].
  split; [exact Hpos|].
  assert (HS : (0 < sum_Z h)%Z)
    by (rewrite Hsum; destruct l; [congruence | cbn [length]; lia]).
  split; [exact HS|].
  rewrite np_histogram_explicit in Hh by exact Hb. injection Hh as <-.
  apply Forall_forall. intros k Hk. apply in_map_iff in Hk.
  destruct Hk as (i & <- & _).
  rewrite (count_constant _ (constant_map Hc)), length_map, Hsum.
  destruct (in_bin _ _ i (Fin c)); [now right | now left].
Qed.

(** A constant array has entropy 0, whatever the number of bins. *)
Lemma shannon_entropy_constant (s : list nat) (c : R) (l : list R)
  (bins : Z) :
  l <> [] -> Forall (fun v => v = c) l -> (1 <= bins)%Z ->
  shannon_entropy (real_array s l) bins = Ok (NpFloat (Fin 0)).
Proof.
  intros Hne Hc Hb.
  destruct (histogram_constant s Hne Hc Hb) as (h & Hh & Hn & Hp & HS & H01).
  unfold shannon_entropy. rewrite Hh. cbn [bind].
  now rewrite entropy_single_bin.
Qed.

End XRealDegenerate.

(** ** The joint histogram of two arrays of finite values *)

Module XRealJoint.

Import XReal XRealFacts XRealRange XRealEntropy XRealBins XRealDegenerate.
Local Open Scope R_scope.

Lemma has_bin_fin (l : list R) (n : nat) (v : R) :
  In v l -> (1 <= n)%nat -> has_bin (bin_edges l n) n (Fin v).
Proof.
  intros Hv Hn. unfold has_bin, bin_edges.
  apply bin_of_fin;
    [apply real_edges_lt | now apply real_edges_bound | exact Hn].
Qed.

Lemma has_bin_fst (x y : list R) (n : nat) (p : xreal * xreal) :
  (1 <= n)%nat -> In p (combine (map Fin x) (map Fin y)) ->
  has_bin (bin_edges x n) n (fst p).
Proof.
  intros Hn Hp. destruct p as [a b]. apply in_combine_l in Hp.
  apply in_map_iff in Hp. destruct Hp as (v & <- & Hv).
  now apply has_bin_fin.
Qed.

Lemma has_bin_snd (x y : list R) (n : nat) (p : xreal * xreal) :
  (1 <= n)%nat -> In p (combine (map Fin x) (map Fin y)) ->
  has_bin (bin_edges y n) n (snd p).
Proof.
  intros Hn Hp. destruct p as [a b]. apply in_combine_r in Hp.
  apply in_map_iff in Hp. destruct Hp as (v & <- & Hv).
  now apply has_bin_fin.
Qed.

(** The table of the joint counts, row by row *)
Lemma histogram2d_table (x y : list R) (bins : Z) :
  length x = length y -> (1 <= bins)%Z ->
  let n := Z.to_nat bins in
  np_histogram2d (map Fin x) (map Fin y) bins
  = Ok (flat_map
          (fun i => map (fun j => joint_count (bin_edges x n) (bin_edges y n)
                                              n i j
                                              (combine (map Fin x) (map Fin y)))
                        (seq 0 n))
          (seq 0 n)).
Proof. intros Hlen Hb n. now apply np_histogram2d_explicit. Qed.

Lemma table_length (A : Type) (f : nat -> nat -> A) (n : nat) :
  length (flat_map (fun i => map (f i) (seq 0 n)) (seq 0 n)) = (n * n)%nat.
Proof.
  rewrite (flat_map_constant_length (c := n)).
  - now rewrite length_seq.
  - intros i _. now rewrite length_map, length_seq.
Qed.

(** The joint histogram of two arrays of [N] finite values: [bins * bins]
    counts that add up to [N]. *)
Lemma histogram2d_fin (x y : list R) (bins : Z) :
  length x = length y -> (1 <= bins)%Z ->
  exists hh, np_histogram2d (map Fin x) (map Fin y) bins = Ok hh
             /\ length hh = (Z.to_nat bins * Z.to_nat bins)%nat
             /\ Forall (fun c => 0 <= c)%Z hh
             /\ sum_Z hh = Z.of_nat (length x).
Proof.
  intros Hlen Hb. rewrite histogram2d_table by assumption.
  eexists. split; [reflexivity|].
  split; [apply table_length|].
  assert (Hn : (1 <= Z.to_nat bins)%nat) by lia.
  split.
  - apply Forall_forall. intros c Hc. apply in_flat_map in Hc.
    destruct Hc as (i & _ & Hc). apply in_map_iff in Hc.
    destruct Hc as (j & <- & _). unfold joint_count. lia.
  - rewrite joint_total.
    + rewrite length_combine, !length_map. lia.
    + intros p Hp. now apply (has_bin_fst x y).
    + intros p Hp. now apply (has_bin_snd x y).
Qed.

Lemma ln_square (b : R) : 0 < b -> ln (b * b) = 2 * ln b.
Proof. intros Hb. rewrite ln_mult by assumption. lra. Qed.

Lemma joint_entropy_value (s t : list nat) (x y : list R) (bins : Z) :
  length x = length y -> x <> [] -> (1 <= bins)%Z ->
  exists hh,
    np_histogram2d (map Fin x) (map Fin y) bins = Ok hh
    /\ length hh = (Z.to_nat bins * Z.to_nat bins)%nat
    /\ Forall (fun c => 0 <= c)%Z hh
    /\ sum_Z hh = Z.of_nat (length x)
    /\ joint_entropy (real_array s x) (real_array t y) bins
       = Ok (NpFloat (Fin (entropy_of_words (real_probabilities hh)))).
Proof.
  intros Hlen Hne Hb.
  destruct (histogram2d_fin x y Hlen Hb) as (hh & Hh & Hl & Hpos & Hsum).
  exists hh. repeat (split; [assumption|]).
  unfold joint_entropy, real_array. cbn [data]. rewrite Hh. cbn [bind].
  f_equal.
  assert (Hhne : hh <> []) by (destruct hh; [cbn in Hl; lia | discriminate]).
  destruct (entropy_of_histogram Hhne Hpos) as [[E _] | [_ E]]; [|exact E].
  rewrite Hsum in E. destruct x; [congruence | cbn [length] in E; lia].
Qed.

(** X9, in exact arithmetic.  For two non-empty arrays of as many finite
    values and one bin at least, the joint entropy is the entropy of the
    table of counts and lies between 0 and [ln (bins * bins) = 2 ln bins].
    (In binary64 the bounds hold up to the rounding of the logarithms and
    of the sum.) *)
Theorem joint_entropy_bounds (s t : list nat) (x y : list R) (bins : Z) :
  length x = length y -> x <> [] -> (1 <= bins)%Z ->
  exists hh,
    np_histogram2d (map Fin x) (map Fin y) bins = Ok hh
    /\ joint_entropy (real_array s x) (real_array t y) bins
       = Ok (NpFloat (Fin (entropy_of_words (real_probabilities hh))))
    /\ 0 <= entropy_of_words (real_probabilities hh) <= 2 * ln (IZR bins).
Proof.
  intros Hlen Hne Hb.
  destruct (@joint_entropy_value s t x y bins Hlen Hne Hb)
    as (hh & Hh & Hl & Hpos & Hsum & Hj).
  exists hh. split; [exact Hh|]. split; [exact Hj|].
  assert (HS : (0 < sum_Z hh)%Z)
    by (rewrite Hsum; destruct x; [congruence | cbn [length]; lia]).
  pose proof (entropy_bounds (real_probabilities_nonneg Hpos HS)) as Hbound.
  rewrite rsum_real_probabilities in Hbound by lia.
  specialize (Hbound eq_refl).
  unfold real_probabilities in Hbound at 3. rewrite length_map, Hl in Hbound.
  rewrite mult_INR, INR_IZR_INZ, Z2Nat.id in Hbound by lia.
  rewrite ln_square in Hbound by (apply IZR_lt; lia).
  exact Hbound.
Qed.

(** *** Exchanging the two arrays *)

Lemma flat_map_cons_split (A B : Type) (g : A -> B) (h : A -> list B)
  (l : list A) :
  Permutation (flat_map (fun j => g j :: h j) l) (map g l ++ flat_map h l).
Proof.
  induction l as [|b l IH]; [constructor|].
  cbn [flat_map map app]. constructor.
  rewrite IH. apply Permutation_app_swap_app.
Qed.

Lemma flat_map_nil (A B : Type) (l : list A) :
  flat_map (fun _ => @nil B) l = [].
Proof. induction l as [|a l IH]; [reflexivity | exact IH]. Qed.

(** The transposed table holds the same counts. *)
Lemma table_transpose (A B C : Type) (f : A -> B -> C) (l1 : list A)
  (l2 : list B) :
  Permutation (flat_map (fun i => map (f i) l2) l1)
              (flat_map (fun j => map (fun i => f i j) l1) l2).
Proof.
  induction l1 as [|a l1 IH].
  - cbn [flat_map map]. now rewrite flat_map_nil.
  - cbn [flat_map map]. rewrite flat_map_cons_split.
    now apply Permutation_app_head.
Qed.

Lemma sum_Z_perm (h h' : list Z) : Permutation h h' -> sum_Z h = sum_Z h'.
Proof.
  induction 1 as [|c h h' _ IH|c d h|h h' h'' _ IH1 _ IH2].
  - reflexivity.
  - rewrite !sum_Z_cons. lia.
  - rewrite !sum_Z_cons. lia.
  - congruence.
Qed.

Lemma rsum_perm (l l' : list R) : Permutation l l' -> rsum l = rsum l'.
Proof.
  induction 1 as [|c h h' _ IH|c d h|h h' h'' _ IH1 _ IH2].
  - reflexivity.
  - change (rsum (?a :: ?b)) with (a + rsum b). lra.
  - change (rsum (?a :: ?b :: ?c)) with (a + (b + rsum c)). lra.
  - congruence.
Qed.

Lemma entropy_words_perm (h h' : list Z) :
  Permutation h h' ->
  entropy_of_words (real_probabilities h)
  = entropy_of_words (real_probabilities h').
Proof.
  intros Hp. unfold entropy_of_words, real_probabilities.
  rewrite (sum_Z_perm Hp). f_equal. apply rsum_perm.
  now do 2 apply Permutation_map.
Qed.

Lemma entropy_perm (h h' : list Z) :
  h <> [] -> Forall (fun c => 0 <= c)%Z h -> Permutation h h' ->
  entropy_of (probabilities h) = entropy_of (probabilities h').
Proof.
  intros Hne Hpos Hp.
  assert (Hne' : h' <> []).
  { intros ->. apply Hne. now apply Permutation_nil, Permutation_sym. }
  assert (Hpos' : Forall (fun c => 0 <= c)%Z h')
    by (eapply Permutation_Forall; eassumption).
  pose proof (sum_Z_perm Hp) as HS.
  destruct (entropy_of_histogram Hne Hpos) as [[E ->] | [E ->]];
    destruct (entropy_of_histogram Hne' Hpos') as [[E' ->] | [E' ->]];
    try lia; [reflexivity|].
  now rewrite (entropy_words_perm Hp).
Qed.

Lemma count_combine_swap (A B : Type) (P : A -> bool) (Q : B -> bool)
  (a : list A) :
  forall b : list B,
  count (fun p : A * B => P (fst p) && Q (snd p)) (combine a b)
  = count (fun p : B * A => Q (fst p) && P (snd p)) (combine b a).
Proof.
  induction a as [|u a IH]; intros [|v b]; try reflexivity.
  cbn [combine]. rewrite !count_cons. cbn [fst snd].
  rewrite IH, (andb_comm (P u)). reflexivity.
Qed.

Lemma histogram2d_swap (x y : list R) (bins : Z) (hh : list Z) :
  np_histogram2d (map Fin x) (map Fin y) bins = Ok hh ->
  exists hh', np_histogram2d (map Fin y) (map Fin x) bins = Ok hh'
              /\ Permutation hh hh'.
Proof.
  intros Hh. pose proof Hh as Hc. apply histogram2d_counts in Hc.
  destruct Hc as (Hb & _).
  assert (Hlen : length x = length y).
  { unfold np_histogram2d in Hh. rewrite !length_map in Hh.
    destruct (Nat.eqb_spec (length x) (length y)); [assumption|].
    discriminate Hh. }
  rewrite histogram2d_table in Hh by assumption. injection Hh as <-.
  rewrite histogram2d_table by (try symmetry; assumption).
  eexists. split; [reflexivity|].
  rewrite table_transpose. apply Permutation_refl'.
  apply flat_map_ext_in. intros j _. apply map_ext. intros i.
  unfold joint_count. f_equal. apply count_combine_swap.
Qed.

Lemma joint_entropy_swap (s t : list nat) (x y : list R) (bins : Z) :
  joint_entropy (real_array s x) (real_array t y) bins
  = joint_entropy (real_array t y) (real_array s x) bins.
Proof.
  unfold joint_entropy, real_array. cbn [data].
  destruct (np_histogram2d (map Fin x) (map Fin y) bins) as [hh | e] eqn:E.
  - destruct (histogram2d_swap _ _ _ E) as (hh' & -> & Hp).
    apply histogram2d_counts in E. destruct E as (_ & Hne & Hpos & _).
    cbn [bind]. f_equal. now apply entropy_perm.
  - unfold np_histogram2d in E |- *. rewrite !length_map in E |- *.
    rewrite (Nat.eqb_sym (length y)).
    destruct (length x =? length y)%nat; cbn [negb] in E |- *;
      [|now rewrite <- E].
    destruct (bins <? 1)%Z; [now rewrite <- E|].
    rewrite !outer_edges_fin in E. cbn [bind] in E. discriminate E.
Qed.

Lemma xadd_comm (a b : xreal) : xadd a b = xadd b a.
Proof.
  destruct a, b; try reflexivity. cbn [xadd]. f_equal. apply Rplus_comm.
Qed.

Lemma py_add_comm (a b : pynum xreal) : py_add a b = py_add b a.
Proof.
  destruct a as [u | u], b as [v | v]; cbn [py_add py_float];
    f_equal; try apply Z.add_comm; apply xadd_comm.
Qed.

(** On finite values the entropy fails only for a bad number of bins. *)
Lemma shannon_entropy_cases (s : list nat) (l : list R) (bins : Z) :
  ((bins < 1)%Z /\ shannon_entropy (real_array s l) bins = Raise bad_bins)
  \/ ((1 <= bins)%Z
      /\ exists e, shannon_entropy (real_array s l) bins = Ok (NpFloat e)).
Proof.
  destruct (Z.lt_ge_cases bins 1) as [Hb | Hb].
  - left. split; [exact Hb|]. unfold shannon_entropy, np_histogram.
    now rewrite (proj2 (Z.ltb_lt bins 1) Hb).
  - right. split; [exact Hb|].
    destruct (np_histogram_fin s l Hb) as (h & Hh & Hlen & Hpos & _).
    unfold shannon_entropy. rewrite Hh. cbn [bind].
    assert (Hne : h <> []) by (destruct h; [cbn in Hlen; lia | discriminate]).
    destruct (entropy_is_np_float Hne Hpos) as (e & ->). now exists e.
Qed.

(** X10, in exact arithmetic.  On arrays of finite values the joint
    entropy, the mutual information and the normalized mutual information
    do not depend on the order of the two arrays: the values are equal, and
    when one order raises the other raises the same error.  (In binary64
    the terms of the joint entropy are added in another order when the
    arrays are exchanged, and the values agree up to rounding.) *)
Theorem information_measures_symmetric (s t : list nat) (x y : list R)
  (bins : Z) :
  joint_entropy (real_array s x) (real_array t y) bins
  = joint_entropy (real_array t y) (real_array s x) bins
  /\ mutual_information (real_array s x) (real_array t y) bins
     = mutual_information (real_array t y) (real_array s x) bins
  /\ normalized_mutual_information (real_array s x) (real_array t y) bins
     = normalized_mutual_information (real_array t y) (real_array s x) bins.
Proof.
  split; [apply joint_entropy_swap|].
  unfold mutual_information, normalized_mutual_information.
  rewrite (joint_entropy_swap s t x y bins).
  destruct (shannon_entropy_cases s x bins) as [[_ ->] | [_ (e1 & ->)]];
    destruct (shannon_entropy_cases t y bins) as [[Hb ->] | [Hb (e2 & ->)]];
    cbn [bind]; try (split; reflexivity); try lia.
  rewrite (py_add_comm (NpFloat e1)). split; reflexivity.
Qed.

End XRealJoint.

(** ** Inequalities between the entropies *)

Module XRealInformation.

Import XReal XRealFacts XRealRange XRealEntropy XRealBins XRealDegenerate.
Import XRealErrors XRealJoint.
Local Open Scope R_scope.

Lemma plogp_product (p : R) : plogp p = p * ln p.
Proof.
  unfold plogp. destruct (Req_dec_T p 0) as [-> | _]; [ring | reflexivity].
Qed.

Lemma entropy_of_words_plogp (ps : list R) :
  entropy_of_words ps = - rsum (map plogp ps).
Proof. reflexivity. Qed.

Lemma rsum_app (l m : list R) : rsum (l ++ m) = rsum l + rsum m.
Proof.
  induction l as [|a l IH]; [cbn [app map]; change (rsum []) with 0; lra|].
  cbn [app]. change (rsum (?x :: ?y)) with (x + rsum y). rewrite IH. lra.
Qed.

Lemma rsum_map_flat_map (A B : Type) (g : B -> R) (f : A -> list B)
  (l : list A) :
  rsum (map g (flat_map f l)) = rsum (map (fun a => rsum (map g (f a))) l).
Proof.
  induction l as [|a l IH]; [reflexivity|].
  cbn [flat_map map]. rewrite map_app, rsum_app, IH. reflexivity.
Qed.

Lemma rsum_map_plus (A : Type) (f g : A -> R) (l : list A) :
  rsum (map (fun a => f a + g a) l) = rsum (map f l) + rsum (map g l).
Proof.
  induction l as [|a l IH]; [cbn [app map]; change (rsum []) with 0; lra|].
  cbn [map]. change (rsum (?x :: ?y)) with (x + rsum y). rewrite IH. lra.
Qed.

Lemma rsum_map_minus (A : Type) (f g : A -> R) (l : list A) :
  rsum (map (fun a => f a - g a) l) = rsum (map f l) - rsum (map g l).
Proof.
  induction l as [|a l IH]; [cbn [app map]; change (rsum []) with 0; lra|].
  cbn [map]. change (rsum (?x :: ?y)) with (x + rsum y). rewrite IH. lra.
Qed.

Lemma rsum_map_times (A : Type) (f : A -> R) (c : R) (l : list A) :
  rsum (map (fun a => f a * c) l) = rsum (map f l) * c.
Proof.
  induction l as [|a l IH]; [cbn [app map]; change (rsum []) with 0; lra|].
  cbn [map]. change (rsum (?x :: ?y)) with (x + rsum y). rewrite IH. lra.
Qed.

Lemma rsum_map_ext (A : Type) (f g : A -> R) (l : list A) :
  (forall a, In a l -> f a = g a) -> rsum (map f l) = rsum (map g l).
Proof.
  intros H. f_equal. apply map_ext_in. exact H.
Qed.

Lemma rsum_map_zero (A : Type) (l : list A) :
  rsum (map (fun _ => 0) l) = 0.
Proof.
  induction l as [|a l IH]; [reflexivity|].
  cbn [map]. change (rsum (?x :: ?y)) with (x + rsum y). rewrite IH. lra.
Qed.

(** Sums over the rows and over the columns of a table *)
Lemma rsum_swap (A B : Type) (f : A -> B -> R) (l1 : list A) (l2 : list B) :
  rsum (map (fun i => rsum (map (fun j => f i j) l2)) l1)
  = rsum (map (fun j => rsum (map (fun i => f i j) l1)) l2).
Proof.
  induction l1 as [|a l1 IH].
  - cbn [map rsum fold_right]. now rewrite rsum_map_zero.
  - cbn [map]. change (rsum (?x :: ?y)) with (x + rsum y). rewrite IH.
    now rewrite <- rsum_map_plus.
Qed.

Lemma IZR_sum_Z (l : list Z) : IZR (sum_Z l) = rsum (map IZR l).
Proof.
  induction l as [|c l IH]; [reflexivity|].
  rewrite sum_Z_cons, plus_IZR, IH. reflexivity.
Qed.

(** *** A table of non-negative numbers and its margins *)

Section Table.

Variable idx : list nat.
Variable p : nat -> nat -> R.
Hypothesis p_nonneg : forall i j, 0 <= p i j.

Let row (i : nat) : R := rsum (map (fun j => p i j) idx).
Let col (j : nat) : R := rsum (map (fun i => p i j) idx).

Hypothesis total : rsum (map row idx) = 1.

Lemma cell_le_row (i j : nat) : In j idx -> p i j <= row i.
Proof.
  intros Hj. apply element_le_rsum.
  - apply Forall_forall. intros q Hq. apply in_map_iff in Hq.
    destruct Hq as (k & <- & _). apply p_nonneg.
  - apply in_map_iff. now exists j.
Qed.

Lemma cell_le_col (i j : nat) : In i idx -> p i j <= col j.
Proof.
  intros Hi. apply element_le_rsum.
  - apply Forall_forall. intros q Hq. apply in_map_iff in Hq.
    destruct Hq as (k & <- & _). apply p_nonneg.
  - apply in_map_iff. now exists i.
Qed.

Lemma col_total : rsum (map col idx) = 1.
Proof. unfold col. rewrite <- rsum_swap. exact total. Qed.

Lemma plogp_le_margin (q r : R) : 0 <= q <= r -> plogp q <= q * ln r.
Proof.
  intros [H0 Hr]. rewrite plogp_product.
  destruct (Req_dec_T q 0) as [-> | Hq]; [lra|].
  apply Rmult_le_compat_l; [exact H0|].
  destruct (Req_dec_T q r) as [-> | Hne]; [lra|].
  left. apply ln_increasing; lra.
Qed.

Lemma plogp_ge_margins (q r c : R) :
  0 <= q -> q <= r -> q <= c ->
  q * ln r + q * ln c + q - r * c <= plogp q.
Proof.
  intros H0 Hr Hc. rewrite plogp_product.
  destruct (Req_dec_T q 0) as [-> | Hq].
  - assert (0 <= r * c) by (apply Rmult_le_pos; lra). lra.
  - assert (Hq' : 0 < q) by lra.
    assert (Hrc : 0 < r * c) by (apply Rmult_lt_0_compat; lra).
    pose proof (@ln_below_line (r * c / q)) as Hl.
    assert (Hpos : 0 < r * c / q) by (apply Rdiv_lt_0_compat; assumption).
    specialize (Hl Hpos).
    unfold Rdiv in Hl. rewrite ln_mult in Hl
      by (try apply Rinv_0_lt_compat; assumption).
    rewrite ln_mult, ln_Rinv in Hl by lra.
    assert (Hm : q * (ln r + ln c + - ln q) <= q * (r * c * / q - 1))
      by (apply Rmult_le_compat_l; lra).
    replace (q * (r * c * / q - 1)) with (r * c - q) in Hm by (field; lra).
    lra.
Qed.

(** The joint sum is at most the sum over the rows ... *)
Lemma joint_le_rows :
  rsum (map (fun i => rsum (map (fun j => plogp (p i j)) idx)) idx)
  <= rsum (map (fun i => plogp (row i)) idx).
Proof.
  apply rsum_le. intros i _.
  rewrite (plogp_product (row i)).
  unfold row at 1. rewrite <- rsum_map_times.
  apply rsum_le. intros j Hj. apply plogp_le_margin.
  split; [apply p_nonneg | now apply cell_le_row].
Qed.

Lemma joint_le_cols :
  rsum (map (fun i => rsum (map (fun j => plogp (p i j)) idx)) idx)
  <= rsum (map (fun j => plogp (col j)) idx).
Proof.
  rewrite rsum_swap. apply rsum_le. intros j _.
  rewrite (plogp_product (col j)).
  unfold col at 1. rewrite <- rsum_map_times.
  apply rsum_le. intros i Hi. apply plogp_le_margin.
  split; [apply p_nonneg | now apply cell_le_col].
Qed.

(** ... and at least the sum over the rows plus the sum over the columns
    (Gibbs' inequality). *)
Lemma margins_le_joint :
  rsum (map (fun i => plogp (row i)) idx)
  + rsum (map (fun j => plogp (col j)) idx)
  <= rsum (map (fun i => rsum (map (fun j => plogp (p i j)) idx)) idx).
Proof.
  assert (H : rsum (map (fun i => rsum (map (fun j =>
                p i j * ln (row i) + p i j * ln (col j) + p i j
                - row i * col j) idx)) idx)
              <= rsum (map (fun i => rsum (map (fun j => plogp (p i j)) idx))
                           idx)).
  { apply rsum_le. intros i Hi. apply rsum_le. intros j Hj.
    apply plogp_ge_margins;
      [apply p_nonneg | now apply cell_le_row | now apply cell_le_col]. }
  eapply Rle_trans; [|exact H]. right.
  assert (E1 : forall i,
    rsum (map (fun j => p i j * ln (row i) + p i j * ln (col j) + p i j
                        - row i * col j) idx)
    = plogp (row i) + rsum (map (fun j => p i j * ln (col j)) idx)).
  { intros i.
    rewrite rsum_map_minus, !rsum_map_plus, rsum_map_times.
    fold (row i). rewrite plogp_product.
    assert (E : rsum (map (fun j => row i * col j) idx) = row i).
    { transitivity (row i * rsum (map col idx));
        [|rewrite col_total; lra].
      rewrite <- rsum_scale, map_map. reflexivity. }
    rewrite E. change (rsum (map (p i) idx)) with (row i). lra. }
  rewrite (rsum_map_ext _ _ idx (fun i _ => E1 i)).
  rewrite rsum_map_plus. f_equal.
  rewrite (rsum_swap (fun i j => p i j * ln (col j))).
  apply rsum_map_ext. intros j _.
  rewrite rsum_map_times, plogp_product. reflexivity.
Qed.

End Table.

(** *** The table of the joint probabilities *)

Section JointTable.

Variables x y : list R.
Variable bins : Z.
Hypothesis same_length : length x = length y.
Hypothesis not_empty : x <> [].
Hypothesis some_bins : (1 <= bins)%Z.

Let n : nat := Z.to_nat bins.
Let idx : list nat := seq 0 n.
Let total : R := IZR (Z.of_nat (length x)).
Let pairs : list (xreal * xreal) := combine (map Fin x) (map Fin y).
Let cell (i j : nat) : Z :=
  joint_count (bin_edges x n) (bin_edges y n) n i j pairs.
Let hx (i : nat) : Z :=
  Z.of_nat (count (in_bin (bin_edges x n) n i) (map Fin x)).
Let hy (j : nat) : Z :=
  Z.of_nat (count (in_bin (bin_edges y n) n j) (map Fin y)).
Let p (i j : nat) : R := IZR (cell i j) / total.

Lemma total_pos : 0 < total.
Proof.
  unfold total. apply IZR_lt. destruct x; [congruence | cbn [length]; lia].
Qed.

Lemma some_bin : (1 <= n)%nat.
Proof. unfold n. lia. Qed.

Lemma cell_row_sum (i : nat) : sum_Z (map (cell i) idx) = hx i.
Proof.
  unfold cell, idx, hx. rewrite joint_row_sum.
  - f_equal. apply count_fst_combine. now rewrite !length_map.
  - intros q Hq. apply (has_bin_snd x y); [apply some_bin | exact Hq].
Qed.

Lemma cell_column_sum (j : nat) :
  sum_Z (map (fun i => cell i j) idx) = hy j.
Proof.
  unfold cell, idx, hy. rewrite joint_column_sum.
  - f_equal. apply count_snd_combine. now rewrite !length_map.
  - intros q Hq. apply (has_bin_fst x y); [apply some_bin | exact Hq].
Qed.

Lemma rsum_over_total (A : Type) (f : A -> Z) (l : list A) :
  rsum (map (fun a => IZR (f a) / total) l) = IZR (sum_Z (map f l)) / total.
Proof.
  unfold Rdiv. rewrite rsum_map_times, IZR_sum_Z, map_map. reflexivity.
Qed.

Lemma p_row (i : nat) : rsum (map (fun j => p i j) idx) = IZR (hx i) / total.
Proof. unfold p. now rewrite rsum_over_total, cell_row_sum. Qed.

Lemma p_column (j : nat) :
  rsum (map (fun i => p i j) idx) = IZR (hy j) / total.
Proof.
  unfold p. now rewrite (rsum_over_total (fun i => cell i j)), cell_column_sum.
Qed.

Lemma p_nonneg (i j : nat) : 0 <= p i j.
Proof.
  unfold p. apply Rmult_le_pos.
  - apply IZR_le. unfold cell, joint_count. lia.
  - left. apply Rinv_0_lt_compat, total_pos.
Qed.

Lemma hx_total : sum_Z (map hx idx) = Z.of_nat (length x).
Proof.
  unfold hx, idx. rewrite counts_partition; [now rewrite length_map|].
  intros v Hv. apply in_map_iff in Hv. destruct Hv as (w & <- & Hw).
  apply has_bin_fin; [exact Hw | apply some_bin].
Qed.

Lemma hy_total : sum_Z (map hy idx) = Z.of_nat (length x).
Proof.
  unfold hy, idx. rewrite counts_partition;
    [now rewrite length_map, same_length|].
  intros v Hv. apply in_map_iff in Hv. destruct Hv as (w & <- & Hw).
  apply has_bin_fin; [exact Hw | apply some_bin].
Qed.

Lemma p_total :
  rsum (map (fun i => rsum (map (fun j => p i j) idx)) idx) = 1.
Proof.
  rewrite (rsum_map_ext _ (fun i => IZR (hx i) / total) idx)
    by (intros i _; apply p_row).
  rewrite rsum_over_total, hx_total. fold total.
  field. apply Rgt_not_eq, total_pos.
Qed.

(** The three entropies, as sums over the table and its margins *)
Lemma words_of_margin (h : nat -> Z) :
  sum_Z (map h idx) = Z.of_nat (length x) ->
  entropy_of_words (real_probabilities (map h idx))
  = - rsum (map (fun i => plogp (IZR (h i) / total)) idx).
Proof.
  intros Hs. rewrite entropy_of_words_plogp. unfold real_probabilities.
  rewrite Hs. fold total. now rewrite !map_map.
Qed.

Lemma words_of_table :
  entropy_of_words
    (real_probabilities (flat_map (fun i => map (cell i) idx) idx))
  = - rsum (map (fun i => rsum (map (fun j => plogp (p i j)) idx)) idx).
Proof.
  rewrite entropy_of_words_plogp. unfold real_probabilities.
  assert (Hs : sum_Z (flat_map (fun i => map (cell i) idx) idx)
               = Z.of_nat (length x)).
  { rewrite sum_Z_flat_map.
    rewrite (map_ext _ hx) by (intros i; apply cell_row_sum).
    apply hx_total. }
  rewrite Hs. fold total. rewrite map_map, rsum_map_flat_map.
  f_equal. apply rsum_map_ext. intros i _. now rewrite map_map.
Qed.

Lemma table_inequalities :
  let a := entropy_of_words (real_probabilities (map hx idx)) in
  let b := entropy_of_words (real_probabilities (map hy idx)) in
  let j := entropy_of_words
             (real_probabilities (flat_map (fun i => map (cell i) idx) idx))
  in a <= j /\ b <= j /\ j <= a + b.
Proof.
  cbv zeta. rewrite (words_of_margin hx hx_total),
    (words_of_margin hy hy_total), words_of_table.
  pose proof (joint_le_rows idx p p_nonneg) as H1.
  pose proof (joint_le_cols idx p p_nonneg) as H2.
  pose proof (margins_le_joint idx p p_nonneg p_total) as H3.
  cbv beta zeta in H1, H2, H3.
  rewrite (rsum_map_ext
             (fun i => plogp (rsum (map (fun j => p i j) idx)))
             (fun i => plogp (IZR (hx i) / total)) idx) in H1, H3
    by (intros i _; now rewrite p_row).
  rewrite (rsum_map_ext
             (fun j => plogp (rsum (map (fun i => p i j) idx)))
             (fun j => plogp (IZR (hy j) / total)) idx) in H2, H3
    by (intros j _; now rewrite p_column).
  lra.
Qed.

End JointTable.

(** *** The values of the three entropies *)

Lemma shannon_entropy_value (s : list nat) (l : list R) (bins : Z) :
  l <> [] -> (1 <= bins)%Z ->
  let n := Z.to_nat bins in
  let h := map (fun i => Z.of_nat (count (in_bin (bin_edges l n) n i)
                                         (map Fin l)))
               (seq 0 n) in
  shannon_entropy (real_array s l) bins
  = Ok (NpFloat (Fin (entropy_of_words (real_probabilities h))))
  /\ 0 <= entropy_of_words (real_probabilities h) <= ln (IZR bins).
Proof.
  intros Hne Hb n h.
  destruct (np_histogram_fin s l Hb) as (h' & Hh & Hlen & Hpos & Hsum).
  rewrite np_histogram_explicit in Hh by exact Hb.
  injection Hh as Hh. fold n in Hh. fold h in Hh. subst h'.
  assert (HS : (0 < sum_Z h)%Z)
    by (rewrite Hsum; destruct l; [congruence | cbn [length]; lia]).
  assert (Hhne : h <> []) by (destruct h; [cbn in Hlen; lia | discriminate]).
  split.
  - unfold shannon_entropy. rewrite np_histogram_explicit by exact Hb.
    cbn [bind]. fold n. fold h. f_equal.
    destruct (entropy_of_histogram Hhne Hpos) as [[E _] | [_ E]];
      [lia | exact E].
  - pose proof (entropy_bounds (real_probabilities_nonneg Hpos HS)) as Hbound.
    rewrite rsum_real_probabilities in Hbound by lia.
    specialize (Hbound eq_refl).
    unfold real_probabilities in Hbound at 3.
    rewrite length_map, Hlen, INR_IZR_INZ, Z2Nat.id in Hbound by lia.
    exact Hbound.
Qed.

(** The entropies of two arrays of as many finite values and their joint
    entropy: each entropy is at most the joint entropy, which is at most
    their sum. *)
Lemma entropy_values (s t : list nat) (x y : list R) (bins : Z) :
  length x = length y -> x <> [] -> (1 <= bins)%Z ->
  exists a b j,
    shannon_entropy (real_array s x) bins = Ok (NpFloat (Fin a))
    /\ shannon_entropy (real_array t y) bins = Ok (NpFloat (Fin b))
    /\ joint_entropy (real_array s x) (real_array t y) bins
       = Ok (NpFloat (Fin j))
    /\ 0 <= a <= ln (IZR bins) /\ 0 <= b <= ln (IZR bins)
    /\ a <= j /\ b <= j /\ j <= a + b.
Proof.
  intros Hlen Hne Hb.
  assert (Hne' : y <> []) by (destruct x, y; try discriminate; congruence).
  destruct (@shannon_entropy_value s x bins Hne Hb) as (Ha & Ha').
  destruct (@shannon_entropy_value t y bins Hne' Hb) as (Hy & Hy').
  pose proof (@table_inequalities x y bins Hlen Hne Hb) as Ht.
  cbv zeta in Ht. destruct Ht as (H1 & H2 & H3).
  destruct (@joint_entropy_value s t x y bins Hlen Hne Hb)
    as (hh & Hh & _ & _ & _ & Hj).
  rewrite histogram2d_table in Hh by assumption. injection Hh as Hh.
  subst hh.
  do 3 eexists. split; [exact Ha|]. split; [exact Hy|].
  split; [exact Hj|]. repeat split; tauto.
Qed.

Lemma py_add_fin (a b : R) :
  py_add (NpFloat (Fin a)) (NpFloat (Fin b)) = NpFloat (Fin (a + b)).
Proof. reflexivity. Qed.

Lemma py_sub_fin (a b : R) :
  py_sub (NpFloat (Fin a)) (NpFloat (Fin b)) = NpFloat (Fin (a - b)).
Proof. reflexivity. Qed.

(** X11. The mutual information of two arrays of as many finite values is not
    negative and at most the entropy of either array, hence at most
    [ln bins]. *)
Theorem mutual_information_bounds (s t : list nat) (x y : list R)
  (bins : Z) :
  length x = length y -> x <> [] -> (1 <= bins)%Z ->
  exists a b v,
    shannon_entropy (real_array s x) bins = Ok (NpFloat (Fin a))
    /\ shannon_entropy (real_array t y) bins = Ok (NpFloat (Fin b))
    /\ mutual_information (real_array s x) (real_array t y) bins
       = Ok (NpFloat (Fin v))
    /\ 0 <= v /\ v <= a /\ v <= b /\ v <= ln (IZR bins).
Proof.
  intros Hlen Hne Hb.
  destruct (@entropy_values s t x y bins Hlen Hne Hb)
    as (a & b & j & Ha & Hy & Hj & Ha' & Hb' & H1 & H2 & H3).
  exists a, b, (a + b - j). split; [exact Ha|]. split; [exact Hy|].
  split.
  - unfold mutual_information. rewrite Ha, Hy, Hj. reflexivity.
  - lra.
Qed.

(** *** Arrays that are not constant *)

Lemma MinRlist_In (l : list R) : l <> [] -> In (MinRlist l) l.
Proof.
  induction l as [|a [|b l] IH]; intros Hne; [congruence | now left |].
  rewrite MinRlist_cons. unfold Rmin.
  destruct (Rle_dec a (MinRlist (b :: l))); [now left|].
  right. apply IH. discriminate.
Qed.

Lemma real_edges_non_constant (l : list R) :
  non_constant l ->
  real_edges l = (MinRlist l, MaxRlist l) /\ MinRlist l < MaxRlist l.
Proof.
  intros (a & b & Ha & Hb & Hab).
  pose proof (MinRlist_P1 l a Ha). pose proof (MinRlist_P1 l b Hb).
  pose proof (MaxRlist_P1 l a Ha). pose proof (MaxRlist_P1 l b Hb).
  assert (Hlt : MinRlist l < MaxRlist l).
  { destruct (Rle_lt_or_eq_dec (MinRlist l) (MaxRlist l)); [lra | assumption |].
    exfalso. apply Hab. lra. }
  split; [|exact Hlt].
  destruct l as [|v l]; [destruct Ha|]. unfold real_edges.
  destruct (Req_dec_T (MinRlist (v :: l)) (MaxRlist (v :: l))); [lra|].
  reflexivity.
Qed.

Lemma count_none (A : Type) (p : A -> bool) (l : list A) :
  (forall v, In v l -> p v = false) -> count p l = 0%nat.
Proof.
  intros H. rewrite (count_ext p (fun _ => false) l H). apply count_never.
Qed.

Lemma count_some (A : Type) (p : A -> bool) (v : A) (l : list A) :
  In v l -> p v = true -> (1 <= count p l)%nat.
Proof.
  induction l as [|w l IH]; intros Hin Hp; [destruct Hin|].
  rewrite count_cons. destruct Hin as [-> | Hin]; [rewrite Hp; lia|].
  specialize (IH Hin Hp). lia.
Qed.

Lemma linspace_last (lo hi : R) (n : nat) :
  last (map Fin (real_linspace lo hi n)) fzero = Fin hi.
Proof. unfold real_linspace. rewrite map_app. cbn [map]. apply last_last. Qed.

(** The smallest value falls in the first bin ... *)
Lemma bin_of_first (lo hi : R) (n : nat) :
  lo < hi -> (1 <= n)%nat ->
  bin_of (map Fin (real_linspace lo hi n)) n (Fin lo) = Some 0%nat.
Proof.
  intros Hlt Hn. unfold bin_of.
  rewrite searchsorted_fin, linspace_last. unfold real_linspace.
  rewrite count_app. cbn [feqb xreal_scalar xeqb].
  rewrite Reqb_false by lra.
  destruct n as [|n]; [lia|].
  cbn [seq map]. rewrite count_cons.
  rewrite Rleb_true by (cbn [INR]; lra).
  rewrite count_none.
  - rewrite count_cons, Rleb_false by lra. cbn [count filter length].
    cbn [Nat.add]. reflexivity.
  - intros e He. apply in_map_iff in He. destruct He as (i & <- & Hi).
    apply in_seq in Hi. apply Rleb_false.
    assert (Hi' : 0 < INR i) by (apply lt_0_INR; lia).
    assert (Hs : 0 < (hi - lo) / INR (S n)).
    { apply Rdiv_lt_0_compat; [lra | apply lt_0_INR; lia]. }
    pose proof (Rmult_lt_0_compat _ _ Hi' Hs). lra.
Qed.

(** ... and the largest one in the last bin. *)
Lemma bin_of_last (lo hi : R) (n : nat) :
  lo < hi -> (1 <= n)%nat ->
  bin_of (map Fin (real_linspace lo hi n)) n (Fin hi) = Some (n - 1)%nat.
Proof.
  intros Hlt Hn. unfold bin_of.
  rewrite searchsorted_fin, linspace_last. unfold real_linspace.
  rewrite count_app. cbn [feqb xreal_scalar xeqb].
  rewrite Reqb_true by reflexivity.
  rewrite count_all.
  - rewrite length_map, length_seq, count_cons, Rleb_true by lra.
    cbn [count filter length].
    replace (n + (1 + 0) - 1)%nat with n by lia.
    replace (1 <=? n)%nat with true by (symmetry; now apply Nat.leb_le).
    now rewrite Nat.leb_refl.
  - intros e He. apply in_map_iff in He. destruct He as (i & <- & Hi).
    apply in_seq in Hi. apply Rleb_true, edge_below_last; [exact Hlt | lia].
Qed.

Lemma sum_Z_element (l : list Z) (c : Z) :
  Forall (fun d => 0 <= d)%Z l -> In c l -> (c <= sum_Z l)%Z.
Proof.
  induction 1 as [|d l Hd Hl IH]; intros Hin; [destruct Hin|].
  rewrite sum_Z_cons. pose proof (sum_Z_nonneg Hl).
  destruct Hin as [-> | Hin]; [lia|]. specialize (IH Hin). lia.
Qed.

Lemma entropy_positive (ps : list R) (q : R) :
  Forall (fun p => 0 <= p) ps -> rsum ps = 1 -> In q ps -> 0 < q < 1 ->
  0 < entropy_of_words ps.
Proof.
  intros Hpos Hsum Hq [Hq0 Hq1].
  rewrite entropy_of_words_plogp, <- rsum_opp_map.
  assert (Hterm : 0 < - plogp q).
  { rewrite plogp_product.
    assert (ln q < 0) by (rewrite <- ln_1; apply ln_increasing; lra).
    assert (q * ln q < 0); [|lra].
    replace (q * ln q) with (- (q * - ln q)) by ring.
    assert (0 < q * - ln q) by (apply Rmult_lt_0_compat; lra). lra. }
  eapply Rlt_le_trans; [exact Hterm|].
  apply element_le_rsum.
  - apply Forall_forall. intros v Hv. apply in_map_iff in Hv.
    destruct Hv as (p & <- & Hp).
    assert (0 <= p) by (rewrite Forall_forall in Hpos; now apply Hpos).
    assert (p <= 1) by (rewrite <- Hsum; now apply element_le_rsum).
    pose proof (@plogp_nonpos p). unfold plogp. lra.
  - apply in_map_iff. now exists q.
Qed.

(** With two bins or more, an array that is not constant has a positive
    entropy. *)
Lemma shannon_entropy_positive (s : list nat) (l : list R) (bins : Z) :
  non_constant l -> (2 <= bins)%Z ->
  exists a, shannon_entropy (real_array s l) bins = Ok (NpFloat (Fin a))
            /\ 0 < a.
Proof.
  intros Hnc Hb.
  destruct (real_edges_non_constant Hnc) as (He & Hlt).
  assert (Hne : l <> []).
  { destruct Hnc as (a & _ & Ha & _).
    destruct l; [destruct Ha | discriminate]. }
  assert (Hb1 : (1 <= bins)%Z) by lia.
  destruct (@shannon_entropy_value s l bins Hne Hb1) as (Hv & _).
  cbv zeta in Hv. eexists. split; [exact Hv|].
  set (n := Z.to_nat bins) in *.
  set (hx := fun i => Z.of_nat (count (in_bin (bin_edges l n) n i)
                                      (map Fin l))).
  fold hx.
  assert (Hn : (2 <= n)%nat) by (unfold n; lia).
  assert (Hsum : sum_Z (map hx (seq 0 n)) = Z.of_nat (length l)).
  { unfold hx. rewrite counts_partition; [now rewrite length_map|].
    intros v Hv'. apply in_map_iff in Hv'. destruct Hv' as (w & <- & Hw).
    apply has_bin_fin; [exact Hw | lia]. }
  assert (Hpos : Forall (fun c => 0 <= c)%Z (map hx (seq 0 n))).
  { apply Forall_forall. intros c Hc. apply in_map_iff in Hc.
    destruct Hc as (i & <- & _). unfold hx. lia. }
  assert (H0 : (1 <= hx 0%nat)%Z).
  { unfold hx. apply inj_le with (n := 1%nat).
    apply (count_some _ (Fin (MinRlist l))).
    - apply in_map, MinRlist_In, Hne.
    - unfold in_bin, bin_edges. rewrite He. cbn [fst snd].
      rewrite bin_of_first by (try assumption; lia). reflexivity. }
  assert (H1 : (1 <= hx (n - 1)%nat)%Z).
  { unfold hx. apply inj_le with (n := 1%nat).
    apply (count_some _ (Fin (MaxRlist l))).
    - apply in_map, MaxRlist_P2. destruct l; [congruence|].
      eexists. now left.
    - unfold in_bin, bin_edges. rewrite He. cbn [fst snd].
      rewrite bin_of_last by (try assumption; lia).
      now rewrite Nat.eqb_refl. }
  assert (Hless : (hx 0%nat < sum_Z (map hx (seq 0 n)))%Z).
  { assert (Hseq : forall k, (2 <= k)%nat ->
                     seq 0 k = 0%nat :: seq 1 (k - 1)).
    { intros [|k] Hk; [lia|]. cbn [seq]. do 2 f_equal. lia. }
    pose proof Hpos as Hpos'.
    rewrite (Hseq n Hn) in Hpos' |- *. cbn [map] in Hpos' |- *.
    rewrite sum_Z_cons.
    assert (Hin : In (hx (n - 1)%nat) (map hx (seq 1 (n - 1)))).
    { apply in_map, in_seq. lia. }
    assert (Hrest : Forall (fun c => 0 <= c)%Z (map hx (seq 1 (n - 1)))).
    { now inversion Hpos'. }
    pose proof (@sum_Z_element _ _ Hrest Hin). lia. }
  assert (HS : (0 < sum_Z (map hx (seq 0 n)))%Z) by lia.
  apply (@entropy_positive _
           (IZR (hx 0%nat) / IZR (sum_Z (map hx (seq 0 n))))).
  - now apply real_probabilities_nonneg.
  - apply rsum_real_probabilities. lia.
  - unfold real_probabilities.
    apply (in_map (fun c => IZR c / IZR (sum_Z (map hx (seq 0 n))))).
    apply in_map, in_seq. lia.
  - assert (Ht : 0 < IZR (sum_Z (map hx (seq 0 n)))) by (now apply IZR_lt).
    assert (Ha : 0 < IZR (hx 0%nat)) by (apply IZR_lt; lia).
    assert (Hc : IZR (hx 0%nat) < IZR (sum_Z (map hx (seq 0 n))))
      by (now apply IZR_lt).
    split; [now apply Rdiv_lt_0_compat|].
    apply Rmult_lt_reg_r with (r := IZR (sum_Z (map hx (seq 0 n))));
      [exact Ht|].
    unfold Rdiv. rewrite Rmult_assoc, Rinv_l by lra. lra.
Qed.

Lemma joint_entropy_self (x : ndarray xreal) (bins : Z) :
  joint_entropy x x bins = shannon_entropy x bins.
Proof.
  unfold joint_entropy, shannon_entropy.
  rewrite (histogram2d_self (shape x) (data x) bins)
    by (intros lo hi; apply XRealRange.width_finite).
  replace (mk_array (shape x) (data x)) with x by (now destruct x).
  destruct (np_histogram x bins) as [h|e] eqn:Hh; [|reflexivity].
  cbn [bind]. destruct (histogram_counts _ _ Hh) as (Hb & Hlen & Hpos).
  assert (Hne : h <> []) by (destruct h; [cbn in Hlen; lia | discriminate]).
  now rewrite (entropy_diagonal Hne Hpos).
Qed.

Lemma py_div_fin (a b : R) :
  b <> 0 ->
  py_div (NpFloat (Fin a)) (NpFloat (Fin b)) = Ok (NpFloat (Fin (a / b))).
Proof.
  intros Hb. cbn [py_div py_float fdiv xreal_scalar].
  now rewrite xdiv_fin.
Qed.

Lemma non_constant_not_empty (l : list R) : non_constant l -> l <> [].
Proof.
  intros (a & _ & Ha & _). destruct l; [destruct Ha | discriminate].
Qed.

(** X12, in exact arithmetic.  The normalized mutual information of two
    arrays of as many finite values, one of them at least not constant,
    with two bins or more: a number between 1 and 2.  (In binary64 the
    bounds hold up to rounding, and an array whose range overflows raises
    [IndexError].) *)
Theorem nmi_bounds (s t : list nat) (x y : list R) (bins : Z) :
  length x = length y -> non_constant x \/ non_constant y ->
  (2 <= bins)%Z ->
  exists v,
    normalized_mutual_information (real_array s x) (real_array t y) bins
    = Ok (NpFloat (Fin v))
    /\ 1 <= v <= 2.
Proof.
  intros Hlen Hnc Hb.
  assert (Hne : x <> []).
  { destruct Hnc as [H | H]; apply non_constant_not_empty in H;
      [exact H|]. destruct x, y; try discriminate; congruence. }
  assert (Hb1 : (1 <= bins)%Z) by lia.
  destruct (@entropy_values s t x y bins Hlen Hne Hb1)
    as (a & b & j & Ha & Hy & Hj & Ha' & Hb' & H1 & H2 & H3).
  assert (Hpos : 0 < j).
  { destruct Hnc as [H | H].
    - destruct (shannon_entropy_positive s H Hb) as (a' & Ha2 & Hp).
      rewrite Ha in Ha2. injection Ha2 as <-. lra.
    - destruct (shannon_entropy_positive t H Hb) as (b' & Hb2 & Hp).
      rewrite Hy in Hb2. injection Hb2 as <-. lra. }
  exists ((a + b) / j). split.
  - unfold normalized_mutual_information. rewrite Ha, Hy, Hj. cbn [bind].
    rewrite py_add_fin. apply py_div_fin. lra.
  - split.
    + apply Rmult_le_reg_r with (r := j); [exact Hpos|].
      unfold Rdiv. rewrite Rmult_assoc, Rinv_l by lra. lra.
    + apply Rmult_le_reg_r with (r := j); [exact Hpos|].
      unfold Rdiv. rewrite Rmult_assoc, Rinv_l by lra. lra.
Qed.

(** X13, in exact arithmetic.  The normalized mutual information of an
    array of finite values with itself is 2, when the array is not constant
    and there are two bins or more.  (In binary64 an array whose range
    overflows raises [IndexError].) *)
Theorem nmi_self (s : list nat) (x : list R) (bins : Z) :
  non_constant x -> (2 <= bins)%Z ->
  normalized_mutual_information (real_array s x) (real_array s x) bins
  = Ok (NpFloat (Fin 2)).
Proof.
  intros Hnc Hb.
  destruct (shannon_entropy_positive s Hnc Hb) as (a & Ha & Hp).
  unfold normalized_mutual_information.
  rewrite joint_entropy_self, Ha. cbn [bind].
  rewrite py_add_fin, py_div_fin by lra. do 3 f_equal. field. lra.
Qed.

(** X14, in exact arithmetic.  For a non-empty array [x] of finite values,
    a constant reference of as many finite values and one bin at least: the
    reference carries no information.  Its entropy is 0, the joint entropy
    is the entropy of [x] and the mutual information is 0.  The normalized
    mutual information is 1 when [x] is not constant and there are two bins
    or more, and NaN (0 / 0) when [x] is constant as well.  (In binary64 an
    array whose range overflows raises [IndexError].) *)
Theorem constant_reference (s t : list nat) (x y : list R) (c : R)
  (bins : Z) :
  length x = length y -> x <> [] -> Forall (fun v => v = c) y ->
  (1 <= bins)%Z ->
  shannon_entropy (real_array t y) bins = Ok (NpFloat (Fin 0))
  /\ joint_entropy (real_array s x) (real_array t y) bins
     = shannon_entropy (real_array s x) bins
  /\ mutual_information (real_array s x) (real_array t y) bins
     = Ok (NpFloat (Fin 0))
  /\ (non_constant x -> (2 <= bins)%Z ->
      normalized_mutual_information (real_array s x) (real_array t y) bins
      = Ok (NpFloat (Fin 1)))
  /\ (forall d, Forall (fun v => v = d) x ->
      normalized_mutual_information (real_array s x) (real_array t y) bins
      = Ok (NpFloat NaN)).
Proof.
  intros Hlen Hne Hc Hb.
  assert (Hne' : y <> []) by (destruct x, y; try discriminate; congruence).
  pose proof (@shannon_entropy_constant t c y bins Hne' Hc Hb) as Hy0.
  destruct (@entropy_values s t x y bins Hlen Hne Hb)
    as (a & b & j & Ha & Hy & Hj & Ha' & Hb' & H1 & H2 & H3).
  rewrite Hy0 in Hy. injection Hy as <-.
  assert (Ej : j = a) by lra. subst j.
  split; [exact Hy0|]. split; [now rewrite Hj, Ha|].
  split.
  - unfold mutual_information. rewrite Ha, Hy0, Hj. cbn [bind].
    rewrite py_add_fin, py_sub_fin. do 3 f_equal. lra.
  - split.
    + intros Hnc Hb2.
      destruct (shannon_entropy_positive s Hnc Hb2) as (a' & Ha2 & Hp).
      rewrite Ha in Ha2. injection Ha2 as <-.
      unfold normalized_mutual_information. rewrite Ha, Hy0, Hj. cbn [bind].
      rewrite py_add_fin, py_div_fin by lra. do 3 f_equal. field. lra.
    + intros d Hd.
      pose proof (@shannon_entropy_constant s d x bins Hne Hd Hb) as Hx0.
      rewrite Ha in Hx0. injection Hx0 as ->.
      unfold normalized_mutual_information. rewrite Ha, Hy0, Hj. cbn [bind].
      rewrite py_add_fin. cbn [py_div py_float fdiv xreal_scalar xdiv].
      rewrite Reqb_true by reflexivity. cbn [sgn].
      rewrite !Rltb_false by lra. reflexivity.
Qed.

End XRealInformation.

(** ** Arrays the histograms cannot be built from *)

Section HistogramErrors.

Context {F : Type} {SF : Scalar F} {LF : ScalarLog F}.

Lemma outer_edges_raises (l : list F) (e : exn) :
  outer_edges l = Raise e ->
  e = ValueError "autodetected range is not finite".
Proof.
  unfold outer_edges.
  destruct (match l with
            | [] => (fzero, fone)
            | v :: l' => (fold_left np_minimum l' v, fold_left np_maximum l' v)
            end) as [lo hi].
  destruct (negb (is_finite lo && is_finite hi)); [congruence|].
  destruct (feqb lo hi); discriminate.
Qed.

Lemma np_histogram2d_raises (x y : list F) (bins : Z) (e : exn) :
  np_histogram2d x y bins = Raise e -> exists msg, e = ValueError msg.
Proof.
  unfold np_histogram2d.
  destruct (negb (length x =? length y)%nat);
    [intros H; injection H as <-; eauto|].
  destruct (bins <? 1)%Z;
    [intros H; injection H as <-; unfold bad_bins; eauto|].
  destruct (outer_edges x) as [[xlo xhi] | e1] eqn:E1; cbn [bind].
  - destruct (outer_edges y) as [[ylo yhi] | e2] eqn:E2; cbn [bind];
      [discriminate|].
    intros H. injection H as <-. rewrite (outer_edges_raises _ E2). eauto.
  - intros H. injection H as <-. rewrite (outer_edges_raises _ E1). eauto.
Qed.

Lemma joint_entropy_raises (x y : ndarray F) (bins : Z) (e : exn) :
  joint_entropy x y bins = Raise e -> exists msg, e = ValueError msg.
Proof.
  unfold joint_entropy.
  destruct (np_histogram2d (data x) (data y) bins) as [h | e'] eqn:E;
    [discriminate|].
  cbn [bind]. intros H. injection H as <-.
  exact (np_histogram2d_raises _ _ _ E).
Qed.

End HistogramErrors.

Module XRealNonFinite.

Import XReal XRealFacts XRealRange XRealEntropy XRealBins XRealDegenerate.
Import XRealJoint XRealInformation.
Local Open Scope R_scope.

(** Over the reals the width of a finite range is finite: the histogram
    raises nothing but [ValueError]. *)
Lemma np_histogram_raises (a : ndarray xreal) (bins : Z) (e : exn) :
  np_histogram a bins = Raise e -> exists msg, e = ValueError msg.
Proof.
  unfold np_histogram. destruct (bins <? 1)%Z.
  - intros H. injection H as <-. unfold bad_bins. eauto.
  - destruct (outer_edges (data a)) as [[lo hi] | e'] eqn:E.
    + cbn [bind]. rewrite (width_finite _ E). discriminate.
    + cbn [bind]. intros H. injection H as <-.
      rewrite (outer_edges_raises _ E). eauto.
Qed.

Lemma shannon_entropy_raises (x : ndarray xreal) (bins : Z) (e : exn) :
  shannon_entropy x bins = Raise e -> exists msg, e = ValueError msg.
Proof.
  unfold shannon_entropy.
  destruct (np_histogram x bins) as [h | e'] eqn:E; [discriminate|].
  cbn [bind]. intros H. injection H as <-. exact (np_histogram_raises _ _ E).
Qed.

Lemma is_nan_xreal (v : xreal) :
  is_nan v = match v with NaN => true | _ => false end.
Proof.
  destruct v as [r | | |]; try reflexivity.
  unfold is_nan. cbn [feqb xreal_scalar xeqb].
  now rewrite Reqb_true.
Qed.

Lemma np_minimum_nan_l (b : xreal) : np_minimum NaN b = NaN.
Proof. unfold np_minimum. now rewrite is_nan_xreal. Qed.

Lemma np_maximum_nan_l (b : xreal) : np_maximum NaN b = NaN.
Proof. unfold np_maximum. now rewrite is_nan_xreal. Qed.

Lemma np_minimum_nan_r (a : xreal) : np_minimum a NaN = NaN.
Proof. unfold np_minimum. rewrite !is_nan_xreal. now destruct a. Qed.

Lemma np_maximum_nan_r (a : xreal) : np_maximum a NaN = NaN.
Proof. unfold np_maximum. rewrite !is_nan_xreal. now destruct a. Qed.

Lemma fold_minimum_nan (l : list xreal) : fold_left np_minimum l NaN = NaN.
Proof.
  induction l as [|a l IH]; [reflexivity|].
  cbn [fold_left]. now rewrite np_minimum_nan_l.
Qed.

Lemma fold_maximum_nan (l : list xreal) : fold_left np_maximum l NaN = NaN.
Proof.
  induction l as [|a l IH]; [reflexivity|].
  cbn [fold_left]. now rewrite np_maximum_nan_l.
Qed.

Lemma fold_minimum_with_nan (l : list xreal) :
  forall v, In NaN l -> fold_left np_minimum l v = NaN.
Proof.
  induction l as [|a l IH]; intros v Hin; [destruct Hin|].
  cbn [fold_left]. destruct Hin as [-> | Hin]; [|now apply IH].
  rewrite np_minimum_nan_r. apply fold_minimum_nan.
Qed.

Lemma np_maximum_pinf_l (b : xreal) : b <> NaN -> np_maximum PInf b = PInf.
Proof.
  intros Hb. unfold np_maximum. rewrite !is_nan_xreal.
  destruct b; try reflexivity. congruence.
Qed.

Lemma np_maximum_pinf_r (a : xreal) : a <> NaN -> np_maximum a PInf = PInf.
Proof.
  intros Ha. unfold np_maximum. rewrite !is_nan_xreal.
  destruct a; try reflexivity. congruence.
Qed.

Lemma np_maximum_not_nan (a b : xreal) :
  a <> NaN -> b <> NaN -> np_maximum a b <> NaN.
Proof.
  intros Ha Hb. unfold np_maximum. rewrite !is_nan_xreal.
  destruct a, b; try congruence; cbn [fltb xreal_scalar xltb];
    try destruct (Rltb _ _); congruence.
Qed.

Lemma np_minimum_ninf_l (b : xreal) : b <> NaN -> np_minimum NInf b = NInf.
Proof.
  intros Hb. unfold np_minimum. rewrite !is_nan_xreal.
  destruct b; try reflexivity. congruence.
Qed.

Lemma np_minimum_ninf_r (a : xreal) : a <> NaN -> np_minimum a NInf = NInf.
Proof.
  intros Ha. unfold np_minimum. rewrite !is_nan_xreal.
  destruct a; try reflexivity. congruence.
Qed.

Lemma np_minimum_not_nan (a b : xreal) :
  a <> NaN -> b <> NaN -> np_minimum a b <> NaN.
Proof.
  intros Ha Hb. unfold np_minimum. rewrite !is_nan_xreal.
  destruct a, b; try congruence; cbn [fltb xreal_scalar xltb];
    try destruct (Rltb _ _); congruence.
Qed.

Lemma fold_maximum_pinf (l : list xreal) :
  Forall (fun w => w <> NaN) l ->
  forall v, v <> NaN -> v = PInf \/ In PInf l ->
  fold_left np_maximum l v = PInf.
Proof.
  induction 1 as [|a l Ha _ IH]; intros v Hv Hin.
  - destruct Hin as [-> | []]. reflexivity.
  - cbn [fold_left]. apply IH; [now apply np_maximum_not_nan|].
    destruct Hin as [-> | [-> | Hin]].
    + left. now apply np_maximum_pinf_l.
    + left. now apply np_maximum_pinf_r.
    + now right.
Qed.

Lemma fold_minimum_ninf (l : list xreal) :
  Forall (fun w => w <> NaN) l ->
  forall v, v <> NaN -> v = NInf \/ In NInf l ->
  fold_left np_minimum l v = NInf.
Proof.
  induction 1 as [|a l Ha _ IH]; intros v Hv Hin.
  - destruct Hin as [-> | []]. reflexivity.
  - cbn [fold_left]. apply IH; [now apply np_minimum_not_nan|].
    destruct Hin as [-> | [-> | Hin]].
    + left. now apply np_minimum_ninf_l.
    + left. now apply np_minimum_ninf_r.
    + now right.
Qed.

Lemma not_nan_list (l : list xreal) :
  existsb is_nan l = false -> Forall (fun w => w <> NaN) l.
Proof.
  intros H. apply Forall_forall. intros w Hw ->.
  assert (E : existsb is_nan l = true)
    by (apply existsb_exists; exists NaN; split; [exact Hw | reflexivity]).
  congruence.
Qed.

(** An array with a NaN or an infinity has no finite range. *)
Lemma outer_edges_non_finite (l : list xreal) (v : xreal) :
  In v l -> is_finite v = false ->
  outer_edges l = Raise (ValueError "autodetected range is not finite").
Proof.
  intros Hin Hv. unfold outer_edges.
  destruct l as [|a l]; [destruct Hin|].
  assert (Hbad : is_finite (fold_left np_minimum l a)
                 && is_finite (fold_left np_maximum l a) = false).
  { destruct (existsb is_nan (a :: l)) eqn:En.
    - apply existsb_exists in En. destruct En as (w & Hw & Hn).
      rewrite is_nan_xreal in Hn. destruct w; try discriminate.
      destruct Hw as [-> | Hw].
      + now rewrite fold_minimum_nan.
      + now rewrite fold_minimum_with_nan.
    - apply not_nan_list in En. inversion En as [|a' l' Ha Hl]; subst.
      destruct v as [r | | |]; try discriminate.
      + rewrite (@fold_maximum_pinf l Hl a Ha);
          [apply andb_false_r|].
        destruct Hin as [-> | Hin]; [now left | now right].
      + rewrite (@fold_minimum_ninf l Hl a Ha); [reflexivity|].
        destruct Hin as [-> | Hin]; [now left | now right].
      + exfalso. rewrite Forall_forall in En. now apply (En NaN Hin). }
  rewrite Hbad. reflexivity.
Qed.

Lemma all_finite_real (l : list xreal) :
  Forall (fun v => is_finite v = true) l -> exists r, l = map Fin r.
Proof.
  induction 1 as [|v l Hv _ (r & ->)]; [now exists []|].
  destruct v as [a | | |]; try discriminate. now exists (a :: r).
Qed.

Lemma not_all_finite (l : list xreal) :
  ~ Forall (fun v => is_finite v = true) l ->
  exists v, In v l /\ is_finite v = false.
Proof.
  induction l as [|a l IH]; intros H; [exfalso; apply H; constructor|].
  destruct (is_finite a) eqn:Ea.
  - destruct IH as (v & Hv & Hf).
    + intros Hl. apply H. now constructor.
    + exists v. split; [now right | exact Hf].
  - exists a. split; [now left | exact Ea].
Qed.

(** X15, in exact arithmetic.  [shannon_entropy] returns exactly when there
    is one bin at least and every value of the array is finite; otherwise
    it raises [ValueError].  (Over the reals the width of a finite range
    is a number other than zero.  In binary64 the width can overflow or
    round to zero: the array is then made of finite values and
    [shannon_entropy] raises [IndexError].) *)
Theorem shannon_entropy_defined (x : ndarray xreal) (bins : Z) :
  (is_ok (shannon_entropy x bins) = true
   <-> (1 <= bins)%Z /\ Forall (fun v => is_finite v = true) (data x))
  /\ (is_ok (shannon_entropy x bins) = false ->
      is_value_error (shannon_entropy x bins) = true).
Proof.
  split.
  - split.
    + intros Hok. unfold shannon_entropy, np_histogram in Hok.
      destruct (Z.ltb_spec bins 1) as [Hb | Hb]; [discriminate Hok|].
      split; [exact Hb|].
      destruct (Forall_dec (fun v : xreal => is_finite v = true)
                  (fun v => bool_dec (is_finite v) true) (data x))
        as [Hall | Hnot]; [exact Hall|].
      apply not_all_finite in Hnot. destruct Hnot as (v & Hv & Hf).
      rewrite (outer_edges_non_finite _ _ Hv Hf) in Hok. discriminate Hok.
    + intros [Hb Hall]. destruct (all_finite_real Hall) as (r & Hr).
      destruct (np_histogram_fin (shape x) r Hb) as (h & Hh & _).
      unfold real_array in Hh. rewrite <- Hr in Hh.
      replace (mk_array (shape x) (data x)) with x in Hh by (now destruct x).
      unfold shannon_entropy. now rewrite Hh.
  - destruct (shannon_entropy x bins) as [v | e] eqn:E; [discriminate|].
    intros _. destruct (shannon_entropy_raises _ _ E) as (msg & ->).
    reflexivity.
Qed.

Lemma histogram2d_non_finite (x y : list xreal) (bins : Z) (v : xreal) :
  In v x \/ In v y -> is_finite v = false ->
  is_value_error (np_histogram2d x y bins) = true.
Proof.
  intros Hin Hv.
  destruct (np_histogram2d x y bins) as [h | e] eqn:E.
  - exfalso. unfold np_histogram2d in E.
    destruct (negb (length x =? length y)%nat); [discriminate E|].
    destruct (bins <? 1)%Z; [discriminate E|].
    destruct Hin as [Hin | Hin].
    + rewrite (outer_edges_non_finite _ _ Hin Hv) in E. discriminate E.
    + destruct (outer_edges x) as [[xlo xhi] | e1]; [|discriminate E].
      cbn [bind] in E.
      rewrite (outer_edges_non_finite _ _ Hin Hv) in E. discriminate E.
  - destruct (np_histogram2d_raises _ _ _ E) as (msg & ->). reflexivity.
Qed.

(** X16, in exact arithmetic.  A NaN or an infinity in either array makes
    the joint entropy, the mutual information and the normalized mutual
    information raise [ValueError].  (In binary64 the mutual information
    and its normalized form raise [IndexError] instead when the first
    array they bin has finite values whose range overflows.) *)
Theorem information_needs_finite_values (x x_ref : ndarray xreal) (bins : Z)
  (v : xreal) :
  In v (data x) \/ In v (data x_ref) -> is_finite v = false ->
  is_value_error (joint_entropy x x_ref bins) = true
  /\ is_value_error (mutual_information x x_ref bins) = true
  /\ is_value_error (normalized_mutual_information x x_ref bins) = true.
Proof.
  intros Hin Hv.
  assert (Hj : is_value_error (joint_entropy x x_ref bins) = true).
  { unfold joint_entropy.
    pose proof (@histogram2d_non_finite (data x) (data x_ref) bins v Hin Hv)
      as H.
    destruct (np_histogram2d (data x) (data x_ref) bins); [discriminate H|].
    exact H. }
  split; [exact Hj|].
  unfold mutual_information, normalized_mutual_information.
  destruct (shannon_entropy x bins) as [a | e] eqn:Ea.
  - destruct (shannon_entropy x_ref bins) as [b | e] eqn:Eb.
    + cbn [bind].
      destruct (joint_entropy x x_ref bins) as [j | e]; [discriminate Hj|].
      cbn [bind]. split; exact Hj.
    + cbn [bind]. destruct (shannon_entropy_raises _ _ Eb) as (msg & ->).
      split; reflexivity.
  - cbn [bind]. destruct (shannon_entropy_raises _ _ Ea) as (msg & ->).
    split; reflexivity.
Qed.

(** X17. Arrays without elements: every count is 0, the probabilities are
    0 / 0, and the four measures are NaN. *)
Theorem entropy_of_empty_arrays (s t : list nat) (bins : Z) :
  (1 <= bins)%Z ->
  shannon_entropy (real_array s []) bins = Ok (NpFloat NaN)
  /\ joint_entropy (real_array s []) (real_array t []) bins
     = Ok (NpFloat NaN)
  /\ mutual_information (real_array s []) (real_array t []) bins
     = Ok (NpFloat NaN)
  /\ normalized_mutual_information (real_array s []) (real_array t []) bins
     = Ok (NpFloat NaN).
Proof.
  intros Hb.
  assert (Hs : forall u, shannon_entropy (real_array u []) bins
                         = Ok (NpFloat NaN)).
  { intros u.
    destruct (np_histogram_fin u [] Hb) as (h & Hh & Hlen & Hpos & Hsum).
    unfold shannon_entropy. rewrite Hh. cbn [bind]. f_equal.
    assert (Hne : h <> []) by (destruct h; [cbn in Hlen; lia | discriminate]).
    destruct (entropy_of_histogram Hne Hpos) as [[_ E] | [E _]];
      [exact E | cbn [length] in Hsum; lia]. }
  assert (Hj : joint_entropy (real_array s []) (real_array t []) bins
               = Ok (NpFloat NaN)).
  { destruct (@histogram2d_fin [] [] bins eq_refl Hb)
      as (h & Hh & Hlen & Hpos & Hsum).
    unfold joint_entropy, real_array. cbn [data]. cbn [map] in Hh.
    cbn [map]. rewrite Hh. cbn [bind]. f_equal.
    assert (Hne : h <> []) by (destruct h; [cbn in Hlen; lia | discriminate]).
    destruct (entropy_of_histogram Hne Hpos) as [[_ E] | [E _]];
      [exact E | cbn [length] in Hsum; lia]. }
  split; [apply Hs|]. split; [exact Hj|].
  unfold mutual_information, normalized_mutual_information.
  rewrite !Hs, Hj. split; reflexivity.
Qed.

End XRealNonFinite.

(** ** More on [psnr] and [ssim], for any scalar *)

Section GuardsAndMasks.

Context {F : Type} {SF : Scalar F}.
Variable peak_signal_noise_ratio : ndarray F -> ndarray F -> F -> result F.
Variable structural_similarity :
  ndarray F -> ndarray F -> F -> result (F * ndarray F).

Lemma shape_eqb_refl (s : list nat) : shape_eqb s s = true.
Proof. now apply shape_eqb_eq. Qed.

(** X18. On arrays of two dimensions or more whose items along the first axis
    hold two elements at least, the guard of [psnr] has no truth value:
    [psnr] raises [ValueError] whatever the two arrays hold, identical
    arrays included. *)
Theorem psnr_guard_raises (x x_ref : ndarray F) (datarange : option F)
  (dr : F) (r : nat) (rest : list nat) :
  shape x = r :: rest -> shape x_ref = r :: rest ->
  well_formed x -> well_formed x_ref ->
  (1 <= r)%nat -> (2 <= prod_shape rest)%nat ->
  resolve_datarange x x_ref datarange = Ok dr ->
  psnr peak_signal_noise_ratio x x_ref datarange
  = Raise (ValueError
      "The truth value of an array with more than one element is ambiguous. Use a.any() or a.all()").
Proof.
  intros Hx Hr Wx Wr Hrows Hcols Hdr. unfold psnr. rewrite Hdr.
  cbn [bind]. unfold elementwise. rewrite Hx, Hr, shape_eqb_refl.
  cbn [bind]. unfold py_sum_array, array_map. cbn [shape data].
  set (d := map fabs (map2 fsub (data x) (data x_ref))).
  assert (Hd : length d = (r * prod_shape rest)%nat).
  { unfold d. rewrite length_map, map2_length.
    unfold well_formed in Wx, Wr. rewrite Wx, Wr, Hx, Hr.
    cbn [prod_shape fold_right]. apply Nat.min_id. }
  destruct (@fold_rows_none _ _ (prod_shape rest)
              (chunks (prod_shape rest) r d)) as (t & -> & Ht).
  - now apply chunks_lengths.
  - intros E. apply (f_equal (@length _)) in E.
    rewrite chunks_count in E. cbn in E. lia.
  - destruct rest as [|c rest]; [cbn in Hcols; lia|].
    cbn [bind py_lt_truth data].
    destruct t as [|a [|b t]]; cbn [length] in Ht; try lia. reflexivity.
Qed.

(** X19. Without a data range, [psnr] and [ssim] need data: on an array
    without elements the maximum or the minimum has no value and both
    raise [ValueError]. *)
Theorem default_datarange_needs_data (x x_ref : ndarray F)
  (mask : option (ndarray F)) :
  data x = [] \/ data x_ref = [] ->
  exists op,
    psnr peak_signal_noise_ratio x x_ref None = Raise (no_identity op)
    /\ ssim structural_similarity x x_ref mask None
       = Raise (no_identity op).
Proof.
  intros H. unfold psnr, ssim, resolve_datarange, inferred_datarange.
  unfold np_amax, np_amin.
  destruct (data x_ref) as [|v l] eqn:Er.
  - exists "maximum"%string. split; reflexivity.
  - destruct H as [Ex | Ex]; [|discriminate Ex]. rewrite Ex.
    exists "minimum"%string. split; reflexivity.
Qed.

Lemma select_nothing (sel : list bool) :
  Forall (fun b => b = false) sel ->
  forall blocks : list (list F), select_blocks sel blocks = [].
Proof.
  unfold select_blocks.
  induction 1 as [|b sel Hb _ IH]; intros blocks; [reflexivity|].
  destruct blocks as [|blk blocks]; [reflexivity|].
  cbn [combine filter fst]. rewrite Hb. apply IH.
Qed.

(** X20. A mask that selects nothing: [ssim] returns NaN, the mean of no
    value, and raises nothing. *)
Theorem ssim_empty_selection (x x_ref m : ndarray F) (datarange : option F)
  (dr mssim : F) (smap : ndarray F) :
  resolve_datarange x x_ref datarange = Ok dr ->
  structural_similarity x_ref x dr = Ok (mssim, smap) ->
  is_prefix (shape m) (shape smap) = true ->
  Forall (fun v => fltb fzero v = false) (data m) ->
  ssim structural_similarity x x_ref (Some m) datarange = Ok np_nan.
Proof.
  intros Hdr Hs Hp Hm. unfold ssim. rewrite Hdr. cbn [bind].
  rewrite Hs. cbn [bind]. unfold pick_ssim, bool_index. cbn [snd].
  unfold positive at 1. cbn [shape]. rewrite Hp. cbn [bind].
  rewrite select_nothing; [reflexivity|].
  unfold positive. cbn [data]. apply Forall_forall. intros b Hb.
  apply in_map_iff in Hb. destruct Hb as (v & <- & Hv).
  rewrite Forall_forall in Hm. now apply Hm.
Qed.

(** X21. A mask whose shape is not the leading part of the shape of the SSIM
    map cannot index it: [ssim] raises [IndexError]. *)
Theorem ssim_mask_shape_mismatch (x x_ref m : ndarray F)
  (datarange : option F) (dr mssim : F) (smap : ndarray F) :
  resolve_datarange x x_ref datarange = Ok dr ->
  structural_similarity x_ref x dr = Ok (mssim, smap) ->
  is_prefix (shape m) (shape smap) = false ->
  ssim structural_similarity x x_ref (Some m) datarange
  = Raise (IndexError "boolean index did not match indexed array").
Proof.
  intros Hdr Hs Hp. unfold ssim. rewrite Hdr. cbn [bind].
  rewrite Hs. cbn [bind]. unfold pick_ssim, bool_index. cbn [snd].
  unfold positive. cbn [shape]. rewrite Hp. reflexivity.
Qed.

End GuardsAndMasks.

(** ** [psnr] and the data range on finite values *)

Module XRealPsnr.

Import XReal XRealFacts XRealRange XRealErrors XRealDataRange.
Import XRealNonFinite.
Local Open Scope R_scope.

Lemma lit_1e_13_fin : @lit_1e_13 xreal _ = Fin (1 / 10000000000000).
Proof.
  unfold lit_1e_13. cbn [of_Z fdiv xreal_scalar].
  apply xdiv_fin. lra.
Qed.

Lemma np_nan_fin : @np_nan xreal _ = NaN.
Proof.
  unfold np_nan, fzero. cbn [of_Z fdiv xreal_scalar xdiv].
  rewrite Reqb_true by reflexivity. cbn [sgn].
  rewrite !Rltb_false by lra. reflexivity.
Qed.

Lemma real_array_well_formed (l : list R) :
  well_formed (real_array [length l] l).
Proof.
  unfold well_formed, real_array. cbn [data shape prod_shape fold_right].
  rewrite length_map. lia.
Qed.

Lemma sum_abs_diff_self (l : list R) : sum_abs_diff l l = 0.
Proof.
  unfold sum_abs_diff. induction l as [|a l IH]; [reflexivity|].
  cbn [map2]. change (rsum (?x :: ?y)) with (x + rsum y). rewrite IH.
  replace (a - a) with 0 by ring. rewrite Rabs_R0. lra.
Qed.

Section Routine.

Variable peak_signal_noise_ratio :
  ndarray xreal -> ndarray xreal -> xreal -> result xreal.

(** X22, in exact arithmetic.  On two non-empty vectors of as many finite
    values, [psnr] without a data range returns NaN when the absolute
    differences add up to less than 1e-13, and otherwise what the PSNR
    routine returns for the inferred data range; for identical non-empty
    vectors it is NaN.  (In binary64 the inferred range raises
    [OverflowError] when the spread of the values overflows.) *)
Theorem psnr_vector_guard (l m : list R) :
  length l = length m -> l <> [] ->
  let x := real_array [length l] l in
  let x_ref := real_array [length l] m in
  (sum_abs_diff l m < 1 / 10000000000000 ->
   psnr peak_signal_noise_ratio x x_ref None = Ok NaN)
  /\ (1 / 10000000000000 <= sum_abs_diff l m ->
      psnr peak_signal_noise_ratio x x_ref None
      = peak_signal_noise_ratio x x_ref (Fin (IZR (range_of_words l m))))
  /\ psnr peak_signal_noise_ratio x x None = Ok NaN.
Proof.
  intros Hlen Hne x x_ref.
  assert (Hm : m <> []) by (destruct l, m; try discriminate; congruence).
  assert (Wx : well_formed x) by apply real_array_well_formed.
  assert (Wr : well_formed x_ref).
  { unfold x_ref. rewrite Hlen. apply real_array_well_formed. }
  assert (Hguard : forall k : list R,
    length l = length k -> k <> [] ->
    psnr peak_signal_noise_ratio x (real_array [length l] k) None
    = if Rltb (sum_abs_diff l k) (1 / 10000000000000) then Ok NaN
      else peak_signal_noise_ratio x (real_array [length l] k)
             (Fin (IZR (range_of_words l k)))).
  { intros k Hk Hkne.
    rewrite (@psnr_vector _ _ peak_signal_noise_ratio x
               (real_array [length l] k) None (length l));
      [|reflexivity | reflexivity | exact Wx
       | rewrite Hk; apply real_array_well_formed].
    unfold resolve_datarange, x.
    rewrite inferred_datarange_fin by assumption. cbn [bind].
    unfold real_array. cbn [data].
    rewrite abs_diff_fin, np_sum_fin, lit_1e_13_fin, np_nan_fin.
    reflexivity. }
  split; [|split].
  - intros Hs. unfold x_ref. rewrite (Hguard m Hlen Hm).
    now rewrite Rltb_true.
  - intros Hs. unfold x_ref. rewrite (Hguard m Hlen Hm).
    now rewrite Rltb_false by lra.
  - unfold x at 2. rewrite (Hguard l eq_refl Hne).
    rewrite sum_abs_diff_self. now rewrite Rltb_true by lra.
Qed.

End Routine.

(** X23, in exact arithmetic.  On non-empty arrays of finite values the
    inferred data range is the spread
    [max(x_ref) - min(min(x), min(x_ref))] truncated to an integer: it is
    never negative, and it is 0 when the spread is below 1.  (In binary64
    the subtraction is rounded before the truncation, and [int] raises
    [OverflowError] when it overflows.) *)
Theorem default_datarange_truncates (s t : list nat) (x x_ref : list R) :
  x <> [] -> x_ref <> [] ->
  let spread := MaxRlist x_ref - Rmin (MinRlist x) (MinRlist x_ref) in
  exists z,
    resolve_datarange (real_array s x) (real_array t x_ref) None
    = Ok (Fin (IZR z))
    /\ (0 <= z)%Z /\ IZR z <= spread < IZR z + 1
    /\ (spread < 1 -> z = 0%Z).
Proof.
  intros Hx Hr spread.
  exists (range_of_words x x_ref).
  split; [unfold resolve_datarange; now apply inferred_datarange_fin|].
  assert (Hpos : 0 <= spread).
  { destruct x_ref as [|v l]; [congruence|].
    pose proof (MinRlist_P1 (v :: l) v (or_introl eq_refl)).
    pose proof (MaxRlist_P1 (v :: l) v (or_introl eq_refl)).
    pose proof (Rmin_r (MinRlist x) (MinRlist (v :: l))).
    unfold spread. lra. }
  unfold range_of_words. fold spread. unfold Rtrunc.
  rewrite Rleb_true by exact Hpos.
  pose proof (Zfloor_bound spread) as Hb.
  assert (Hz : (0 <= Zfloor spread)%Z) by (apply Zfloor_lub; exact Hpos).
  split; [exact Hz|]. split; [exact Hb|].
  intros H1. apply Zfloor_eq. lra.
Qed.

Lemma fold_maximum_with_nan (l : list xreal) :
  forall v, In NaN l -> fold_left np_maximum l v = NaN.
Proof.
  induction l as [|a l IH]; intros v Hin; [destruct Hin|].
  cbn [fold_left]. destruct Hin as [-> | Hin]; [|now apply IH].
  rewrite np_maximum_nan_r. apply fold_maximum_nan.
Qed.

Lemma np_amax_nan (x : ndarray xreal) :
  In NaN (data x) -> np_amax x = Ok NaN.
Proof.
  unfold np_amax. destruct (data x) as [|v l]; intros Hin; [destruct Hin|].
  f_equal. destruct Hin as [-> | Hin];
    [apply fold_maximum_nan | now apply fold_maximum_with_nan].
Qed.

Lemma np_amin_nan (x : ndarray xreal) :
  In NaN (data x) -> np_amin x = Ok NaN.
Proof.
  unfold np_amin. destruct (data x) as [|v l]; intros Hin; [destruct Hin|].
  f_equal. destruct Hin as [-> | Hin];
    [apply fold_minimum_nan | now apply fold_minimum_with_nan].
Qed.

Lemma np_amax_some (x : ndarray xreal) :
  data x <> [] -> exists v, np_amax x = Ok v.
Proof.
  unfold np_amax. destruct (data x); [congruence | eauto].
Qed.

Lemma np_amin_some (x : ndarray xreal) :
  data x <> [] -> exists v, np_amin x = Ok v.
Proof.
  unfold np_amin. destruct (data x); [congruence | eauto].
Qed.

Lemma xsub_nan_r (a : xreal) : xsub a NaN = NaN.
Proof. now destruct a. Qed.

Lemma py_min_nan_l (b : xreal) : py_min NaN b = NaN.
Proof. unfold py_min. now destruct b. Qed.

Lemma inferred_datarange_nan (x x_ref : ndarray xreal) :
  data x <> [] -> data x_ref <> [] ->
  In NaN (data x) \/ In NaN (data x_ref) ->
  inferred_datarange x x_ref
  = Raise (ValueError "cannot convert float NaN to integer").
Proof.
  intros Hx Hr Hin. unfold inferred_datarange.
  destruct (@np_amax_some x_ref Hr) as (hi & Ehi).
  destruct (@np_amin_some x Hx) as (lo & Elo).
  destruct (@np_amin_some x_ref Hr) as (lo_ref & Elr).
  destruct Hin as [Hin | Hin].
  - rewrite Ehi, (@np_amin_nan x Hin), Elr. cbn [bind].
    rewrite py_min_nan_l. cbn [fsub xreal_scalar].
    now rewrite xsub_nan_r.
  - rewrite (@np_amax_nan x_ref Hin), Elo, Elr. reflexivity.
Qed.

Section Routines.

Variable peak_signal_noise_ratio :
  ndarray xreal -> ndarray xreal -> xreal -> result xreal.
Variable structural_similarity :
  ndarray xreal -> ndarray xreal -> xreal -> result (xreal * ndarray xreal).

(** X24. A NaN in either array leaves no data range to infer: without a data
    range, [psnr] and [ssim] raise the [ValueError] of [int(nan)] before
    anything is compared. *)
Theorem default_datarange_nan (x x_ref : ndarray xreal)
  (mask : option (ndarray xreal)) :
  data x <> [] -> data x_ref <> [] ->
  In NaN (data x) \/ In NaN (data x_ref) ->
  psnr peak_signal_noise_ratio x x_ref None
  = Raise (ValueError "cannot convert float NaN to integer")
  /\ ssim structural_similarity x x_ref mask None
     = Raise (ValueError "cannot convert float NaN to integer").
Proof.
  intros Hx Hr Hin. unfold psnr, ssim, resolve_datarange.
  rewrite (@inferred_datarange_nan x x_ref Hx Hr Hin). split; reflexivity.
Qed.

End Routines.

End XRealPsnr.

(** ** File names *)

Module PathFacts.

Import Posix Preprocess.

Lemma rfind_sep_none (s : str) : rfind_sep s = None <-> ~ In sep s.
Proof.
  induction s as [|c r IH]; [split; [intros _ [] | reflexivity]|].
  cbn [rfind_sep In]. destruct (rfind_sep r) as [i|] eqn:E.
  - split; [discriminate|]. intros H. exfalso.
    assert (Hr : ~ In sep r) by tauto. apply IH in Hr. discriminate Hr.
  - destruct (Ascii.eqb_spec c sep) as [-> | Hc].
    + split; [discriminate | intros H; exfalso; apply H; now left].
    + split; [|reflexivity]. intros _ [H | H]; [congruence|].
      now apply (proj1 IH).
Qed.

Lemma basename_cons (c : ascii) (r : str) :
  basename (c :: r)
  = match rfind_sep r with
    | Some _ => basename r
    | None => if Ascii.eqb c sep then r else c :: r
    end.
Proof.
  unfold basename. cbn [rfind_sep]. destruct (rfind_sep r) as [i|].
  - reflexivity.
  - now destruct (Ascii.eqb c sep).
Qed.

Lemma basename_plain (s : str) : ~ In sep s -> basename s = s.
Proof.
  intros H. apply rfind_sep_none in H. unfold basename. now rewrite H.
Qed.

(** The base name is what follows the last separator. *)
Lemma basename_app_sep (a b : str) :
  ~ In sep b -> basename (a ++ sep :: b) = b.
Proof.
  intros Hb. induction a as [|c a IH].
  - cbn [app]. rewrite basename_cons.
    rewrite (proj2 (rfind_sep_none b) Hb), Ascii.eqb_refl. reflexivity.
  - cbn [app]. rewrite basename_cons.
    destruct (rfind_sep (a ++ sep :: b)) eqn:E; [exact IH|].
    apply rfind_sep_none in E. exfalso. apply E, in_or_app.
    right. now left.
Qed.

Lemma basename_app_plain (a b : str) :
  ~ In sep b -> basename (a ++ b) = basename a ++ b.
Proof.
  intros Hb. induction a as [|c a IH].
  - cbn [app]. rewrite basename_plain by exact Hb.
    now rewrite (@basename_plain []) by (intros []).
  - cbn [app]. rewrite !basename_cons.
    destruct (rfind_sep a) as [i|] eqn:Ea.
    + destruct (rfind_sep (a ++ b)) eqn:E; [exact IH|].
      apply rfind_sep_none in E. exfalso.
      assert (Ha : rfind_sep a <> None) by congruence.
      apply Ha, rfind_sep_none. intros H. apply E, in_or_app. now left.
    + apply rfind_sep_none in Ea.
      assert (E : rfind_sep (a ++ b) = None).
      { apply rfind_sep_none. intros H. apply in_app_or in H. tauto. }
      rewrite E. now destruct (Ascii.eqb c sep).
Qed.

Lemma basename_app_with_sep (a b : str) :
  In sep b -> basename (a ++ b) = basename b.
Proof.
  intros Hb. induction a as [|c a IH]; [reflexivity|].
  cbn [app]. rewrite basename_cons.
  destruct (rfind_sep (a ++ b)) eqn:E; [exact IH|].
  apply rfind_sep_none in E. exfalso. apply E, in_or_app. now right.
Qed.

Lemma basename_no_sep (p : str) : ~ In sep (basename p).
Proof.
  induction p as [|c r IH]; [intros []|].
  rewrite basename_cons. destruct (rfind_sep r) eqn:E; [exact IH|].
  apply rfind_sep_none in E.
  destruct (Ascii.eqb_spec c sep) as [-> | Hc]; [exact E|].
  intros [H | H]; [congruence | contradiction].
Qed.

Lemma isabs_no_sep (b : str) : ~ In sep b -> isabs b = false.
Proof.
  destruct b as [|c b]; [reflexivity|]. intros H. cbn [isabs].
  destruct (Ascii.eqb_spec c sep) as [-> | Hc]; [|reflexivity].
  exfalso. apply H. now left.
Qed.

Lemma join_injective (a b c : str) :
  isabs b = false -> isabs c = false -> join a b = join a c -> b = c.
Proof.
  intros Hb Hc. unfold join. rewrite Hb, Hc.
  destruct (match a with [] => true | _ :: _ => endswith_sep a end).
  - apply app_inv_head.
  - intros H. apply app_inv_head in H. now injection H.
Qed.

Lemma last_split (n : nat) (s : str) :
  drop_last n s ++ take_last n s = s.
Proof. apply firstn_skipn. Qed.

(** X25. The bias field of [name.nii.gz] is named [name_bias.nii.gz]:
    [_bias] goes before the last seven characters, whatever they are, and
    at the front of a path of fewer than seven characters. *)
Theorem bias_path_inserts (stem ext file_path : str) :
  (length ext = 7%nat -> bias_path (stem ++ ext) = stem ++ lit "_bias" ++ ext)
  /\ ((length file_path <= 7)%nat ->
      bias_path file_path = lit "_bias" ++ file_path)
  /\ length (bias_path file_path) = (length file_path + 5)%nat.
Proof.
  unfold bias_path, drop_last, take_last. repeat split.
  - intros Hext. rewrite length_app, Hext.
    replace (length stem + 7 - 7)%nat with (length stem) by lia.
    rewrite firstn_app, firstn_all, skipn_app, skipn_all, Nat.sub_diag.
    cbn [firstn skipn app]. now rewrite app_nil_r.
  - intros Hlen. replace (length file_path - 7)%nat with 0%nat by lia.
    reflexivity.
  - rewrite !length_app, length_firstn, length_skipn. cbn. lia.
Qed.

(** X26. [correct_bias_field] writes the bias field over the corrected image
    exactly when a separator stands among the last seven characters of
    [file_path], that is when the file is in a directory and its name has
    fewer than seven characters, as [im.nii] in [data/im.nii]. *)
Theorem bias_overwrites_output (dir_output file_path : str) :
  output_bias dir_output file_path = output dir_output file_path
  <-> In sep (take_last 7 file_path).
Proof.
  unfold output_bias, output, bias_path.
  set (a := drop_last 7 file_path). set (b := take_last 7 file_path).
  assert (Hs : file_path = a ++ b) by (symmetry; apply last_split).
  clearbody a b. subst file_path.
  destruct (in_dec ascii_dec sep b) as [Hin | Hout].
  - split; [now intros _|]. intros _.
    rewrite app_assoc, !basename_app_with_sep by exact Hin. reflexivity.
  - split; [|contradiction]. intros H. exfalso.
    apply join_injective in H;
      try (apply isabs_no_sep, basename_no_sep).
    rewrite app_assoc in H.
    rewrite (@basename_app_plain (a ++ lit "_bias") b Hout) in H.
    rewrite (@basename_app_plain a b Hout) in H.
    apply app_inv_tail in H.
    rewrite basename_app_plain in H by (cbv; intuition congruence).
    apply (f_equal (@length _)) in H. rewrite length_app in H.
    cbn in H. lia.
Qed.

End PathFacts.

(** ** The checks of the docker wrapper *)

Module RunDockerFacts.

Import Posix RunDocker.

Lemma str_eqb_eq (a b : str) : str_eqb a b = true <-> a = b.
Proof.
  unfold str_eqb. destruct (list_eq_dec ascii_dec a b); split;
    congruence.
Qed.

Lemma str_eqb_refl (a : str) : str_eqb a a = true.
Proof. now apply str_eqb_eq. Qed.

Lemma differs_false (v d : option str) : differs v d = false <-> v = d.
Proof.
  destruct v as [a|], d as [b|]; cbn [differs]; split; try congruence.
  - intros H. apply negb_false_iff, str_eqb_eq in H. now subst.
  - intros H. injection H as ->. now rewrite str_eqb_refl.
Qed.

(** X27. [check_paths] returns exactly when no path starts with a separator;
    otherwise it raises [ValueError] for the first absolute path, in the
    order of the dictionary, and its message names the argument and the
    path. *)
Theorem check_paths_relative (out_dict before after : dict str)
  (k path : str) :
  (check_paths out_dict = None
   <-> Forall (fun kv => isabs (snd kv) = false) out_dict)
  /\ (Forall (fun kv => isabs (snd kv) = false) before ->
      isabs path = true ->
      check_paths (before ++ (k, path) :: after)
      = Some (ValueError (path_message k path))).
Proof.
  split.
  - induction out_dict as [|[k' p] rest IH];
      [split; [constructor | reflexivity]|].
    cbn [check_paths]. destruct (isabs p) eqn:E.
    + split; [discriminate|]. intros H. inversion H as [|kv l Hp Hl]; subst.
      cbn [snd] in Hp. congruence.
    + rewrite IH. split; [intros H; now constructor|].
      intros H. now inversion H.
  - intros Hb Hp. induction Hb as [|[k' p] rest Hk _ IH].
    + cbn [app check_paths]. now rewrite Hp.
    + cbn [app check_paths]. cbn [snd] in Hk. now rewrite Hk.
Qed.

Lemma out_docker_open : endswith_sep out_docker = false.
Proof. reflexivity. Qed.

(** X28. After [check_paths] every output path handed to the container lies
    under the mounted [/data/out]: it is [/data/out/] followed by the path
    as given.  An absolute path would replace the mount point. *)
Theorem docker_paths_under_mount (out_dict : dict str) (k path : str) :
  (check_paths out_dict = None -> In (k, path) out_dict ->
   docker_path path = out_docker ++ sep :: path)
  /\ (isabs path = true -> docker_path path = path).
Proof.
  split.
  - intros Hc Hin. unfold docker_path, join.
    assert (Hrel : isabs path = false).
    { revert Hc Hin. induction out_dict as [|[k' p] rest IH]; [intros _ []|].
      cbn [check_paths]. destruct (isabs p) eqn:E; [discriminate|].
      intros Hc [H | H]; [congruence | now apply IH]. }
    rewrite Hrel. reflexivity.
  - intros Habs. unfold docker_path, join. now rewrite Habs.
Qed.

Section FixedArgsFacts.

Variable BRAIN_CKPT : option str.

Lemma lookup_ckpt_path :
  lookup (lit "ckpt_path") (defaults_dict BRAIN_CKPT) = Some BRAIN_CKPT.
Proof.
  unfold defaults_dict. cbn [lookup]. now rewrite str_eqb_refl.
Qed.

Lemma lookup_custom_model :
  lookup (lit "custom_model") (defaults_dict BRAIN_CKPT) = Some None.
Proof.
  unfold defaults_dict. cbn [lookup].
  destruct (str_eqb (lit "custom_model") (lit "ckpt_path")) eqn:E.
  - apply str_eqb_eq in E. discriminate E.
  - now rewrite str_eqb_refl.
Qed.

(** X29. [check_fixed_args] returns exactly when every argument is a known
    one and equals its default; on the arguments [main] passes, when
    [ckpt_path] is the default checkpoint and [custom_model] is [None].
    The message of its [ValueError] depends on the name of the argument
    only: neither the default nor the value passed are printed. *)
Theorem check_fixed_args_defaults (fixed_args rest rest' : dict (option str))
  (k : str) (ckpt model v v' d : option str) :
  (check_fixed_args BRAIN_CKPT fixed_args = None
   <-> Forall (fun kv => lookup (fst kv) (defaults_dict BRAIN_CKPT)
                         = Some (snd kv)) fixed_args)
  /\ (check_fixed_args BRAIN_CKPT
        [(lit "ckpt_path", ckpt); (lit "custom_model", model)] = None
      <-> ckpt = BRAIN_CKPT /\ model = None)
  /\ (lookup k (defaults_dict BRAIN_CKPT) = Some d -> v <> d -> v' <> d ->
      check_fixed_args BRAIN_CKPT ((k, v) :: rest)
      = Some (ValueError (fixed_message k))
      /\ check_fixed_args BRAIN_CKPT ((k, v') :: rest')
         = Some (ValueError (fixed_message k))).
Proof.
  assert (H1 : forall args,
    check_fixed_args BRAIN_CKPT args = None
    <-> Forall (fun kv => lookup (fst kv) (defaults_dict BRAIN_CKPT)
                          = Some (snd kv)) args).
  { induction args as [|[k' w] args IH];
      [split; [constructor | reflexivity]|].
    cbn [check_fixed_args].
    destruct (lookup k' (defaults_dict BRAIN_CKPT)) as [d'|] eqn:E.
    - destruct (differs w d') eqn:Ed.
      + split; [discriminate|]. intros H.
        inversion H as [|kv l Hk Hl]; subst. cbn [fst snd] in Hk.
        rewrite E in Hk. injection Hk as ->.
        assert (Hf : differs w w = false) by now apply differs_false.
        congruence.
      + apply differs_false in Ed. subst d'. rewrite IH.
        split; [intros H; now constructor|]. intros H. now inversion H.
    - split; [discriminate|]. intros H.
      inversion H as [|kv l Hk Hl]; subst. cbn [fst snd] in Hk. congruence. }
  split; [apply H1|]. split.
  - rewrite H1. split.
    + intros H. pose proof (Forall_inv H) as Hk.
      pose proof (Forall_inv (Forall_inv_tail H)) as Hk'.
      cbn [fst snd] in Hk, Hk'.
      rewrite lookup_ckpt_path in Hk. rewrite lookup_custom_model in Hk'.
      split; congruence.
    + intros [-> ->]. constructor; [apply lookup_ckpt_path|].
      constructor; [apply lookup_custom_model | constructor].
  - intros Hk Hv Hv'. cbn [check_fixed_args]. rewrite Hk.
    destruct (differs v d) eqn:E;
      [|apply differs_false in E; contradiction].
    destruct (differs v' d) eqn:E';
      [|apply differs_false in E'; contradiction].
    split; reflexivity.
Qed.

End FixedArgsFacts.

End RunDockerFacts.

(** ** Examples *)

Module Examples.

Import B64 Data.
Local Open Scope float_scope.


(** The rows (1, ..., 7, 8) and (1, ..., 7, 9): a range of 0 or of -0 is
    replaced by 9 - 1 = 8, a range of 2 is kept. *)
Lemma zero_datarange_recomputed :
  inferred_datarange row8 row8' = Ok 8
  /\ resolve_datarange row8 row8' (Some 0) = Ok 8
  /\ resolve_datarange row8 row8' (Some (-0)) = Ok 8
  /\ resolve_datarange row8 row8' None = Ok 8
  /\ resolve_datarange row8 row8' (Some 2) = Ok 2.
Proof. repeat split; reflexivity. Qed.

(** The row (1, ..., 8) compared with itself: the range is 7 and the SSIM
    map is 1 at every place. *)
Lemma ssim_map_of_identical_rows :
  structural_similarity_full row8 row8 7 = Ok (1, ones8).
Proof. vm_compute. reflexivity. Qed.

Lemma ssim_selection_policy_witness :
  ssim structural_similarity_full row8 row8 None None = Ok 1
  /\ ssim structural_similarity_full row8 row8 (Some mask8) None
     = Ok (masked_mean (data ones8) (data mask8)).
Proof.
  apply (@ssim_selection_policy float _ structural_similarity_full
           row8 row8 mask8 None 7 1 ones8); reflexivity.
Defined.

(** C5 fails as stated: mask entries of -1 and -2 are not zero, yet their
    positions are left out.  For the row (1, ..., 8) compared with itself
    the map is 1 at every place.  With the mask (-1, 0, 0, -1, 0, 0, 0, -2)
    the code selects no place at all and returns NaN, the mean of no value;
    the three places where the mask is not zero hold 1, 1 and 1, whose mean
    is 1. *)
Lemma negative_mask_entries_excluded :
  ssim structural_similarity_full row8 row8 (Some negative_mask8) None
  = Ok nan
  /\ structural_similarity_full row8 row8 7 = Ok (1, ones8)
  /\ nonzero_masked_mean (data ones8) (data negative_mask8) = 1.
Proof. repeat split; vm_compute; reflexivity. Qed.

(** The rows (1, ..., 7, 8) and (1, ..., 7, 9), with a mask that is 1 at
    two places and -1 at two others: the code averages the map over the
    two places above zero, and the mean over the four places where the
    mask is not zero is smaller. *)
Lemma negative_mask_changes_mean :
  exists mssim smap v,
    structural_similarity_full row8' row8 8 = Ok (mssim, smap)
    /\ ssim structural_similarity_full row8 row8' (Some signed_mask8) None
       = Ok v
    /\ v = masked_mean (data smap) (data signed_mask8)
    /\ fltb (nonzero_masked_mean (data smap) (data signed_mask8)) v = true.
Proof.
  do 3 eexists. split; [vm_compute; reflexivity|].
  split; [vm_compute; reflexivity|]. split; reflexivity.
Qed.

(** C6 fails as stated: -1e308, 0 and 1e308 are finite values, yet the
    width of their range is not a binary64 number.  The arithmetic that
    places the largest value in a bin gives NaN and [np.histogram] raises
    [IndexError]: [shannon_entropy] returns no value, whatever the
    logarithm and the number of bins. *)
Lemma shannon_entropy_overflowing_range :
  Forall (fun v => is_finite v = true) (data wide)
  /\ size wide = 3%nat
  /\ np_histogram wide 5 = Raise bin_out_of_bounds
  /\ (forall (LF : ScalarLog float) (bins : Z),
        (1 <= bins)%Z ->
        @shannon_entropy float _ LF wide bins = Raise bin_out_of_bounds).
Proof.
  split; [repeat constructor|]. split; [reflexivity|].
  split; [vm_compute; reflexivity|].
  intros LF bins Hb. unfold shannon_entropy, np_histogram.
  replace (bins <? 1)%Z with false by (symmetry; apply Z.ltb_ge; lia).
  reflexivity.
Qed.

(** With such an array the mutual information fails in [shannon_entropy],
    before the two arrays are compared in any way. *)
Lemma mutual_information_overflowing_range (LF : ScalarLog float) :
  size wide <> size row4
  /\ @mutual_information float _ LF wide row4 5 = Raise bin_out_of_bounds
  /\ @normalized_mutual_information float _ LF wide row4 5
     = Raise bin_out_of_bounds.
Proof.
  split; [discriminate|]. split; reflexivity.
Qed.

(** C4 fails on the code: the built-in [sum] over the 2x2 array of absolute
    differences adds its rows and leaves an array of two numbers, whose
    comparison with 1e-13 has no truth value.  [psnr] of a 2x2 slice with
    itself raises instead of returning NaN, with or without a data range. *)
Lemma psnr_identical_slices_raise :
  psnr sample_psnr square square None
  = Raise (ValueError
      "The truth value of an array with more than one element is ambiguous. Use a.any() or a.all()")
  /\ psnr sample_psnr square square (Some 3)
     = Raise (ValueError
         "The truth value of an array with more than one element is ambiguous. Use a.any() or a.all()")
  /\ psnr sample_psnr row4 row4 None = Ok nan.
Proof. repeat split; reflexivity. Qed.

End Examples.

Module RealExamples.

Import XReal B64 XRealFacts XRealRange XRealEntropy XRealBins RealData.
Local Open Scope R_scope.

Lemma shape_mismatch_policy_witness :
  normalized_cross_correlation pair2 triple
  = Raise (ValueError "Input data shapes do not match")
  /\ is_ok (ssim structural_similarity_full pair2 triple None None) = false
  /\ joint_entropy pair2 triple 2
     = Raise (ValueError "x and y must have the same length.")
  /\ is_ok (mutual_information pair2 triple 2) = false
  /\ is_ok (normalized_mutual_information pair2 triple 2) = false
  /\ (is_ok (shannon_entropy pair2 2) = true ->
      is_ok (shannon_entropy triple 2) = true ->
      mutual_information pair2 triple 2
      = Raise (ValueError "x and y must have the same length.")
      /\ normalized_mutual_information pair2 triple 2
         = Raise (ValueError "x and y must have the same length."))
  /\ is_value_error (mutual_information pair2 triple 2)
     || is_index_error (mutual_information pair2 triple 2) = true
  /\ is_value_error (normalized_mutual_information pair2 triple 2)
     || is_index_error (normalized_mutual_information pair2 triple 2)
     = true.
Proof.
  destruct (shape_mismatch_policy structural_similarity_full
              pair2 triple 2 None None)
    as (H1 & H2 & H3).
  - intros a b d H. unfold structural_similarity_full, shape_check.
    now rewrite (shape_eqb_neq H).
  - discriminate.
  - split; [exact H1|]. split; [exact H2|]. apply H3.
    unfold size, pair2, triple, real_array. cbn [data map length]. lia.
Defined.

(** C2 fails as stated: [joint_entropy] flattens a 2x1 and a 1x2 array and
    returns a value, and [mae] broadcasts them to 2x2 without a word. *)
Lemma mismatched_shapes_accepted :
  shape RealData.col2 <> shape RealData.row2
  /\ is_ok (joint_entropy RealData.col2 RealData.row2 2) = true
  /\ shape Data.column <> shape Data.line
  /\ mae Data.column Data.line = Ok 13.5%float.
Proof.
  split; [discriminate|]. split.
  - apply XRealRange.joint_entropy_ok; [reflexivity | lia].
  - split; [discriminate | reflexivity].
Qed.

Lemma ncc_matches_formula_witness :
  normalized_cross_correlation ramp ramp
  = Ok (ncc_formula (data ramp) (data ramp)).
Proof.
  apply (@ncc_matches_formula ramp ramp); reflexivity.
Defined.

Lemma ncc_self_correlation_witness :
  normalized_cross_correlation ramp ramp = Ok (Fin ((4 - 1) / 4))
  /\ normalized_cross_correlation ramp (array_map fneg ramp)
     = Ok (Fin (- ((4 - 1) / 4))).
Proof.
  assert (H : non_constant [1; 2; 3; 4]).
  { exists 1, 2. cbn [In]. split; [tauto|]. split; [tauto|lra]. }
  pose proof (ncc_self_correlation [4%nat] H) as W.
  cbn [length INR] in W.
  replace (1 + 1 + 1 + 1) with 4 in W by lra. exact W.
Defined.

(** C3 fails as stated: in binary64 the correlation of (1, 2, 3, 4) with
    itself is 0.7500000000000001 (0.75 and one unit in the last place), and
    the opposite with its negation. *)
Lemma ncc_self_is_not_one :
  normalized_cross_correlation Data.row4 Data.row4
  = Ok 0x1.8000000000001p-1%float
  /\ normalized_cross_correlation Data.row4 (array_map fneg Data.row4)
     = Ok (-0x1.8000000000001p-1)%float.
Proof. split; reflexivity. Qed.

Lemma default_datarange_is_reference_biased_witness :
  let x := [1; 2; 3; 4; 5; 6; 7; 8] in
  let x_ref := [1; 2; 3; 4; 5; 6; 7; 10] in
  let dr := Fin (IZR (range_of_words x x_ref)) in
  resolve_datarange (real_array [8%nat] x) (real_array [8%nat] x_ref) None
  = Ok dr
  /\ psnr sample_psnr (real_array [8%nat] x) (real_array [8%nat] x_ref) None
     = psnr sample_psnr (real_array [8%nat] x) (real_array [8%nat] x_ref)
         (Some dr)
  /\ ssim structural_similarity_full (real_array [8%nat] x)
       (real_array [8%nat] x_ref) None None
     = ssim structural_similarity_full (real_array [8%nat] x)
         (real_array [8%nat] x_ref) None (Some dr).
Proof.
  intros x x_ref.
  apply (XRealDataRange.default_datarange_is_reference_biased
           sample_psnr structural_similarity_full [8%nat] [8%nat] (x := x)
           (x_ref := x_ref) None); discriminate.
Defined.

Lemma shannon_entropy_bounds_witness :
  exists h,
    np_histogram ramp 4 = Ok h
    /\ shannon_entropy ramp 4
       = Ok (NpFloat (Fin (entropy_of_words (real_probabilities h))))
    /\ 0 <= entropy_of_words (real_probabilities h) <= ln 4.
Proof.
  apply (@shannon_entropy_bounds [4%nat] [1; 2; 3; 4] 4);
    [discriminate | lia].
Defined.




End RealExamples.

(** ** More examples *)

Module Scenarios.

Import B64 Data.
Local Open Scope float_scope.

Lemma psnr_guard_raises_witness :
  psnr sample_psnr square square None
  = Raise (ValueError
      "The truth value of an array with more than one element is ambiguous. Use a.any() or a.all()").
Proof.
  apply (@psnr_guard_raises float _ sample_psnr square square None 3
           2%nat [2%nat]);
    try reflexivity; cbn; lia.
Defined.

Lemma default_datarange_needs_data_witness :
  exists op,
    psnr sample_psnr (mk_array [0%nat] []) row4 None
    = Raise (no_identity op)
    /\ ssim structural_similarity_full (mk_array [0%nat] []) row4 None None
       = Raise (no_identity op).
Proof.
  apply (@default_datarange_needs_data float _ sample_psnr
           structural_similarity_full
           (mk_array [0%nat] []) row4 None).
  left. reflexivity.
Defined.

Lemma ssim_empty_selection_witness :
  ssim structural_similarity_full row8 row8
    (Some (mk_array [8%nat] [0; 0; -1; 0; 0; 0; 0; 0])) None
  = Ok np_nan.
Proof.
  apply (@ssim_empty_selection float _ structural_similarity_full row8 row8
           (mk_array [8%nat] [0; 0; -1; 0; 0; 0; 0; 0]) None 7 1 ones8);
    try reflexivity.
  repeat constructor.
Defined.

Lemma ssim_mask_shape_mismatch_witness :
  ssim structural_similarity_full row8 row8 (Some mask4) None
  = Raise (IndexError "boolean index did not match indexed array").
Proof.
  apply (@ssim_mask_shape_mismatch float _ structural_similarity_full
           row8 row8 mask4 None 7 1 ones8); reflexivity.
Defined.

End Scenarios.

(** ** Binary64 against exact arithmetic

    What rounding, underflow and overflow change in the results that the
    theorems over the reals state exactly. *)

Module Rounding.

Import B64 Data.
Local Open Scope float_scope.

(** The mean of (2^-1074, 0) underflows to zero: [nmae] against a zero
    reference is 0 / 0 and not +inf. *)
Lemma nmae_underflow :
  nmae (mk_array [2%nat] [0x1p-1074; 0]) (mk_array [2%nat] [0; 0]) = Ok nan.
Proof. reflexivity. Qed.

(** (1, 2) against (3, 2), and the same arrays multiplied by 0.1 *)
Lemma nmae_scaled :
  nmae (mk_array [2%nat] [1; 2]) (mk_array [2%nat] [3; 2])
  = Ok 0x1.999999999999ap-2
  /\ nmae (array_map (fmul tenth) (mk_array [2%nat] [1; 2]))
          (array_map (fmul tenth) (mk_array [2%nat] [3; 2]))
     = Ok 0x1.999999999999bp-2.
Proof. split; reflexivity. Qed.

(** (0, 0, 1) and (0, 0, 5) in the two orders: one unit in the last
    place apart *)
Lemma ncc_exchanged :
  normalized_cross_correlation (mk_array [3%nat] [0; 0; 1])
    (mk_array [3%nat] [0; 0; 5])
  = Ok 0x1.5555555555555p-1
  /\ normalized_cross_correlation (mk_array [3%nat] [0; 0; 5])
       (mk_array [3%nat] [0; 0; 1])
     = Ok 0x1.5555555555556p-1.
Proof. split; reflexivity. Qed.

(** The mean of (0.1, 0.1, 0.1) is not 0.1: the correlation of this
    constant array with (1, 2, 3) is 0 and not NaN. *)
Lemma ncc_constant_rounded :
  np_mean [tenth; tenth; tenth] <> tenth
  /\ normalized_cross_correlation (mk_array [3%nat] [tenth; tenth; tenth])
       (mk_array [3%nat] [1; 2; 3])
     = Ok 0.
Proof. split; [discriminate | reflexivity]. Qed.

(** A single value of 1e17: the half added on each side of the range is
    lost, the width is zero and the histogram raises [IndexError]. *)
Lemma np_histogram_zero_width :
  outer_edges [0x1.6345785d8ap+56] = Ok (0x1.6345785d8ap+56, 0x1.6345785d8ap+56)
  /\ np_histogram (mk_array [1%nat] [0x1.6345785d8ap+56]) 5
     = Raise bin_out_of_bounds.
Proof. split; reflexivity. Qed.

(** The spread of -1e308 and 1e308 overflows: [int] of an infinity raises
    [OverflowError], also for [psnr] of an array with itself. *)
Lemma datarange_overflow :
  resolve_datarange (mk_array [1%nat] [- big]) (mk_array [1%nat] [big]) None
  = Raise (OverflowError "cannot convert float infinity to integer")
  /\ psnr sample_psnr (mk_array [2%nat] [- big; big])
       (mk_array [2%nat] [- big; big]) None
     = Raise (OverflowError "cannot convert float infinity to integer").
Proof. split; reflexivity. Qed.

(** (1e-17, 0.5) against (1, 0.5): the spread 1 - 1e-17 rounds to 1 before
    it is truncated. *)
Lemma datarange_rounded :
  resolve_datarange (mk_array [2%nat] [0x1.70ef54646d497p-57; 0.5])
    (mk_array [2%nat] [1; 0.5]) None
  = Ok 1.
Proof. reflexivity. Qed.

End Rounding.

Module RealScenarios.

Import XReal B64 XRealFacts XRealRange XRealEntropy XRealBins RealData.
Import XRealErrors XRealCorrelation XRealJoint XRealInformation.
Import XRealNonFinite XRealPsnr.
Local Open Scope R_scope.

Lemma ramp_not_constant : non_constant [1; 2; 3; 4].
Proof. exists 1, 2. cbn [In]. split; [tauto|]. split; [tauto | lra]. Defined.

Lemma mae_is_distance_witness :
  mae (real_array [2%nat] [1; 2]) (real_array [2%nat] [3; 2])
  = Ok (Fin (mean_abs_diff [1; 2] [3; 2]))
  /\ mae (real_array [2%nat] [3; 2]) (real_array [2%nat] [1; 2])
     = Ok (Fin (mean_abs_diff [1; 2] [3; 2]))
  /\ 0 <= mean_abs_diff [1; 2] [3; 2]
  /\ (mean_abs_diff [1; 2] [3; 2] = 0 <-> [1; 2] = [3; 2]).
Proof.
  apply (@mae_is_distance [2%nat] [1; 2] [3; 2]); [reflexivity | discriminate].
Defined.

Lemma mae_triangle_witness :
  exists d1 d2 d3,
    mae (real_array [2%nat] [1; 2]) (real_array [2%nat] [5; 5]) = Ok (Fin d1)
    /\ mae (real_array [2%nat] [1; 2]) (real_array [2%nat] [3; 2])
       = Ok (Fin d2)
    /\ mae (real_array [2%nat] [3; 2]) (real_array [2%nat] [5; 5])
       = Ok (Fin d3)
    /\ d1 <= d2 + d3.
Proof.
  apply (@mae_triangle [2%nat] [1; 2] [3; 2] [5; 5]);
    [reflexivity | reflexivity | discriminate].
Defined.

Lemma nmae_zero_reference_witness :
  ([1; 2] = [0; 0] ->
   nmae (real_array [2%nat] [1; 2]) (real_array [2%nat] [0; 0]) = Ok NaN)
  /\ ([1; 2] <> [0; 0] ->
      nmae (real_array [2%nat] [1; 2]) (real_array [2%nat] [0; 0]) = Ok PInf).
Proof.
  apply (@nmae_zero_reference [2%nat] [1; 2] [0; 0]);
    [reflexivity | discriminate | repeat constructor].
Defined.

Lemma nmae_scale_invariant_witness :
  nmae (real_array [2%nat] [1; 2]) (real_array [2%nat] [3; 2])
  = Ok (Fin (mean_abs_diff [1; 2] [3; 2] / mean_abs [3; 2]))
  /\ nmae (real_array [2%nat] (map (Rmult 10) [1; 2]))
          (real_array [2%nat] (map (Rmult 10) [3; 2]))
     = Ok (Fin (mean_abs_diff [1; 2] [3; 2] / mean_abs [3; 2])).
Proof.
  apply (@nmae_scale_invariant [2%nat] [1; 2] [3; 2] 10);
    [reflexivity | discriminate | lra |].
  intros H. apply Forall_inv in H. lra.
Defined.

Lemma ncc_symmetric_witness :
  normalized_cross_correlation (real_array [2%nat] [1; 2])
                               (real_array [2%nat] [3; 2])
  = normalized_cross_correlation (real_array [2%nat] [3; 2])
                                 (real_array [2%nat] [1; 2]).
Proof.
  apply (@ncc_symmetric [2%nat] [2%nat] [1; 2] [3; 2]). reflexivity.
Defined.

Lemma ncc_bounded_witness :
  let n := INR (length [1; 2; 3; 4]) in
  exists r,
    normalized_cross_correlation (real_array [4%nat] [1; 2; 3; 4])
                                 (real_array [4%nat] [1; 2; 3; 4])
    = Ok (Fin r)
    /\ - ((n - 1) / n) <= r <= (n - 1) / n
    /\ -1 < r < 1.
Proof.
  apply (@ncc_bounded [4%nat] [1; 2; 3; 4] [1; 2; 3; 4]);
    [reflexivity | exact ramp_not_constant | exact ramp_not_constant].
Defined.

Lemma ncc_constant_witness :
  normalized_cross_correlation (real_array [2%nat] [5; 5])
                               (real_array [2%nat] [1; 2])
  = Ok NaN
  /\ normalized_cross_correlation (real_array [2%nat] [1; 2])
                                  (real_array [2%nat] [5; 5])
     = Ok NaN.
Proof.
  apply (@ncc_constant [2%nat] 5 [5; 5] [1; 2]);
    [reflexivity | repeat constructor].
Defined.

Lemma ncc_affine_invariant_witness :
  normalized_cross_correlation
    (real_array [2%nat] (map (fun v => 3 * v + 7) [1; 2]))
    (real_array [2%nat] [3; 2])
  = normalized_cross_correlation (real_array [2%nat] [1; 2])
                                 (real_array [2%nat] [3; 2]).
Proof.
  apply (@ncc_affine_invariant [2%nat] [1; 2] [3; 2] 3 7);
    [reflexivity | lra].
Defined.

Lemma joint_entropy_bounds_witness :
  exists hh,
    np_histogram2d (map Fin [1; 2; 3; 4]) (map Fin [4; 3; 2; 1]) 4 = Ok hh
    /\ joint_entropy (real_array [4%nat] [1; 2; 3; 4])
                     (real_array [2%nat; 2%nat] [4; 3; 2; 1]) 4
       = Ok (NpFloat (Fin (entropy_of_words (real_probabilities hh))))
    /\ 0 <= entropy_of_words (real_probabilities hh) <= 2 * ln (IZR 4).
Proof.
  apply (@joint_entropy_bounds [4%nat] [2%nat; 2%nat] [1; 2; 3; 4]
           [4; 3; 2; 1] 4); [reflexivity | discriminate | lia].
Defined.

Lemma information_measures_symmetric_witness :
  joint_entropy (real_array [4%nat] [1; 2; 2; 4])
                (real_array [2%nat; 2%nat] [4; 3; 3; 1]) 3
  = joint_entropy (real_array [2%nat; 2%nat] [4; 3; 3; 1])
                  (real_array [4%nat] [1; 2; 2; 4]) 3
  /\ mutual_information (real_array [4%nat] [1; 2; 2; 4])
                        (real_array [2%nat; 2%nat] [4; 3; 3; 1]) 3
     = mutual_information (real_array [2%nat; 2%nat] [4; 3; 3; 1])
                          (real_array [4%nat] [1; 2; 2; 4]) 3
  /\ normalized_mutual_information (real_array [4%nat] [1; 2; 2; 4])
                                   (real_array [2%nat; 2%nat] [4; 3; 3; 1]) 3
     = normalized_mutual_information
         (real_array [2%nat; 2%nat] [4; 3; 3; 1])
         (real_array [4%nat] [1; 2; 2; 4]) 3.
Proof.
  apply (@information_measures_symmetric [4%nat] [2%nat; 2%nat]
           [1; 2; 2; 4] [4; 3; 3; 1] 3).
Defined.

Lemma mutual_information_bounds_witness :
  exists a b v,
    shannon_entropy (real_array [4%nat] [1; 2; 3; 4]) 4
    = Ok (NpFloat (Fin a))
    /\ shannon_entropy (real_array [4%nat] [4; 3; 2; 1]) 4
       = Ok (NpFloat (Fin b))
    /\ mutual_information (real_array [4%nat] [1; 2; 3; 4])
                          (real_array [4%nat] [4; 3; 2; 1]) 4
       = Ok (NpFloat (Fin v))
    /\ 0 <= v /\ v <= a /\ v <= b /\ v <= ln (IZR 4).
Proof.
  apply (@mutual_information_bounds [4%nat] [4%nat] [1; 2; 3; 4]
           [4; 3; 2; 1] 4); [reflexivity | discriminate | lia].
Defined.

Lemma nmi_bounds_witness :
  exists v,
    normalized_mutual_information (real_array [4%nat] [1; 2; 3; 4])
                                  (real_array [4%nat] [5; 5; 5; 5]) 4
    = Ok (NpFloat (Fin v))
    /\ 1 <= v <= 2.
Proof.
  apply (@nmi_bounds [4%nat] [4%nat] [1; 2; 3; 4] [5; 5; 5; 5] 4);
    [reflexivity | left; exact ramp_not_constant | lia].
Defined.

Lemma nmi_self_witness :
  normalized_mutual_information (real_array [4%nat] [1; 2; 3; 4])
                                (real_array [4%nat] [1; 2; 3; 4]) 4
  = Ok (NpFloat (Fin 2)).
Proof.
  apply (@nmi_self [4%nat] [1; 2; 3; 4] 4); [exact ramp_not_constant | lia].
Defined.

Lemma constant_reference_witness :
  shannon_entropy (real_array [4%nat] [5; 5; 5; 5]) 4 = Ok (NpFloat (Fin 0))
  /\ joint_entropy (real_array [4%nat] [1; 2; 3; 4])
                   (real_array [4%nat] [5; 5; 5; 5]) 4
     = shannon_entropy (real_array [4%nat] [1; 2; 3; 4]) 4
  /\ mutual_information (real_array [4%nat] [1; 2; 3; 4])
                        (real_array [4%nat] [5; 5; 5; 5]) 4
     = Ok (NpFloat (Fin 0))
  /\ normalized_mutual_information (real_array [4%nat] [1; 2; 3; 4])
                                   (real_array [4%nat] [5; 5; 5; 5]) 4
     = Ok (NpFloat (Fin 1)).
Proof.
  destruct (@constant_reference [4%nat] [4%nat] [1; 2; 3; 4] [5; 5; 5; 5] 5 4)
    as (H1 & H2 & H3 & H4 & _);
    [reflexivity | discriminate | repeat constructor | lia |].
  split; [exact H1|]. split; [exact H2|]. split; [exact H3|].
  apply H4; [exact ramp_not_constant | lia].
Defined.

Lemma information_needs_finite_values_witness :
  let x := mk_array [2%nat] [Fin 1; NaN] in
  let x_ref := mk_array [2%nat] [Fin 1; Fin 2] in
  is_value_error (joint_entropy x x_ref 2) = true
  /\ is_value_error (mutual_information x x_ref 2) = true
  /\ is_value_error (normalized_mutual_information x x_ref 2) = true.
Proof.
  apply (@information_needs_finite_values
           (mk_array [2%nat] [Fin 1; NaN])
           (mk_array [2%nat] [Fin 1; Fin 2]) 2 NaN);
    [left; right; left; reflexivity | reflexivity].
Defined.

Lemma entropy_of_empty_arrays_witness :
  shannon_entropy (real_array [0%nat] []) 4 = Ok (NpFloat NaN)
  /\ joint_entropy (real_array [0%nat] []) (real_array [0%nat] []) 4
     = Ok (NpFloat NaN)
  /\ mutual_information (real_array [0%nat] []) (real_array [0%nat] []) 4
     = Ok (NpFloat NaN)
  /\ normalized_mutual_information (real_array [0%nat] [])
                                   (real_array [0%nat] []) 4
     = Ok (NpFloat NaN).
Proof.
  apply (@entropy_of_empty_arrays [0%nat] [0%nat] 4). lia.
Defined.

Lemma psnr_vector_guard_witness :
  let x := real_array [length [1; 2]] [1; 2] in
  let x_ref := real_array [length [1; 2]] [3; 2] in
  (sum_abs_diff [1; 2] [3; 2] < 1 / 10000000000000 ->
   psnr sample_psnr x x_ref None = Ok NaN)
  /\ (1 / 10000000000000 <= sum_abs_diff [1; 2] [3; 2] ->
      psnr sample_psnr x x_ref None
      = sample_psnr x x_ref (Fin (IZR (range_of_words [1; 2] [3; 2]))))
  /\ psnr sample_psnr x x None = Ok NaN.
Proof.
  apply (@psnr_vector_guard sample_psnr [1; 2] [3; 2]);
    [reflexivity | discriminate].
Defined.

Lemma default_datarange_truncates_witness :
  let spread := MaxRlist [3; 2] - Rmin (MinRlist [1; 2]) (MinRlist [3; 2]) in
  exists z,
    resolve_datarange (real_array [2%nat] [1; 2]) (real_array [2%nat] [3; 2])
      None
    = Ok (Fin (IZR z))
    /\ (0 <= z)%Z /\ IZR z <= spread < IZR z + 1
    /\ (spread < 1 -> z = 0%Z).
Proof.
  apply (@default_datarange_truncates [2%nat] [2%nat] [1; 2] [3; 2]);
    discriminate.
Defined.

Lemma default_datarange_nan_witness :
  let x := mk_array [2%nat] [Fin 1; NaN] in
  let x_ref := mk_array [2%nat] [Fin 1; Fin 2] in
  psnr sample_psnr x x_ref None
  = Raise (ValueError "cannot convert float NaN to integer")
  /\ ssim structural_similarity_full x x_ref None None
     = Raise (ValueError "cannot convert float NaN to integer").
Proof.
  apply (@default_datarange_nan sample_psnr structural_similarity_full
           (mk_array [2%nat] [Fin 1; NaN])
           (mk_array [2%nat] [Fin 1; Fin 2]) None);
    [discriminate | discriminate | left; right; left; reflexivity].
Defined.

Lemma shannon_entropy_defined_witness :
  is_ok (shannon_entropy ramp 4) = true.
Proof.
  apply (proj2 (proj1 (shannon_entropy_defined ramp 4))).
  split; [lia | repeat constructor].
Defined.

End RealScenarios.

Module PathScenarios.

Import Posix Preprocess RunDocker PathFacts RunDockerFacts.

Lemma bias_path_inserts_witness :
  bias_path (lit "data/sub-01_T2w" ++ lit ".nii.gz")
  = lit "data/sub-01_T2w" ++ lit "_bias" ++ lit ".nii.gz".
Proof.
  apply (proj1 (bias_path_inserts (lit "data/sub-01_T2w") (lit ".nii.gz")
                  [])).
  reflexivity.
Defined.

Lemma bias_overwrites_output_witness :
  output_bias (lit "out") (lit "data/im.nii")
  = output (lit "out") (lit "data/im.nii").
Proof.
  apply (proj2 (bias_overwrites_output (lit "out") (lit "data/im.nii"))).
  left. reflexivity.
Defined.

Lemma check_paths_relative_witness :
  check_paths [(lit "reports_dir", lit "reports");
               (lit "bids_csv", lit "/tmp/bids.csv")]
  = Some (ValueError (path_message (lit "bids_csv") (lit "/tmp/bids.csv"))).
Proof.
  apply (proj2 (check_paths_relative [] [(lit "reports_dir", lit "reports")]
                  [] (lit "bids_csv") (lit "/tmp/bids.csv")));
    [repeat constructor | reflexivity].
Defined.

Lemma docker_paths_under_mount_witness :
  docker_path (lit "reports") = lit "/data/out/reports".
Proof.
  apply (proj1 (docker_paths_under_mount
                  [(lit "reports_dir", lit "reports");
                   (lit "bids_csv", lit "bids.csv")]
                  (lit "reports_dir") (lit "reports")));
    [reflexivity | left; reflexivity].
Defined.

Lemma check_fixed_args_defaults_witness :
  check_fixed_args (Some (lit "model.ckpt"))
    [(lit "ckpt_path", Some (lit "model.ckpt")); (lit "custom_model", None)]
  = None.
Proof.
  apply (proj2 (proj1 (proj2 (check_fixed_args_defaults
                                (Some (lit "model.ckpt")) [] [] []
                                (lit "ckpt_path") (Some (lit "model.ckpt"))
                                None None None None)))).
  split; reflexivity.
Defined.

End PathScenarios.
